(** * Photowall: the receiver's slideshow and the Presentation API polyfill

    A shallow embedding of
    - [photowall/app/scripts/constants.js],
    - [photowall/app/scripts/receiver.js] and its Cast-for-EDU variant,
    - [photowall/app/scripts/presentation_polyfill.js] and its variant,
    as state-passing functions over one record that holds the page: the
    closure variables of both scripts and the parts of the browser they
    touch (the [#slideshow] element, the timeout table, the microtask queue,
    the messages posted to the senders and the uncaught errors).

    JavaScript numbers are integers here ([Z]): the sequence counter, the
    indexes, the timeout handles and the delays of the program are.  An
    exception is a result of its own ([Throw]); the state reached when it is
    thrown is kept, as in JavaScript. *)

From Stdlib Require Import ZArith String List Lia Bool.
From stdpp Require Import base list.
Import ListNotations.

Local Open Scope string_scope.
Local Open Scope list_scope.
Local Open Scope Z_scope.

(** ** constants.js *)

Definition DEFAULT_SLIDESHOW_DELAY : Z := 5000.
Definition DEFAULT_SLIDESHOW_ANIMATION : string := "fadeIn".

(** The enum [photowall.SlideshowAction] and the string each member stands
    for. *)
Inductive SlideshowAction := ADD_IMAGE | REMOVE_IMAGE | CHANGE_DELAY | CHANGE_ANIMATION.

Definition enum_value (a : SlideshowAction) : string :=
  match a with
  | ADD_IMAGE => "addImage"
  | REMOVE_IMAGE => "removeImage"
  | CHANGE_DELAY => "changeDelay"
  | CHANGE_ANIMATION => "changeAnimation"
  end.

(** ** Data *)

(** An image object: [url] is the property the receiver reads, [id] the one
    [addImage] attaches ([None]: the object has no such property), [others]
    the remaining properties, which the receiver never looks at. *)
Record Image := {
  id : option Z;
  url : string;
  others : list (string * string)
}.

(** The object [slideshow] of receiver.js. *)
Record Slideshow := {
  images : list Image;
  delay : Z;
  animation : string;
  currentImageIndex : Z
}.

(** The case of [switch (jsonMessage.action)] that a value of [action]
    selects: the first enum member it is strictly equal to, if any. *)
Definition switch_case (action : string) : option SlideshowAction :=
  if String.eqb action (enum_value ADD_IMAGE) then Some ADD_IMAGE
  else if String.eqb action (enum_value REMOVE_IMAGE) then Some REMOVE_IMAGE
  else if String.eqb action (enum_value CHANGE_DELAY) then Some CHANGE_DELAY
  else if String.eqb action (enum_value CHANGE_ANIMATION) then Some CHANGE_ANIMATION
  else None.

(** The type the JSDoc of the selected function gives to [jsonMessage.data]:
    [addImage] takes an object, [removeImage] and [changeDelay] a number,
    [changeAnimation] a string.  When no case is selected the data is never
    read. *)
Definition Payload (c : option SlideshowAction) : Type :=
  match c with
  | Some ADD_IMAGE => Image
  | Some REMOVE_IMAGE => Z
  | Some CHANGE_DELAY => Z
  | Some CHANGE_ANIMATION => string
  | None => unit
  end.

(** A message object [{action: ..., data: ...}] as the controllers send it:
    [data] has the type the selected function documents.  When [action] is
    none of the four, [data] is never read: it may be anything, or absent. *)
Record JsonMessage := {
  action : string;
  data : Payload (switch_case action)
}.

(** The data of an application message, seen through [JSON.parse], which is
    the only thing the receiver does with it.  The text is not JSON and
    [JSON.parse] throws a [SyntaxError]; or it is the text [null]; or it is
    the text of a message object; or it is the text of an object whose
    [action] is ['addImage'] and whose [data] is absent or [null]; or it is
    the text of any other value in which the handler finds no [action]: a
    number, a string, a boolean, an array, or an object whose [action] is
    absent or is not a string.  The texts left out are those of an object
    with one of the four actions whose [data] is not of the type the
    function documents, the case above apart. *)
Inductive AppData :=
| Unparseable
| JsonNull
| Json (m : JsonMessage)
| JsonAddImageNoData
| JsonOther.

(** What [JSON.parse] returns for such a text. *)
Inductive JsonValue :=
| JNull
| JMessage (m : JsonMessage)
| JAddImageNoData
| JOther.

(** [new MessageEvent('message', {data: d})]. *)
Inductive MessageEvent := new_MessageEvent (d : AppData).

(** The event the window's [message] listener receives when [e.data] is an
    object: [message_type] is [e.data.type] (any text other than the two the
    listener knows stands for a type that is absent or not a string: no case
    is selected), [message_data] is [e.data.data], then [e.origin] and
    [e.source] (a reference to the sending window).  An event whose data is
    [null] or [undefined] is the task [EmptyMessage] below. *)
Record WindowEvent := {
  message_type : string;
  message_data : AppData;
  origin : string;
  source : nat
}.

(** Which receiver script the page runs: receiver.js, or its variant that
    comes with the Cast-for-EDU polyfill. *)
Inductive Script := Photowall | CastForEdu.

(** What [PresentationConnection.send] is given.  [JSON.stringify] is kept
    as a constructor: the text that serialises this state. *)
Inductive Text :=
| Plain (s : string)
| JSON_stringify (o : Slideshow).

(** The [(string|Object)] argument of [sendMessage].  The only object the
    receiver ever passes is the shared [slideshow], by reference: it is read
    when it is serialised, not when it is passed. *)
Inductive Message :=
| StringMessage (s : string)
| SlideshowObject.

(** A function value is named by the script that created it: each property
    below is either [null] or the one closure that script assigns to it. *)
Definition EventHandler := option Script.

Module PresentationConnection.
Record t := {
  id : option string;
  state : string;
  onconnect : EventHandler;
  onclose : EventHandler;
  onterminate : EventHandler;
  onmessage : EventHandler;
  messageOrigin_ : option string;
  messageSource_ : option nat
}.

(** The constructor: [id], [messageOrigin_] and [messageSource_] are only
    declared. *)
Definition new : t :=
  {| id := None; state := "connected"; onconnect := None; onclose := None;
     onterminate := None; onmessage := None;
     messageOrigin_ := None; messageSource_ := None |}.

Definition set_id v (c : t) : t :=
  {| id := v; state := state c; onconnect := onconnect c; onclose := onclose c;
     onterminate := onterminate c; onmessage := onmessage c;
     messageOrigin_ := messageOrigin_ c; messageSource_ := messageSource_ c |}.
Definition set_onconnect v (c : t) : t :=
  {| id := id c; state := state c; onconnect := v; onclose := onclose c;
     onterminate := onterminate c; onmessage := onmessage c;
     messageOrigin_ := messageOrigin_ c; messageSource_ := messageSource_ c |}.
Definition set_onmessage v (c : t) : t :=
  {| id := id c; state := state c; onconnect := onconnect c; onclose := onclose c;
     onterminate := onterminate c; onmessage := v;
     messageOrigin_ := messageOrigin_ c; messageSource_ := messageSource_ c |}.
Definition set_messageOrigin_ v (c : t) : t :=
  {| id := id c; state := state c; onconnect := onconnect c; onclose := onclose c;
     onterminate := onterminate c; onmessage := onmessage c;
     messageOrigin_ := v; messageSource_ := messageSource_ c |}.
Definition set_messageSource_ v (c : t) : t :=
  {| id := id c; state := state c; onconnect := onconnect c; onclose := onclose c;
     onterminate := onterminate c; onmessage := onmessage c;
     messageOrigin_ := messageOrigin_ c; messageSource_ := v |}.
End PresentationConnection.
Abbreviation PresentationConnection := PresentationConnection.t.

(** An [img] element: what [showNextImage] sets on it. *)
Record Img := { src : string; className : string }.

(** A callback waiting on the [connectionList] promise or in the microtask
    queue: the one the receiver script registers when it starts, and the one
    [broadcastMessage] registers, which holds the message it was given. *)
Inductive Job :=
| Bootstrap (script : Script)
| Broadcast (message : Message).

Inductive Error :=
| SyntaxError
| TypeError (what : string).

(** A message handed to [postMessage]: the target window, the target origin
    and the text. *)
Definition Posted : Type := option nat * option string * Text.

(** ** The page *)

Record World := {
  (* closure variables of the receiver script *)
  slideshow : Slideshow;
  imageSequence : Z;
  nextImageTimeout : option Z;
  loaded : option Script;           (* the receiver script that has run *)
  (* closure variables of the polyfill: the fields of the one
     PresentationConnectionList, the flag, and the promise *)
  connections : list PresentationConnection;
  onconnectionavailable : EventHandler;
  connectionListResolved : bool;
  settled : bool;
  reactions : list Job;
  (* the browser *)
  childNodes : list Img;            (* children of #slideshow *)
  preloaded : list string;          (* src of the images of preloadNextImage *)
  timeouts : list (Z * Z);          (* pending timeouts: handle, delay *)
  nextHandle : Z;                   (* the handle setTimeout returns next *)
  microtasks : list Job;
  posted : list Posted;             (* postMessage calls, oldest first *)
  uncaught : list Error;            (* exceptions nobody caught *)
  (* history: the calls of onmessage handlers, oldest first *)
  delivered : list (nat * MessageEvent)
}.

Definition set_slideshow v w :=
  {| slideshow := v; imageSequence := imageSequence w;
     nextImageTimeout := nextImageTimeout w; loaded := loaded w;
     connections := connections w; onconnectionavailable := onconnectionavailable w;
     connectionListResolved := connectionListResolved w; settled := settled w;
     reactions := reactions w; childNodes := childNodes w; preloaded := preloaded w;
     timeouts := timeouts w; nextHandle := nextHandle w; microtasks := microtasks w;
     posted := posted w; uncaught := uncaught w; delivered := delivered w |}.
Definition set_imageSequence v w :=
  {| slideshow := slideshow w; imageSequence := v;
     nextImageTimeout := nextImageTimeout w; loaded := loaded w;
     connections := connections w; onconnectionavailable := onconnectionavailable w;
     connectionListResolved := connectionListResolved w; settled := settled w;
     reactions := reactions w; childNodes := childNodes w; preloaded := preloaded w;
     timeouts := timeouts w; nextHandle := nextHandle w; microtasks := microtasks w;
     posted := posted w; uncaught := uncaught w; delivered := delivered w |}.
Definition set_nextImageTimeout v w :=
  {| slideshow := slideshow w; imageSequence := imageSequence w; nextImageTimeout := v;
     loaded := loaded w; connections := connections w;
     onconnectionavailable := onconnectionavailable w;
     connectionListResolved := connectionListResolved w; settled := settled w;
     reactions := reactions w; childNodes := childNodes w; preloaded := preloaded w;
     timeouts := timeouts w; nextHandle := nextHandle w; microtasks := microtasks w;
     posted := posted w; uncaught := uncaught w; delivered := delivered w |}.
Definition set_loaded v w :=
  {| slideshow := slideshow w; imageSequence := imageSequence w;
     nextImageTimeout := nextImageTimeout w; loaded := v; connections := connections w;
     onconnectionavailable := onconnectionavailable w;
     connectionListResolved := connectionListResolved w; settled := settled w;
     reactions := reactions w; childNodes := childNodes w; preloaded := preloaded w;
     timeouts := timeouts w; nextHandle := nextHandle w; microtasks := microtasks w;
     posted := posted w; uncaught := uncaught w; delivered := delivered w |}.
Definition set_connections v w :=
  {| slideshow := slideshow w; imageSequence := imageSequence w;
     nextImageTimeout := nextImageTimeout w; loaded := loaded w; connections := v;
     onconnectionavailable := onconnectionavailable w;
     connectionListResolved := connectionListResolved w; settled := settled w;
     reactions := reactions w; childNodes := childNodes w; preloaded := preloaded w;
     timeouts := timeouts w; nextHandle := nextHandle w; microtasks := microtasks w;
     posted := posted w; uncaught := uncaught w; delivered := delivered w |}.
Definition set_onconnectionavailable v w :=
  {| slideshow := slideshow w; imageSequence := imageSequence w;
     nextImageTimeout := nextImageTimeout w; loaded := loaded w;
     connections := connections w; onconnectionavailable := v;
     connectionListResolved := connectionListResolved w; settled := settled w;
     reactions := reactions w; childNodes := childNodes w; preloaded := preloaded w;
     timeouts := timeouts w; nextHandle := nextHandle w; microtasks := microtasks w;
     posted := posted w; uncaught := uncaught w; delivered := delivered w |}.
Definition set_connectionListResolved v w :=
  {| slideshow := slideshow w; imageSequence := imageSequence w;
     nextImageTimeout := nextImageTimeout w; loaded := loaded w;
     connections := connections w; onconnectionavailable := onconnectionavailable w;
     connectionListResolved := v; settled := settled w; reactions := reactions w;
     childNodes := childNodes w; preloaded := preloaded w; timeouts := timeouts w;
     nextHandle := nextHandle w; microtasks := microtasks w; posted := posted w;
     uncaught := uncaught w; delivered := delivered w |}.
Definition set_settled v w :=
  {| slideshow := slideshow w; imageSequence := imageSequence w;
     nextImageTimeout := nextImageTimeout w; loaded := loaded w;
     connections := connections w; onconnectionavailable := onconnectionavailable w;
     connectionListResolved := connectionListResolved w; settled := v;
     reactions := reactions w; childNodes := childNodes w; preloaded := preloaded w;
     timeouts := timeouts w; nextHandle := nextHandle w; microtasks := microtasks w;
     posted := posted w; uncaught := uncaught w; delivered := delivered w |}.
Definition set_reactions v w :=
  {| slideshow := slideshow w; imageSequence := imageSequence w;
     nextImageTimeout := nextImageTimeout w; loaded := loaded w;
     connections := connections w; onconnectionavailable := onconnectionavailable w;
     connectionListResolved := connectionListResolved w; settled := settled w;
     reactions := v; childNodes := childNodes w; preloaded := preloaded w;
     timeouts := timeouts w; nextHandle := nextHandle w; microtasks := microtasks w;
     posted := posted w; uncaught := uncaught w; delivered := delivered w |}.
Definition set_childNodes v w :=
  {| slideshow := slideshow w; imageSequence := imageSequence w;
     nextImageTimeout := nextImageTimeout w; loaded := loaded w;
     connections := connections w; onconnectionavailable := onconnectionavailable w;
     connectionListResolved := connectionListResolved w; settled := settled w;
     reactions := reactions w; childNodes := v; preloaded := preloaded w;
     timeouts := timeouts w; nextHandle := nextHandle w; microtasks := microtasks w;
     posted := posted w; uncaught := uncaught w; delivered := delivered w |}.
Definition set_preloaded v w :=
  {| slideshow := slideshow w; imageSequence := imageSequence w;
     nextImageTimeout := nextImageTimeout w; loaded := loaded w;
     connections := connections w; onconnectionavailable := onconnectionavailable w;
     connectionListResolved := connectionListResolved w; settled := settled w;
     reactions := reactions w; childNodes := childNodes w; preloaded := v;
     timeouts := timeouts w; nextHandle := nextHandle w; microtasks := microtasks w;
     posted := posted w; uncaught := uncaught w; delivered := delivered w |}.
Definition set_timeouts v w :=
  {| slideshow := slideshow w; imageSequence := imageSequence w;
     nextImageTimeout := nextImageTimeout w; loaded := loaded w;
     connections := connections w; onconnectionavailable := onconnectionavailable w;
     connectionListResolved := connectionListResolved w; settled := settled w;
     reactions := reactions w; childNodes := childNodes w; preloaded := preloaded w;
     timeouts := v; nextHandle := nextHandle w; microtasks := microtasks w;
     posted := posted w; uncaught := uncaught w; delivered := delivered w |}.
Definition set_nextHandle v w :=
  {| slideshow := slideshow w; imageSequence := imageSequence w;
     nextImageTimeout := nextImageTimeout w; loaded := loaded w;
     connections := connections w; onconnectionavailable := onconnectionavailable w;
     connectionListResolved := connectionListResolved w; settled := settled w;
     reactions := reactions w; childNodes := childNodes w; preloaded := preloaded w;
     timeouts := timeouts w; nextHandle := v; microtasks := microtasks w;
     posted := posted w; uncaught := uncaught w; delivered := delivered w |}.
Definition set_microtasks v w :=
  {| slideshow := slideshow w; imageSequence := imageSequence w;
     nextImageTimeout := nextImageTimeout w; loaded := loaded w;
     connections := connections w; onconnectionavailable := onconnectionavailable w;
     connectionListResolved := connectionListResolved w; settled := settled w;
     reactions := reactions w; childNodes := childNodes w; preloaded := preloaded w;
     timeouts := timeouts w; nextHandle := nextHandle w; microtasks := v;
     posted := posted w; uncaught := uncaught w; delivered := delivered w |}.
Definition set_posted v w :=
  {| slideshow := slideshow w; imageSequence := imageSequence w;
     nextImageTimeout := nextImageTimeout w; loaded := loaded w;
     connections := connections w; onconnectionavailable := onconnectionavailable w;
     connectionListResolved := connectionListResolved w; settled := settled w;
     reactions := reactions w; childNodes := childNodes w; preloaded := preloaded w;
     timeouts := timeouts w; nextHandle := nextHandle w; microtasks := microtasks w;
     posted := v; uncaught := uncaught w; delivered := delivered w |}.
Definition set_uncaught v w :=
  {| slideshow := slideshow w; imageSequence := imageSequence w;
     nextImageTimeout := nextImageTimeout w; loaded := loaded w;
     connections := connections w; onconnectionavailable := onconnectionavailable w;
     connectionListResolved := connectionListResolved w; settled := settled w;
     reactions := reactions w; childNodes := childNodes w; preloaded := preloaded w;
     timeouts := timeouts w; nextHandle := nextHandle w; microtasks := microtasks w;
     posted := posted w; uncaught := v; delivered := delivered w |}.
Definition set_delivered v w :=
  {| slideshow := slideshow w; imageSequence := imageSequence w;
     nextImageTimeout := nextImageTimeout w; loaded := loaded w;
     connections := connections w; onconnectionavailable := onconnectionavailable w;
     connectionListResolved := connectionListResolved w; settled := settled w;
     reactions := reactions w; childNodes := childNodes w; preloaded := preloaded w;
     timeouts := timeouts w; nextHandle := nextHandle w; microtasks := microtasks w;
     posted := posted w; uncaught := uncaught w; delivered := v |}.

Definition set_images v (s : Slideshow) :=
  {| images := v; delay := delay s; animation := animation s;
     currentImageIndex := currentImageIndex s |}.
Definition set_delay v (s : Slideshow) :=
  {| images := images s; delay := v; animation := animation s;
     currentImageIndex := currentImageIndex s |}.
Definition set_animation v (s : Slideshow) :=
  {| images := images s; delay := delay s; animation := v;
     currentImageIndex := currentImageIndex s |}.
Definition set_currentImageIndex v (s : Slideshow) :=
  {| images := images s; delay := delay s; animation := animation s;
     currentImageIndex := v |}.
Definition set_id v (i : Image) :=
  {| id := v; url := url i; others := others i |}.

(** ** Computations: a state over the page, with exceptions *)

Inductive Completion (A : Type) :=
| Normal (a : A)
| Throw (e : Error).
Arguments Normal {A} a.
Arguments Throw {A} e.

Definition JS (A : Type) : Type := World -> Completion A * World.

Definition ret {A} (a : A) : JS A := fun w => (Normal a, w).
Definition throw {A} (e : Error) : JS A := fun w => (Throw e, w).
Definition bind {A B} (m : JS A) (k : A -> JS B) : JS B :=
  fun w => match m w with
           | (Normal a, w') => k a w'
           | (Throw e, w') => (Throw e, w')
           end.
Definition gets {A} (f : World -> A) : JS A := fun w => (Normal (f w), w).
Definition modify (f : World -> World) : JS unit := fun w => (Normal tt, f w).

Declare Scope js_scope.
Delimit Scope js_scope with js.
Notation "'let*' x := m 'in' k" := (bind m (fun x => k))
  (at level 10, x name, m at level 100, k at level 200) : js_scope.
Notation "m ;; k" := (bind m (fun _ => k))
  (at level 100, k at level 200, right associativity) : js_scope.
Local Open Scope js_scope.

(** [if (c) { m }] with no else. *)
Definition when (c : bool) (m : JS unit) : JS unit := if c then m else ret tt.

(** A loop over the indexes [i, i+1, ..., i+n-1] of an array, as [forEach]
    and [map] run it: the element is read when its turn comes, and an
    exception ends the loop. *)
Fixpoint forIndexes (n : nat) (i : nat) (body : nat -> JS unit) : JS unit :=
  match n with
  | O => ret tt
  | S n' => body i ;; forIndexes n' (S i) body
  end.

(** ** Browser and language primitives *)

(** [a[i]] for a number [i]: [undefined] ([None]) out of range. *)
Definition at_index {A} (a : list A) (i : Z) : option A :=
  if i <? 0 then None else a !! Z.to_nat i.

(** [a.length]. *)
Definition len {A} (a : list A) : Z := Z.of_nat (length a).

(** [a.splice(start, 1)]: a negative [start] counts from the end. *)
Definition splice1 {A} (start : Z) (a : list A) : list A :=
  let k := if start <? 0 then Z.max (len a + start) 0 else Z.min start (len a) in
  delete (Z.to_nat k) a.

(** [ToBoolean] of a [?number]. *)
Definition truthy (t : option Z) : bool :=
  match t with
  | Some h => negb (h =? 0)
  | None => false
  end.

(** [setTimeout(showNextImage, delay)]: the only callback ever scheduled is
    [showNextImage], so a pending timeout is its handle and its delay. *)
Definition setTimeout (delay : Z) : JS Z :=
  let* h := gets nextHandle in
  modify (fun w => set_nextHandle (h + 1) (set_timeouts (timeouts w ++ [(h, delay)]) w)) ;;
  ret h.

(** [clearTimeout(t)]; nothing happens when no such timeout is pending. *)
Definition clearTimeout (t : option Z) : JS unit :=
  match t with
  | Some h =>
      modify (fun w => set_timeouts (List.filter (fun p => negb (fst p =? h)) (timeouts w)) w)
  | None => ret tt
  end.

(** [promise.then(job)] on the [connectionList] promise. *)
Definition then_ (job : Job) : JS unit :=
  modify (fun w => if settled w
                   then set_microtasks (microtasks w ++ [job]) w
                   else set_reactions (reactions w ++ [job]) w).

(** The [resolve] function of that promise. *)
Definition resolve : JS unit :=
  modify (fun w => if settled w then w
                   else set_reactions []
                          (set_microtasks (microtasks w ++ reactions w)
                             (set_settled true w))).

(** A reference to a connection is its index in [connectionList.connections]
    (connections are only ever appended); [None] is [undefined].
    Assigning to a property of [undefined] throws. *)
Definition assign (connection : option nat) (property : string)
    (f : PresentationConnection -> PresentationConnection) : JS unit :=
  match connection with
  | Some i => modify (fun w => set_connections (alter f i (connections w)) w)
  | None => throw (TypeError property)
  end.

(** [PresentationConnection.prototype.send]. *)
Definition send (this : option nat) (message : Text) : JS unit :=
  let* c := gets (fun w => match this with
                           | Some i => connections w !! i
                           | None => None
                           end) in
  match c with
  | None => throw (TypeError "send")
  | Some c =>
      match PresentationConnection.messageSource_ c with
      | None => throw (TypeError "postMessage")
      | Some target =>
          modify (fun w =>
            set_posted (posted w ++ [(Some target, PresentationConnection.messageOrigin_ c, message)]) w)
      end
  end.

(** ** The receiver script

    The functions from [getImageId] to [preloadNextImage] have the same text
    in receiver.js and in its variant, [var] against [const] and [let] apart:
    they are embedded once. *)

Definition update_slideshow (f : Slideshow -> Slideshow) : JS unit :=
  modify (fun w => set_slideshow (f (slideshow w)) w).

Definition getImageId : JS Z :=
  let* n := gets imageSequence in
  modify (set_imageSequence (n + 1)) ;;
  ret n.

Definition sendMessage (connection : option nat) (message : Message) : JS unit :=
  let* message :=
    match message with
    | SlideshowObject => let* o := gets slideshow in ret (JSON_stringify o)
    | StringMessage s => ret (Plain s)
    end in
  send connection message.

Definition broadcastMessage (message : Message) : JS unit :=
  then_ (Broadcast message).

(** The callback [broadcastMessage] gives to [then]. *)
Definition broadcast_callback (message : Message) : JS unit :=
  let* n := gets (fun w => length (connections w)) in
  forIndexes n 0 (fun i => sendMessage (Some i) message).

Definition preloadNextImage : JS unit :=
  let* s := gets slideshow in
  let nextImageIndex := currentImageIndex s + 1 in
  let nextImageIndex := if nextImageIndex >=? len (images s) then 0 else nextImageIndex in
  when (len (images s) >? 1)
    (match at_index (images s) nextImageIndex with
     | None => throw (TypeError "url")
     | Some nextImage => modify (fun w => set_preloaded (preloaded w ++ [url nextImage]) w)
     end).

Definition showNextImage : JS unit :=
  let* t := gets nextImageTimeout in
  when (truthy t) (clearTimeout t) ;;
  update_slideshow (fun s => set_currentImageIndex (currentImageIndex s + 1) s) ;;
  let* s := gets slideshow in
  when (currentImageIndex s >=? len (images s))
    (update_slideshow (set_currentImageIndex 0)) ;;
  let* s := gets slideshow in
  if len (images s) =? 0 then
    modify (set_childNodes [])
  else
    match at_index (images s) (currentImageIndex s) with
    | None => throw (TypeError "url")
    | Some currentImage =>
        let img := {| src := url currentImage;
                      className := String.append "animated " (animation s) |} in
        modify (fun w => set_childNodes (childNodes w ++ [img]) w) ;;
        preloadNextImage ;;
        let* h := setTimeout (delay s) in
        modify (set_nextImageTimeout (Some h))
    end.

Definition addImage (image : Image) : JS unit :=
  let* n := getImageId in
  let image := set_id (Some n) image in
  update_slideshow (fun s => set_images (images s ++ [image]) s) ;;
  let* s := gets slideshow in
  when (currentImageIndex s + 2 =? len (images s)) preloadNextImage ;;
  let* s := gets slideshow in
  when (len (images s) =? 1) showNextImage.

(** [image.id == id] for a number [id]: an absent id equals no number. *)
Definition id_equals (image : Image) (n : Z) : bool :=
  match id image with
  | Some m => m =? n
  | None => false
  end.

Definition Image_eq_dec (x y : Image) : {x = y} + {x <> y}.
Proof.
  assert (forall p q : string * string, {p = q} + {p <> q})
    by (decide equality; apply string_dec).
  decide equality;
    [ apply List.list_eq_dec; assumption
    | apply string_dec
    | decide equality; apply Z.eq_dec ].
Defined.

(** [a.indexOf(image)], [-1] when absent. *)
Fixpoint indexOf (image : Image) (a : list Image) : Z :=
  match a with
  | [] => -1
  | x :: a' =>
      if Image_eq_dec x image then 0
      else let r := indexOf image a' in if r <? 0 then -1 else r + 1
  end.

(** [some] stops at the first image for which the callback returns [true],
    the first whose id is [id]; for the images before, the callback does
    nothing. *)
Definition removeImage (n : Z) : JS bool :=
  let* s := gets slideshow in
  match List.find (fun image => id_equals image n) (images s) with
  | None => ret false
  | Some image =>
      let imageIndex := indexOf image (images s) in
      update_slideshow (fun s => set_images (splice1 imageIndex (images s)) s) ;;
      let* s := gets slideshow in
      when (imageIndex <? currentImageIndex s)
        (update_slideshow (fun s => set_currentImageIndex (currentImageIndex s - 1) s)) ;;
      let* s := gets slideshow in
      when (imageIndex =? currentImageIndex s)
        (update_slideshow (fun s => set_currentImageIndex (currentImageIndex s - 1) s) ;;
         showNextImage) ;;
      ret true
  end.

Definition changeDelay (d : Z) : JS unit :=
  update_slideshow (set_delay d) ;;
  update_slideshow (fun s => set_currentImageIndex (currentImageIndex s - 1) s) ;;
  showNextImage.

Definition changeAnimation (a : string) : JS unit :=
  update_slideshow (set_animation a).

Definition JSON_parse (d : AppData) : JS JsonValue :=
  match d with
  | Unparseable => throw SyntaxError
  | JsonNull => ret JNull
  | Json m => ret (JMessage m)
  | JsonAddImageNoData => ret JAddImageNoData
  | JsonOther => ret JOther
  end.

(** The body of the [switch]: the function of the selected case, applied to
    [jsonMessage.data]. *)
Definition dispatch (jsonMessage : JsonMessage) : JS unit :=
  match switch_case (action jsonMessage) as c return Payload c -> JS unit with
  | Some ADD_IMAGE => fun data => addImage data
  | Some REMOVE_IMAGE => fun data => let* _ := removeImage data in ret tt
  | Some CHANGE_DELAY => fun data => changeDelay data
  | Some CHANGE_ANIMATION => fun data => changeAnimation data
  | None => fun _ => ret tt
  end (data jsonMessage).

(** [addImage(undefined)] and [addImage(null)].  Of [image.id = getImageId()]
    the engines evaluate the right-hand side first: [imageSequence] is
    incremented, then the assignment to a property of [undefined] throws and
    the rest of the function does not run. *)
Definition addImage_undefined : JS unit :=
  let* _ := getImageId in
  throw (TypeError "id").

(** The [switch] statement on what [JSON.parse] returned.  Reading [action]
    of [null] throws; a value without one of the four actions selects no
    case. *)
Definition switch (jsonMessage : JsonValue) : JS unit :=
  match jsonMessage with
  | JNull => throw (TypeError "action")
  | JMessage jsonMessage => dispatch jsonMessage
  | JAddImageNoData => addImage_undefined
  | JOther => ret tt
  end.

(** What the receiver's [onconnectionavailable] callback is called with: the
    callback indexes its argument as an array of connections, the polyfill
    passes one connection. *)
Inductive Argument :=
| AConnection (connection : nat)
| AnArray (connections : list nat).

(** [connections[connections.length - 1]].  A connection object has no
    [length]: the index is then [NaN] and the element [undefined]. *)
Definition last_of (connections : Argument) : option nat :=
  match connections with
  | AnArray l => last l
  | AConnection _ => None
  end.

(** *** receiver.js *)
Module Receiver.

Definition onmessage (e : MessageEvent) : JS unit :=
  let 'new_MessageEvent data := e in
  let* jsonMessage := JSON_parse data in
  switch jsonMessage ;;
  broadcastMessage SlideshowObject.

Definition addConnection (connection : option nat) : JS unit :=
  sendMessage connection SlideshowObject ;;
  assign connection "onmessage" (PresentationConnection.set_onmessage (Some Photowall)).

(** The callback of the script's own [connectionList.then]. *)
Definition bootstrap : JS unit :=
  let* n := gets (fun w => length (connections w)) in
  forIndexes n 0 (fun i => addConnection (Some i)) ;;
  modify (set_onconnectionavailable (Some Photowall)).

Definition onconnectionavailable (connections : Argument) : JS unit :=
  addConnection (last_of connections).

(** The script's top level. *)
Definition main : JS unit := then_ (Bootstrap Photowall).

End Receiver.

(** *** The variant of receiver.js *)
Module ReceiverEdu.

(** The closure assigned to [connection.onconnect]; it holds the
    connection it was made for. *)
Definition onconnect (connection : option nat) : JS unit :=
  sendMessage connection SlideshowObject.

Definition onmessage (e : MessageEvent) : JS unit :=
  let 'new_MessageEvent data := e in
  let* jsonMessage := JSON_parse data in
  switch jsonMessage ;;
  broadcastMessage SlideshowObject.

Definition addConnection (connection : option nat) : JS unit :=
  assign connection "onconnect" (PresentationConnection.set_onconnect (Some CastForEdu)) ;;
  assign connection "onmessage" (PresentationConnection.set_onmessage (Some CastForEdu)).

Definition bootstrap : JS unit :=
  let* n := gets (fun w => length (connections w)) in
  forIndexes n 0 (fun i => addConnection (Some i)) ;;
  modify (set_onconnectionavailable (Some CastForEdu)).

Definition onconnectionavailable (connections : Argument) : JS unit :=
  addConnection (last_of connections).

Definition main : JS unit := then_ (Bootstrap CastForEdu).

End ReceiverEdu.

(** Calling a function value. *)
Definition call_onmessage (f : Script) (e : MessageEvent) : JS unit :=
  match f with
  | Photowall => Receiver.onmessage e
  | CastForEdu => ReceiverEdu.onmessage e
  end.

Definition call_onconnectionavailable (f : Script) (a : Argument) : JS unit :=
  match f with
  | Photowall => Receiver.onconnectionavailable a
  | CastForEdu => ReceiverEdu.onconnectionavailable a
  end.

Definition run_job (j : Job) : JS unit :=
  match j with
  | Bootstrap Photowall => Receiver.bootstrap
  | Bootstrap CastForEdu => ReceiverEdu.bootstrap
  | Broadcast message => broadcast_callback message
  end.

(** ** The polyfill

    The listener that [PresentationReceiver] adds to the window; it is the
    same in presentation_polyfill.js and in its variant. *)
Module Polyfill.

(** [connection.onmessage(new MessageEvent(...))], noted in the history. *)
Definition deliver (i : nat) (f : Script) (e : MessageEvent) : JS unit :=
  modify (fun w => set_delivered (delivered w ++ [(i, e)]) w) ;;
  call_onmessage f e.

Definition listener (e : WindowEvent) : JS unit :=
  if String.eqb (message_type e) "NEW_CONNECTION" then
    let presentationConnection :=
      PresentationConnection.set_messageSource_ (Some (source e))
        (PresentationConnection.set_messageOrigin_ (Some (origin e))
           (PresentationConnection.set_id (Some "")
              PresentationConnection.new)) in
    let* i := gets (fun w => length (connections w)) in
    modify (fun w => set_connections (connections w ++ [presentationConnection]) w) ;;
    let* connectionListResolved := gets connectionListResolved in
    if negb connectionListResolved then
      modify (set_connectionListResolved true) ;;
      resolve
    else
      let* handler := gets onconnectionavailable in
      match handler with
      | Some f => call_onconnectionavailable f (AConnection i)
      | None => ret tt
      end
  else if String.eqb (message_type e) "APP_MESSAGE" then
    let* n := gets (fun w => length (connections w)) in
    forIndexes n 0 (fun i =>
      let* connection := gets (fun w => connections w !! i) in
      match connection with
      | Some connection =>
          match PresentationConnection.onmessage connection with
          | Some f => deliver i f (new_MessageEvent (message_data e))
          | None => ret tt
          end
      | None => ret tt
      end)
  else ret tt.

End Polyfill.

(** ** The event loop *)

Inductive Task :=
| RunScript (script : Script)        (* the receiver script is executed *)
| WindowMessage (e : WindowEvent)    (* a message event on the window *)
| Timeout (h : Z)                    (* the pending timeout [h] expires *)
| AnimationEnd                       (* webkitAnimationEnd on a shown image *)
| EmptyMessage.                      (* a message event whose data is null or
                                        undefined *)

(** The listener [showNextImage] puts on each image it shows: all children
    of [#slideshow] but the last are removed. *)
Definition onAnimationEnd : JS unit :=
  modify (fun w => set_childNodes (match last (childNodes w) with
                                   | Some img => [img]
                                   | None => []
                                   end) w).

(** What a task runs.  The page runs one receiver script, once: a second
    [RunScript] does nothing.  A timeout that expires leaves the table of
    pending timeouts, then its callback, [showNextImage], is called; a
    timeout that is not pending cannot expire.  On a message event without
    data the listener of the polyfill throws when it reads [message.type]. *)
Definition callback (t : Task) : JS unit :=
  match t with
  | RunScript script =>
      let* l := gets loaded in
      match l with
      | Some _ => ret tt
      | None =>
          modify (set_loaded (Some script)) ;;
          match script with
          | Photowall => Receiver.main
          | CastForEdu => ReceiverEdu.main
          end
      end
  | WindowMessage e => Polyfill.listener e
  | Timeout h =>
      let* pending := gets (fun w => existsb (fun p => fst p =? h) (timeouts w)) in
      when pending (clearTimeout (Some h) ;; showNextImage)
  | AnimationEnd => onAnimationEnd
  | EmptyMessage => throw (TypeError "type")
  end.

(** Runs a computation to its end; an exception nobody catches is reported. *)
Definition perform (m : JS unit) (w : World) : World :=
  match m w with
  | (Normal _, w') => w'
  | (Throw e, w') => set_uncaught (uncaught w' ++ [e]) w'
  end.

(** The microtask checkpoint at the end of a task.  No job of this program
    queues another one (see [keeps_run_job_microtasks]), so the queue is
    empty once the jobs found in it have run.  A job that throws rejects a
    promise nobody looks at: it is reported like an uncaught exception. *)
Definition drain (w : World) : World :=
  fold_left (fun w j => perform (run_job j) w) (microtasks w) (set_microtasks [] w).

Definition step (w : World) (t : Task) : World := drain (perform (callback t) w).

Definition run (ts : list Task) (w : World) : World := fold_left step ts w.

(** The page once the polyfill has run, before the receiver script and any
    event.  The closure variables of the receiver script have the values
    the script gives them when it starts; nothing reads them before. *)
Definition initial : World :=
  {| slideshow := {| images := []; delay := DEFAULT_SLIDESHOW_DELAY;
                     animation := DEFAULT_SLIDESHOW_ANIMATION;
                     currentImageIndex := 0 |};
     imageSequence := 0; nextImageTimeout := None; loaded := None;
     connections := []; onconnectionavailable := None;
     connectionListResolved := false; settled := false; reactions := [];
     childNodes := []; preloaded := []; timeouts := []; nextHandle := 1;
     microtasks := []; posted := []; uncaught := []; delivered := [] |}.

(** ** Vocabulary of the statements *)

(** [i] when it is an index of [s.images], else [0]: what the two
    [if (... >= slideshow.images.length)] compute. *)
Definition wrap (s : Slideshow) (i : Z) : Z :=
  if i >=? len (images s) then 0 else i.

(** The invariant of [currentImageIndex]. *)
Definition index_ok (s : Slideshow) : Prop :=
  0 <= currentImageIndex s /\
  (images s <> [] -> currentImageIndex s < len (images s)) /\
  (images s = [] -> currentImageIndex s = 0).

(** The urls [preloadNextImage] loads in state [s]: none, or the one of the
    image after the current one. *)
Definition preload_of (s : Slideshow) : list string :=
  if len (images s) >? 1 then
    match at_index (images s) (wrap s (currentImageIndex s + 1)) with
    | Some nextImage => [url nextImage]
    | None => []
    end
  else [].

(** The timeouts left pending by the first statement of [showNextImage]. *)
Definition cleared (w : World) : list (Z * Z) :=
  if truthy (nextImageTimeout w)
  then match nextImageTimeout w with
       | Some h => List.filter (fun p => negb (fst p =? h)) (timeouts w)
       | None => timeouts w
       end
  else timeouts w.

(** The page after [showNextImage], when it reads inside the array. *)
Definition shown (w : World) : World :=
  let s := slideshow w in
  let s1 := set_currentImageIndex (wrap s (currentImageIndex s + 1)) s in
  let w1 := set_slideshow s1 (set_timeouts (cleared w) w) in
  if len (images s) =? 0 then set_childNodes [] w1
  else
    match at_index (images s) (currentImageIndex s1) with
    | Some currentImage =>
        let img := {| src := url currentImage;
                      className := String.append "animated " (animation s) |} in
        set_nextImageTimeout (Some (nextHandle w))
          (set_nextHandle (nextHandle w + 1)
             (set_timeouts (cleared w ++ [(nextHandle w, delay s)])
                (set_preloaded (preloaded w ++ preload_of s1)
                   (set_childNodes (childNodes w ++ [img]) w1))))
    | None => w1
    end.

(** [n] calls of [showNextImage] in a row. *)
Fixpoint showNextImage_times (n : nat) (w : World) : World :=
  match n with
  | O => w
  | S n' => showNextImage_times n' (snd (showNextImage w))
  end.

(** The page after [addImage image]. *)
Definition added (image : Image) (w : World) : World :=
  let s := slideshow w in
  let s1 := set_images (images s ++ [set_id (Some (imageSequence w)) image]) s in
  let w1 := set_slideshow s1 (set_imageSequence (imageSequence w + 1) w) in
  let w2 := if currentImageIndex s1 + 2 =? len (images s1)
            then set_preloaded (preloaded w1 ++ preload_of s1) w1 else w1 in
  if len (images s1) =? 1 then shown w2 else w2.

Definition decremented (w : World) : World :=
  set_slideshow (set_currentImageIndex (currentImageIndex (slideshow w) - 1) (slideshow w)) w.

(** The page after [removeImage] has found an image at [imageIndex]. *)
Definition removed (imageIndex : Z) (w : World) : World :=
  let s := slideshow w in
  let w1 := set_slideshow (set_images (splice1 imageIndex (images s)) s) w in
  let w2 := if imageIndex <? currentImageIndex (slideshow w1) then decremented w1 else w1 in
  if imageIndex =? currentImageIndex (slideshow w2) then shown (decremented w2) else w2.

(** The page after [changeDelay d]. *)
Definition delayed (d : Z) (w : World) : World :=
  shown (decremented (set_slideshow (set_delay d (slideshow w)) w)).

(** How [currentImageIndex] ends when [removeImage] has removed the image
    at position [i], from index [cur] and [n] images. *)
Definition index_after_removal (i cur n : Z) : Z :=
  if i <? cur then cur - 1
  else if i =? cur then (if cur >=? n - 1 then 0 else cur)
  else cur.

(** At most the timeout that [nextImageTimeout] names is pending, and the
    handles given out so far are positive and below the next one. *)
Definition timers_ok (w : World) : Prop :=
  0 < nextHandle w /\
  (forall h, nextImageTimeout w = Some h -> 0 < h < nextHandle w) /\
  (timeouts w = [] \/
   exists h d, timeouts w = [(h, d)] /\ nextImageTimeout w = Some h).

(** The polyfill's flag follows the promise; nothing waits on a settled
    promise; there is no connection before it is settled; every connection
    has the window it came from. *)
Definition promise_ok (w : World) : Prop :=
  settled w = connectionListResolved w /\
  (settled w = true -> reactions w = []) /\
  (settled w = false -> connections w = []) /\
  Forall (fun c => PresentationConnection.messageSource_ c <> None) (connections w).

(** No read of [slideshow.images] outside the array was ever reported. *)
Definition reads_ok (w : World) : Prop := ~ In (TypeError "url") (uncaught w).

Definition rest_ok (w : World) : Prop := timers_ok w /\ promise_ok w /\ reads_ok w.

(** What holds whenever a function of the scripts is entered or left, and
    what holds between two tasks. *)
Definition stable (w : World) : Prop := index_ok (slideshow w) /\ rest_ok w.
Definition idle (w : World) : Prop := stable w /\ microtasks w = [].

(** The fields no slideshow function touches. *)
Definition outside (w : World) :=
  (loaded w, connections w, onconnectionavailable w, connectionListResolved w,
   settled w, reactions w, microtasks w, posted w, uncaught w, delivered w).

(** The connections that have an [onmessage] handler, by index, in order. *)
Definition listens (cs : list PresentationConnection) (i : nat) : bool :=
  match cs !! i with
  | Some c => match PresentationConnection.onmessage c with Some _ => true | None => false end
  | None => false
  end.
Definition listening (w : World) : list nat :=
  List.filter (listens (connections w)) (seq 0 (length (connections w))).

(** The body of the [forEach] of the listener. *)
Definition fan_out (e : WindowEvent) (i : nat) : JS unit :=
  bind (gets (fun w => connections w !! i)) (fun connection =>
    match connection with
    | Some connection =>
        match PresentationConnection.onmessage connection with
        | Some f => Polyfill.deliver i f (new_MessageEvent (message_data e))
        | None => ret tt
        end
    | None => ret tt
    end).

(** Whether the [onmessage] handler throws on the data [d], and what. *)
Definition throws (d : AppData) : bool :=
  match d with
  | Unparseable | JsonNull | JsonAddImageNoData => true
  | Json _ | JsonOther => false
  end.

Definition parse_error (d : AppData) : Error :=
  match d with
  | Unparseable => SyntaxError
  | JsonAddImageNoData => TypeError "id"
  | _ => TypeError "action"
  end.

(** The page the handler leaves when it throws on [d]. *)
Definition thrown (d : AppData) (w : World) : World :=
  match d with
  | JsonAddImageNoData => set_imageSequence (imageSequence w + 1) w
  | _ => w
  end.

(** What the handler does on [d] before it broadcasts, when it does not
    throw. *)
Definition acted (d : AppData) : JS unit :=
  match d with
  | Json m => dispatch m
  | _ => ret tt
  end.

(** What one broadcast of the state posts: one message per connection, each
    with the serialised state. *)
Definition post_to (t : Text) (c : PresentationConnection) : Posted :=
  (PresentationConnection.messageSource_ c, PresentationConnection.messageOrigin_ c, t).
Definition broadcast_of (w : World) : list Posted :=
  map (post_to (JSON_stringify (slideshow w))) (connections w).

Definition is_new_connection (t : Task) : bool :=
  match t with
  | WindowMessage e => String.eqb (message_type e) "NEW_CONNECTION"
  | _ => false
  end.

Definition is_app_message (t : Task) : bool :=
  match t with
  | WindowMessage e => String.eqb (message_type e) "APP_MESSAGE"
  | _ => false
  end.

(** The connection the listener makes for the event [e]. *)
Definition connection_of (e : WindowEvent) : PresentationConnection :=
  PresentationConnection.set_messageSource_ (Some (source e))
    (PresentationConnection.set_messageOrigin_ (Some (origin e))
       (PresentationConnection.set_id (Some "") PresentationConnection.new)).

(** [m] keeps [stable] and never throws for a read outside the array. *)
Definition safe {A} (m : JS A) : Prop :=
  forall w, stable w -> stable (snd (m w)) /\ fst (m w) <> Throw (TypeError "url").

(** [m] does not change what [f] reads of the page. *)
Definition keeps {A X} (f : World -> X) (m : JS A) : Prop :=
  forall w, f (snd (m w)) = f w.

(** ** Example values *)

Definition image (u : string) : Image := {| id := None; url := u; others := [] |}.

Definition new_connection_event (from : nat) : WindowEvent :=
  {| message_type := "NEW_CONNECTION"; message_data := JsonNull;
     origin := "https://sender.example"; source := from |}.
Definition new_connection (from : nat) : Task :=
  WindowMessage (new_connection_event from).

Definition app_event (d : AppData) : WindowEvent :=
  {| message_type := "APP_MESSAGE"; message_data := d;
     origin := "https://sender.example"; source := 0%nat |}.
Definition app_message (d : AppData) : Task := WindowMessage (app_event d).

Definition add_image (u : string) : JsonMessage :=
  {| action := "addImage"; data := image u |}.
Definition remove_image (n : Z) : JsonMessage :=
  {| action := "removeImage"; data := n |}.
Definition change_delay (d : Z) : JsonMessage :=
  {| action := "changeDelay"; data := d |}.
Definition change_animation (a : string) : JsonMessage :=
  {| action := "changeAnimation"; data := a |}.
Definition ping : JsonMessage :=
  {| action := "ping"; data := tt |}.

(** The page of receiver.js with one connection and three images, the
    second one on show: the first timeout has expired once. *)
Definition three_images : World :=
  run [RunScript Photowall; new_connection 7;
       app_message (Json (add_image "a.jpg"));
       app_message (Json (add_image "b.jpg"));
       app_message (Json (add_image "c.jpg"));
       Timeout 1] initial.

(** Nothing was posted yet, a receiver script has run, and the only
    callbacks that wait on the promise are the variant's own. *)
Definition quiet (w : World) : Prop :=
  posted w = [] /\ loaded w <> None /\ microtasks w = [] /\
  Forall (fun j => j = Bootstrap CastForEdu) (reactions w).

(** A page with one connection. *)
Definition one_connection : World :=
  run [new_connection 7] initial.

(** ** More of the polyfill: closing and terminating a connection *)

Definition set_state v (c : PresentationConnection) : PresentationConnection :=
  {| PresentationConnection.id := PresentationConnection.id c;
     PresentationConnection.state := v;
     PresentationConnection.onconnect := PresentationConnection.onconnect c;
     PresentationConnection.onclose := PresentationConnection.onclose c;
     PresentationConnection.onterminate := PresentationConnection.onterminate c;
     PresentationConnection.onmessage := PresentationConnection.onmessage c;
     PresentationConnection.messageOrigin_ := PresentationConnection.messageOrigin_ c;
     PresentationConnection.messageSource_ := PresentationConnection.messageSource_ c |}.

(** [PresentationConnection.prototype.close], on the connection at index
    [this] of the list (an index outside the list refers to no object:
    reading its [state] throws).  No script of the repository assigns
    [onclose], so what a handler would do is not known: the result is the
    handler the method calls with [new Event('close', {reason: 'closed'})],
    [None] when it calls none. *)
Definition close (this : nat) : JS EventHandler :=
  let* c := gets (fun w => connections w !! this) in
  match c with
  | None => throw (TypeError "state")
  | Some c =>
      if negb (String.eqb (PresentationConnection.state c) "close") then
        assign (Some this) "state" (set_state "closed") ;;
        ret (PresentationConnection.onclose c)
      else ret None
  end.

(** What a script asks of the browser. *)
Inductive Request := WindowClose.

(** [PresentationConnection.prototype.terminate].  [window.close()] asks the
    browser to close the page, which it does only for a window a script
    opened: the request is the result. *)
Definition terminate (this : nat) : JS Request :=
  let* c := gets (fun w => connections w !! this) in
  match c with
  | None => throw (TypeError "state")
  | Some _ =>
      assign (Some this) "state" (set_state "terminated") ;;
      ret WindowClose
  end.

(** A call of one of the two methods on a connection of the list, by a
    script of the page. *)
Inductive MethodCall :=
| Close (this : nat)
| Terminate (this : nat).

Definition call_method (c : MethodCall) : JS unit :=
  match c with
  | Close this => close this ;; ret tt
  | Terminate this => terminate this ;; ret tt
  end.

(** What happens on the page: a task of the event loop, or a task in which
    a script calls one of the two methods. *)
Inductive Happening :=
| OfTask (t : Task)
| OfCall (c : MethodCall).

Definition happen (w : World) (h : Happening) : World :=
  match h with
  | OfTask t => step w t
  | OfCall c => drain (perform (call_method c) w)
  end.

Definition play (hs : list Happening) (w : World) : World := fold_left happen hs w.

(** ** More vocabulary *)

(** Every image of [l] has an id; the ids are at least [lo], strictly
    increasing along the list, and below [hi]. *)
Fixpoint increasing_from (lo : Z) (l : list Image) (hi : Z) : Prop :=
  match l with
  | [] => lo <= hi
  | x :: l' => exists n, id x = Some n /\ lo <= n /\ increasing_from (n + 1) l' hi
  end.

(** The ids [getImageId] has given: the images of the slideshow carry
    increasing ids, all below the next one. *)
Definition ids_ok (w : World) : Prop :=
  increasing_from 0 (images (slideshow w)) (imageSequence w).

(** What [#slideshow] displays: its last child is the current image; it has
    no child when there is no image. *)
Definition display_ok (w : World) : Prop :=
  match at_index (images (slideshow w)) (currentImageIndex (slideshow w)) with
  | Some current =>
      exists c, last (childNodes w) = Some {| src := url current; className := c |}
  | None => childNodes w = []
  end.

(** The slideshow runs exactly when it has images: one timeout is pending,
    with the current delay, or none. *)
Definition timer_exact (w : World) : Prop :=
  (images (slideshow w) = [] -> timeouts w = []) /\
  (images (slideshow w) <> [] ->
     exists h, timeouts w = [(h, delay (slideshow w))] /\ nextImageTimeout w = Some h).

(** A state as the receiver sends it. *)
Definition state_ok (o : Slideshow) : Prop :=
  index_ok o /\ exists hi, increasing_from 0 (images o) hi.

(** Every message posted so far is the text of such a state. *)
Definition posted_ok (w : World) : Prop :=
  Forall (fun p : Posted => exists o, snd p = JSON_stringify o /\ state_ok o) (posted w).

Definition tidy (w : World) : Prop :=
  ids_ok w /\ display_ok w /\ timer_exact w /\ posted_ok w.

(** [stable], with the above. *)
Definition neat (w : World) : Prop := stable w /\ tidy w.

(** The fields [tidy] reads. *)
Definition inside (w : World) :=
  (slideshow w, imageSequence w, nextImageTimeout w, childNodes w, timeouts w, posted w).

(** [m] keeps the property [I] of the page. *)
Definition guards (I : World -> Prop) {A} (m : JS A) : Prop :=
  forall w, I w -> I (snd (m w)).

(** The receiver's start-up callback has run only on a settled promise, and
    a job is queued only on a settled promise. *)
Definition started (w : World) : Prop :=
  (onconnectionavailable w <> None \/ microtasks w <> []) -> settled w = true.

(** The jobs the scripts create: their own start-up callback, and the
    broadcast of the slideshow object. *)
Definition job_ok (j : Job) : Prop :=
  match j with
  | Broadcast (StringMessage _) => False
  | _ => True
  end.

Definition queue_ok (w : World) : Prop :=
  Forall job_ok (microtasks w) /\ Forall job_ok (reactions w) /\ started w.

(** The fields [queue_ok] reads. *)
Definition queue (w : World) :=
  (onconnectionavailable w, microtasks w, settled w, reactions w).

(** What holds between two functions of the page. *)
Definition sound (w : World) : Prop := neat w /\ queue_ok w.

(** The images [k] calls of [addImage image] append, from the id [n]. *)
Definition copies (image : Image) (n : Z) (k : nat) : list Image :=
  map (fun j => set_id (Some (n + Z.of_nat j)) image) (seq 0 k).

(** A connection once [addConnection] of [script] has registered it. *)
Definition registered (script : Script) (c : PresentationConnection) : PresentationConnection :=
  match script with
  | Photowall => PresentationConnection.set_onmessage (Some Photowall) c
  | CastForEdu =>
      PresentationConnection.set_onmessage (Some CastForEdu)
        (PresentationConnection.set_onconnect (Some CastForEdu) c)
  end.

(** No connection has a handler before the start-up callback of the
    receiver script has run, and that callback is registered by the script
    only. *)
Definition no_handler (c : PresentationConnection) : Prop :=
  PresentationConnection.onmessage c = None /\ PresentationConnection.onconnect c = None.

Definition boot_ok (w : World) : Prop :=
  (loaded w = None -> onconnectionavailable w = None /\ reactions w = []) /\
  (onconnectionavailable w = None -> Forall no_handler (connections w)).

(** The fields [boot_ok] reads, and the microtask queue. *)
Definition boot_fields (w : World) :=
  (loaded w, onconnectionavailable w, connections w, reactions w, microtasks w).

(** The state sent to each connection of [cs], in order. *)
Definition welcome (script : Script) (w : World) (cs : list PresentationConnection) : list Posted :=
  match script with
  | Photowall => map (post_to (JSON_stringify (slideshow w))) cs
  | CastForEdu => []
  end.

(** The connection a task adds to the list, if it adds one. *)
Definition arriving (t : Task) : list PresentationConnection :=
  match t with
  | WindowMessage e =>
      if String.eqb (message_type e) "NEW_CONNECTION" then [connection_of e] else []
  | _ => []
  end.

(** The values [state] takes: the one the constructor gives and the two
    the methods assign. *)
Definition state_known (c : PresentationConnection) : Prop :=
  In (PresentationConnection.state c) ["connected"; "closed"; "terminated"].

Definition states_ok (w : World) : Prop := Forall state_known (connections w).

(** The connection a method is called on, and the state it assigns. *)
Definition method_this (c : MethodCall) : nat :=
  match c with
  | Close this => this
  | Terminate this => this
  end.

Definition method_state (c : MethodCall) : string :=
  match c with
  | Close _ => "closed"
  | Terminate _ => "terminated"
  end.

(** The receiver script has run and waits for the first connection. *)
Definition waiting (script : Script) (w : World) : Prop :=
  loaded w = Some script /\ settled w = false /\ connections w = [] /\
  reactions w = [Bootstrap script] /\ onconnectionavailable w = None /\
  microtasks w = [].

(** The exceptions the page can report: the three of the [onmessage]
    handler, the one of the listener on a message event without data, and
    the one of each script's [onconnectionavailable] callback. *)
Definition expected (e : Error) : Prop :=
  In e [SyntaxError; TypeError "action"; TypeError "id"; TypeError "type";
        TypeError "send"; TypeError "onconnect"].

(** What makes the task [t] report the exception [e]: a message event
    without data; a [NEW_CONNECTION] on which [onconnectionavailable] is
    called; an [APP_MESSAGE] on whose data the handler throws. *)
Definition cause (t : Task) (e : Error) : Prop :=
  match t with
  | EmptyMessage => e = TypeError "type"
  | WindowMessage ev =>
      (message_type ev = "NEW_CONNECTION" /\
       (e = TypeError "send" \/ e = TypeError "onconnect")) \/
      (message_type ev = "APP_MESSAGE" /\ throws (message_data ev) = true /\
       e = parse_error (message_data ev))
  | _ => False
  end.

(** The case of the [switch] the data of a message selects: the one of its
    [action], if it has one of the four. *)
Definition selects (d : AppData) : option SlideshowAction :=
  match d with
  | Json m => switch_case (action m)
  | JsonAddImageNoData => Some ADD_IMAGE
  | Unparseable | JsonNull | JsonOther => None
  end.

(** * Proofs *)

Ltac js_unfold := unfold update_slideshow, when, bind, ret, throw, gets, modify.

Ltac zb := repeat match goal with
 | H : (_ >=? _) = _ |- _ => rewrite Z.geb_leb in H
 | H : (_ >? _) = _ |- _ => rewrite Z.gtb_ltb in H
 | H : (_ <? _) = true |- _ => apply Z.ltb_lt in H
 | H : (_ <? _) = false |- _ => apply Z.ltb_ge in H
 | H : (_ <=? _) = true |- _ => apply Z.leb_le in H
 | H : (_ <=? _) = false |- _ => apply Z.leb_gt in H
 | H : (_ =? _) = true |- _ => apply Z.eqb_eq in H
 | H : (_ =? _) = false |- _ => apply Z.eqb_neq in H
 end.

Lemma at_index_Some {A} (a : list A) i : 0 <= i < len a -> exists x, at_index a i = Some x.
Proof.
  unfold at_index, len. intros H.
  destruct (i <? 0) eqn:E; [lia|].
  apply lookup_lt_is_Some. lia.
Qed.

Lemma len_nil_iff {A} (a : list A) : len a = 0 <-> a = [].
Proof. unfold len. destruct a; simpl; split; intros; try congruence; lia. Qed.

Lemma len_nonneg {A} (a : list A) : 0 <= len a.
Proof. unfold len. lia. Qed.

Lemma wrap_range s i : 0 <= i -> images s <> [] -> 0 <= wrap s i < len (images s).
Proof.
  unfold wrap. intros H Hne. rewrite <- len_nil_iff in Hne.
  pose proof (len_nonneg (images s)).
  destruct (_ >=? _) eqn:E; zb; lia.
Qed.

Lemma preloadNextImage_eq w :
  -1 <= currentImageIndex (slideshow w) ->
  preloadNextImage w = (Normal tt, set_preloaded (preloaded w ++ preload_of (slideshow w)) w).
Proof.
  intros H. unfold preloadNextImage, preload_of. js_unfold.
  fold (wrap (slideshow w) (currentImageIndex (slideshow w) + 1)).
  destruct (len (images (slideshow w)) >? 1) eqn:E1.
  - destruct (at_index_Some (images (slideshow w))
       (wrap (slideshow w) (currentImageIndex (slideshow w) + 1))) as [x Hx].
    { apply wrap_range; [lia|]. intros E; rewrite E in E1; discriminate. }
    rewrite Hx. reflexivity.
  - rewrite app_nil_r. destruct w; reflexivity.
Qed.

Lemma clear_eq w :
  when (truthy (nextImageTimeout w)) (clearTimeout (nextImageTimeout w)) w
  = (Normal tt, set_timeouts (cleared w) w).
Proof.
  unfold when, cleared, clearTimeout, modify, ret.
  destruct (truthy _); [destruct (nextImageTimeout w)|]; try reflexivity;
    destruct w; reflexivity.
Qed.

Ltac proj := cbn [slideshow imageSequence nextImageTimeout loaded connections onconnectionavailable connectionListResolved settled reactions childNodes preloaded timeouts nextHandle microtasks posted uncaught delivered set_slideshow set_imageSequence set_nextImageTimeout set_loaded set_connections set_onconnectionavailable set_connectionListResolved set_settled set_reactions set_childNodes set_preloaded set_timeouts set_nextHandle set_microtasks set_posted set_uncaught set_delivered images delay animation currentImageIndex set_images set_delay set_animation set_currentImageIndex id url others set_id fst snd] in *.

Lemma showNextImage_eq w :
  -1 <= currentImageIndex (slideshow w) ->
  showNextImage w = (Normal tt, shown w).
Proof.
  intros H. unfold showNextImage. unfold bind at 1. unfold gets at 1.
  unfold bind at 1. rewrite clear_eq.
  unfold shown, setTimeout. js_unfold. proj.
  set (s := slideshow w) in *. unfold wrap.
  destruct (currentImageIndex s + 1 >=? len (images s)) eqn:E1; proj;
    (destruct (len (images s) =? 0) eqn:E2; [reflexivity|]);
    (destruct (at_index (images s) _) eqn:E3;
      [ rewrite preloadNextImage_eq by (proj; lia); reflexivity | zb ]).
  - destruct (at_index_Some (images s) 0) as [x Hx]; [pose proof (len_nonneg (images s)); lia|congruence].
  - destruct (at_index_Some (images s) (currentImageIndex s + 1)) as [x Hx]; [lia|congruence].
Qed.

Lemma index_ok_shown w :
  -1 <= currentImageIndex (slideshow w) -> index_ok (slideshow (shown w)).
Proof.
  intros H. unfold shown.
  assert (Hs : index_ok (set_currentImageIndex (wrap (slideshow w) (currentImageIndex (slideshow w) + 1)) (slideshow w))).
  { unfold index_ok, wrap; proj. pose proof (len_nonneg (images (slideshow w))).
    destruct (_ >=? _) eqn:E; zb; repeat split; intros; try lia.
    rewrite <- len_nil_iff in *. lia. rewrite <- len_nil_iff in *. lia. }
  destruct (len _ =? 0); [exact Hs|]. destruct (at_index _ _); exact Hs.
Qed.

Lemma addImage_eq image w :
  index_ok (slideshow w) -> addImage image w = (Normal tt, added image w).
Proof.
  intros [H0 _]. unfold addImage, added, getImageId. js_unfold. proj.
  destruct (_ =? len _) eqn:E1.
  - rewrite preloadNextImage_eq by (proj; lia). proj.
    destruct (len _ =? 1) eqn:E2; [|reflexivity].
    rewrite showNextImage_eq by (proj; lia). reflexivity.
  - destruct (len _ =? 1) eqn:E2; [|reflexivity].
    rewrite showNextImage_eq by (proj; lia). reflexivity.
Qed.

Lemma changeDelay_eq d w :
  index_ok (slideshow w) -> changeDelay d w = (Normal tt, delayed d w).
Proof.
  intros [H0 _]. unfold changeDelay, delayed, decremented. js_unfold. proj.
  rewrite showNextImage_eq by (proj; lia). reflexivity.
Qed.

(** ** [removeImage] *)

Lemma find_first_index {A} (p : A -> bool) (a : list A) x :
  List.find p a = Some x ->
  exists i, a !! i = Some x /\ p x = true /\
            forall j y, (j < i)%nat -> a !! j = Some y -> p y = false.
Proof.
  induction a as [|z a IH]; simpl; [discriminate|].
  destruct (p z) eqn:E.
  - intros [= ->]. exists O. repeat split; auto. intros j y Hj. lia.
  - intros H. destruct (IH H) as (i & Hx & Hp & Hbefore).
    exists (S i). repeat split; auto.
    intros [|j] y Hj; simpl.
    + intros [= <-]. exact E.
    + apply Hbefore. lia.
Qed.

Lemma indexOf_first (a : list Image) x i :
  a !! i = Some x ->
  (forall j y, (j < i)%nat -> a !! j = Some y -> y <> x) ->
  indexOf x a = Z.of_nat i.
Proof.
  revert i. induction a as [|z a IH]; intros i; simpl; [discriminate|].
  destruct i as [|i]; simpl.
  - intros [= ->] _. destruct (Image_eq_dec x x); [reflexivity|congruence].
  - intros Hx Hbefore.
    destruct (Image_eq_dec z x) as [->|_].
    + exfalso. apply (Hbefore O x); [lia|reflexivity|reflexivity].
    + rewrite (IH i Hx).
      * destruct (Z.of_nat i <? 0) eqn:E; zb; lia.
      * intros j y Hj Hy. apply (Hbefore (S j) y); [lia|exact Hy].
Qed.

Lemma find_indexOf n (a : list Image) x :
  List.find (fun image => id_equals image n) a = Some x ->
  exists i, a !! i = Some x /\ indexOf x a = Z.of_nat i.
Proof.
  intros H. destruct (find_first_index _ _ _ H) as (i & Hx & Hp & Hbefore).
  exists i. repeat split; auto. apply indexOf_first; auto.
  intros j y Hj Hy ->. rewrite (Hbefore j x Hj Hy) in Hp. discriminate.
Qed.

Lemma splice1_delete {A} (a : list A) (i : nat) :
  (i < length a)%nat -> splice1 (Z.of_nat i) a = delete i a.
Proof.
  intros H. unfold splice1, len.
  destruct (Z.of_nat i <? 0) eqn:E; zb; [lia|].
  rewrite Z.min_l by lia. rewrite Nat2Z.id. reflexivity.
Qed.

Lemma len_delete {A} (a : list A) (i : nat) :
  (i < length a)%nat -> len (delete i a) = len a - 1.
Proof. intros H. unfold len. rewrite length_delete by (apply lookup_lt_is_Some; lia). lia. Qed.

Lemma removeImage_eq n w :
  index_ok (slideshow w) ->
  removeImage n w =
  match List.find (fun image => id_equals image n) (images (slideshow w)) with
  | None => (Normal false, w)
  | Some image => (Normal true, removed (indexOf image (images (slideshow w))) w)
  end.
Proof.
  intros [H0 _]. unfold removeImage. unfold bind at 1, gets at 1.
  destruct (List.find _ _) as [image|] eqn:Hfind; [|reflexivity].
  destruct (find_indexOf _ _ _ Hfind) as (i & _ & Hi). rewrite Hi.
  unfold removed, decremented. js_unfold. proj.
  set (s := slideshow w) in *.
  destruct (Z.of_nat i <? currentImageIndex s) eqn:E1; proj.
  - destruct (Z.of_nat i =? currentImageIndex s - 1) eqn:E2; proj; [|reflexivity].
    rewrite showNextImage_eq by (proj; zb; lia). reflexivity.
  - destruct (Z.of_nat i =? currentImageIndex s) eqn:E2; proj; [|reflexivity].
    rewrite showNextImage_eq by (proj; zb; lia). reflexivity.
Qed.

(** ** The slideshow functions keep the invariants *)

Lemma images_shown w : images (slideshow (shown w)) = images (slideshow w).
Proof.
  unfold shown. destruct (len _ =? 0); [reflexivity|].
  destruct (at_index _ _); reflexivity.
Qed.

Lemma currentImageIndex_shown w :
  currentImageIndex (slideshow (shown w)) =
  wrap (slideshow w) (currentImageIndex (slideshow w) + 1).
Proof.
  unfold shown. destruct (len _ =? 0); [reflexivity|].
  destruct (at_index _ _); reflexivity.
Qed.

Lemma outside_shown w : outside (shown w) = outside w.
Proof.
  unfold shown. destruct (len _ =? 0); [reflexivity|].
  destruct (at_index _ _); reflexivity.
Qed.

Lemma outside_fields w w' :
  outside w' = outside w ->
  loaded w' = loaded w /\ connections w' = connections w /\
  onconnectionavailable w' = onconnectionavailable w /\
  connectionListResolved w' = connectionListResolved w /\
  settled w' = settled w /\ reactions w' = reactions w /\
  microtasks w' = microtasks w /\ posted w' = posted w /\
  uncaught w' = uncaught w /\ delivered w' = delivered w.
Proof. unfold outside. intros [= ? ? ? ? ? ? ? ? ? ?]. repeat split; assumption. Qed.

Lemma promise_ok_outside w w' : outside w' = outside w -> promise_ok w -> promise_ok w'.
Proof.
  unfold outside, promise_ok. intros [= ? Hc ? Hr Hs Hre _ _ _ _].
  rewrite Hc, Hr, Hs, Hre. auto.
Qed.

Lemma reads_ok_outside w w' : outside w' = outside w -> reads_ok w -> reads_ok w'.
Proof. unfold outside, reads_ok. intros [= _ _ _ _ _ _ _ _ Hu _]. rewrite Hu. auto. Qed.

Lemma cleared_nil w : timers_ok w -> cleared w = [].
Proof.
  intros (Hn & Hh & [Ht | (h & d & Ht & Hi)]); unfold cleared.
  - rewrite Ht. destruct (truthy _); [destruct (nextImageTimeout w)|]; reflexivity.
  - rewrite Hi, Ht. specialize (Hh h Hi). unfold truthy.
    destruct (h =? 0) eqn:E; zb; [lia|]. simpl.
    rewrite Z.eqb_refl. reflexivity.
Qed.

Lemma timers_ok_shown w : timers_ok w -> timers_ok (shown w).
Proof.
  intros H. pose proof (cleared_nil w H) as Hc. destruct H as (Hn & Hh & Ht).
  unfold shown. rewrite Hc.
  destruct (len _ =? 0); [|destruct (at_index _ _)]; unfold timers_ok; proj.
  - auto.
  - split; [lia|]. split.
    + intros h [= <-]. lia.
    + right. eauto.
  - auto.
Qed.

Lemma rest_ok_shown w : rest_ok w -> rest_ok (shown w).
Proof.
  intros (Ht & Hp & Hr). split; [|split].
  - apply timers_ok_shown, Ht.
  - apply (promise_ok_outside w); [apply outside_shown|exact Hp].
  - apply (reads_ok_outside w); [apply outside_shown|exact Hr].
Qed.

Lemma rest_ok_added image w : rest_ok w -> rest_ok (added image w).
Proof.
  intros H. unfold added. proj.
  destruct (_ =? len _); (destruct (len _ =? 1); [apply rest_ok_shown|]); exact H.
Qed.

Lemma rest_ok_removed i w : rest_ok w -> rest_ok (removed i w).
Proof.
  intros H. unfold removed, decremented. proj.
  destruct (i <? _); proj; (destruct (i =? _); [apply rest_ok_shown|]); exact H.
Qed.

Lemma rest_ok_delayed d w : rest_ok w -> rest_ok (delayed d w).
Proof. intros H. unfold delayed. apply rest_ok_shown. exact H. Qed.

Lemma index_ok_added image w :
  index_ok (slideshow w) -> index_ok (slideshow (added image w)).
Proof.
  intros (H0 & H1 & H2). unfold added. proj.
  set (s := slideshow w) in *.
  assert (Hlen : len (images s ++ [set_id (Some (imageSequence w)) image]) = len (images s) + 1).
  { unfold len. rewrite length_app. simpl. lia. }
  rewrite Hlen.
  assert (Hk : index_ok (set_images (images s ++ [set_id (Some (imageSequence w)) image]) s)
               \/ len (images s) + 1 = 1).
  { destruct (len (images s) =? 0) eqn:E; zb; [right; lia|left].
    unfold index_ok; proj. rewrite <- !len_nil_iff in *. rewrite Hlen.
    pose proof (len_nonneg (images s)). repeat split; intros; lia. }
  destruct (_ =? len (images s) + 1);
    (destruct (len (images s) + 1 =? 1) eqn:E1;
     [ apply index_ok_shown; proj; lia
     | destruct Hk as [Hk|Hk]; [exact Hk | zb; lia] ]).
Qed.

Lemma index_ok_delayed d w :
  index_ok (slideshow w) -> index_ok (slideshow (delayed d w)).
Proof.
  intros (H0 & _). unfold delayed, decremented. apply index_ok_shown. proj. lia.
Qed.

Lemma removed_slideshow (i : nat) w :
  index_ok (slideshow w) -> (i < length (images (slideshow w)))%nat ->
  images (slideshow (removed (Z.of_nat i) w)) = delete i (images (slideshow w)) /\
  currentImageIndex (slideshow (removed (Z.of_nat i) w)) =
    index_after_removal (Z.of_nat i) (currentImageIndex (slideshow w))
      (len (images (slideshow w))).
Proof.
  intros (H0 & H1 & H2) Hi. unfold removed, decremented, index_after_removal. proj.
  set (s := slideshow w) in *.
  rewrite (splice1_delete _ _ Hi).
  assert (Hne : images s <> []) by (intros E; rewrite E in Hi; simpl in Hi; lia).
  specialize (H1 Hne).
  pose proof (len_delete (images s) i Hi) as Hl.
  destruct (Z.of_nat i <? currentImageIndex s) eqn:E1; proj.
  - destruct (Z.of_nat i =? currentImageIndex s - 1) eqn:E2; proj; [|auto].
    rewrite images_shown, currentImageIndex_shown. proj. split; [reflexivity|].
    unfold wrap; proj. rewrite Hl.
    destruct (_ >=? _) eqn:E3; zb; lia.
  - destruct (Z.of_nat i =? currentImageIndex s) eqn:E2; proj; [|auto].
    rewrite images_shown, currentImageIndex_shown. proj. split; [reflexivity|].
    unfold wrap; proj. rewrite Hl.
    replace (currentImageIndex s - 1 + 1) with (currentImageIndex s) by lia.
    reflexivity.
Qed.

Lemma index_ok_removed (i : nat) w :
  index_ok (slideshow w) -> (i < length (images (slideshow w)))%nat ->
  index_ok (slideshow (removed (Z.of_nat i) w)).
Proof.
  intros H Hi. destruct (removed_slideshow i w H Hi) as [Him Hcur].
  destruct H as (H0 & H1 & H2).
  assert (Hne : images (slideshow w) <> []) by (intros E; rewrite E in Hi; simpl in Hi; lia).
  specialize (H1 Hne).
  pose proof (len_delete (images (slideshow w)) i Hi) as Hl.
  unfold index_ok. rewrite Hcur, Him. unfold index_after_removal.
  rewrite <- !len_nil_iff. rewrite Hl.
  destruct (Z.of_nat i <? _) eqn:E1; [|destruct (Z.of_nat i =? _) eqn:E2; [destruct (_ >=? _) eqn:E3|]];
    zb; unfold len in *; repeat split; intros; lia.
Qed.

(** ** Every function of the page keeps [stable] *)

Lemma safe_ret {A} (a : A) : safe (ret a).
Proof. intros w H. split; [exact H|discriminate]. Qed.

Lemma safe_gets {A} (f : World -> A) : safe (gets f).
Proof. intros w H. split; [exact H|discriminate]. Qed.

Lemma safe_throw {A} e : e <> TypeError "url" -> safe (@throw A e).
Proof. intros He w H. split; [exact H|]. simpl. congruence. Qed.

Lemma safe_modify f : (forall w, stable w -> stable (f w)) -> safe (modify f).
Proof. intros Hf w H. split; [apply Hf, H|discriminate]. Qed.

Lemma safe_bind {A B} (m : JS A) (k : A -> JS B) :
  safe m -> (forall a, safe (k a)) -> safe (bind m k).
Proof.
  intros Hm Hk w H. unfold bind. destruct (Hm w H) as [Hs Hc].
  destruct (m w) as [[a|e] w']; simpl in *.
  - apply Hk, Hs.
  - split; [exact Hs|]. intros [= ->]. apply Hc. reflexivity.
Qed.

Lemma safe_when c m : safe m -> safe (when c m).
Proof. intros H. destruct c; [exact H|apply safe_ret]. Qed.

Lemma safe_forIndexes n i body : (forall j, safe (body j)) -> safe (forIndexes n i body).
Proof.
  intros Hb. revert i. induction n as [|n IH]; intros i; simpl.
  - apply safe_ret.
  - apply safe_bind; [apply Hb|intros _; apply IH].
Qed.

Lemma safe_eq {A} (m : JS A) (f : World -> A * World) :
  (forall w, stable w -> m w = (Normal (fst (f w)), snd (f w)) /\ stable (snd (f w))) ->
  safe m.
Proof. intros H w Hw. destruct (H w Hw) as [-> Hs]. split; [exact Hs|discriminate]. Qed.

Lemma safe_addImage image : safe (addImage image).
Proof.
  apply (safe_eq _ (fun w => (tt, added image w))). intros w [Hi Hr]. split.
  - apply addImage_eq, Hi.
  - split; [apply index_ok_added, Hi|apply rest_ok_added, Hr].
Qed.

Lemma safe_changeDelay d : safe (changeDelay d).
Proof.
  apply (safe_eq _ (fun w => (tt, delayed d w))). intros w [Hi Hr]. split.
  - apply changeDelay_eq, Hi.
  - split; [apply index_ok_delayed, Hi|apply rest_ok_delayed, Hr].
Qed.

Lemma safe_changeAnimation a : safe (changeAnimation a).
Proof. apply safe_modify. intros w H. exact H. Qed.

Lemma safe_removeImage n : safe (removeImage n).
Proof.
  intros w [Hi Hr]. rewrite (removeImage_eq n w Hi).
  destruct (List.find _ _) as [image|] eqn:Hfind; simpl.
  - destruct (find_indexOf _ _ _ Hfind) as (i & Hx & ->).
    assert (Hlt : (i < length (images (slideshow w)))%nat)
      by (apply lookup_lt_is_Some; eauto).
    split; [|discriminate].
    split; [apply index_ok_removed; auto|apply rest_ok_removed, Hr].
  - split; [split; assumption|discriminate].
Qed.

Lemma safe_dispatch m : safe (dispatch m).
Proof.
  destruct m as [a d]. unfold dispatch. simpl. revert d.
  destruct (switch_case a) as [[]|]; intros d; simpl.
  - apply safe_addImage.
  - apply safe_bind; [apply safe_removeImage|intros _; apply safe_ret].
  - apply safe_changeDelay.
  - apply safe_changeAnimation.
  - apply safe_ret.
Qed.

Lemma safe_showNextImage : safe showNextImage.
Proof.
  apply (safe_eq _ (fun w => (tt, shown w))). intros w [Hi Hr]. split.
  - apply showNextImage_eq. destruct Hi as [H0 _]. lia.
  - split; [apply index_ok_shown; destruct Hi as [H0 _]; lia|apply rest_ok_shown, Hr].
Qed.

Lemma safe_then_ job : safe (then_ job).
Proof.
  apply safe_modify. intros w (Hi & Ht & (Hp1 & Hp2 & Hp3 & Hp4) & Hr).
  destruct (settled w) eqn:E; (split; [exact Hi|]); (split; [exact Ht|]);
    (split; [|exact Hr]); unfold promise_ok; proj; rewrite E; repeat split; auto.
  discriminate.
Qed.

Lemma safe_send this message : safe (send this message).
Proof.
  unfold send. apply safe_bind; [apply safe_gets|]. intros [c|].
  - destruct (PresentationConnection.messageSource_ c).
    + apply safe_modify. intros w H. exact H.
    + apply safe_throw. discriminate.
  - apply safe_throw. discriminate.
Qed.

Lemma safe_sendMessage connection message : safe (sendMessage connection message).
Proof.
  unfold sendMessage. apply safe_bind; [|intros; apply safe_send].
  destruct message; [apply safe_ret|].
  apply safe_bind; [apply safe_gets|intros; apply safe_ret].
Qed.

Lemma safe_assign connection property f :
  property <> "url" ->
  (forall c, PresentationConnection.messageSource_ (f c) = PresentationConnection.messageSource_ c) ->
  safe (assign connection property f).
Proof.
  intros Hne Hf. destruct connection as [i|]; simpl.
  - apply safe_modify. intros w (Hi & Ht & (Hp1 & Hp2 & Hp3 & Hp4) & Hr).
    split; [exact Hi|]. split; [exact Ht|]. split; [|exact Hr].
    unfold promise_ok; proj. repeat split; auto.
    + intros E. rewrite (Hp3 E). reflexivity.
    + apply Forall_alter; [exact Hp4|]. intros c _ Hc. rewrite Hf. exact Hc.
  - apply safe_throw. congruence.
Qed.

Lemma safe_JSON_parse d : safe (JSON_parse d).
Proof. destruct d; try apply safe_ret. apply safe_throw; discriminate. Qed.

Lemma safe_addImage_undefined : safe addImage_undefined.
Proof.
  intros w Hs. unfold addImage_undefined, getImageId. js_unfold. simpl.
  split; [exact Hs|discriminate].
Qed.

Lemma safe_switch v : safe (switch v).
Proof.
  destruct v as [|m| |]; simpl.
  - apply safe_throw. discriminate.
  - apply safe_dispatch.
  - apply safe_addImage_undefined.
  - apply safe_ret.
Qed.

Lemma onmessage_same : ReceiverEdu.onmessage = Receiver.onmessage.
Proof. reflexivity. Qed.

Lemma safe_call_onmessage f e : safe (call_onmessage f e).
Proof.
  assert (H : safe (Receiver.onmessage e)).
  { destruct e as [d]. unfold Receiver.onmessage.
    apply safe_bind; [apply safe_JSON_parse|]. intros v.
    apply safe_bind; [apply safe_switch|intros _; apply safe_then_]. }
  destruct f; [exact H|rewrite <- onmessage_same in H; exact H].
Qed.

Lemma safe_addConnection script connection :
  safe (match script with
        | Photowall => Receiver.addConnection connection
        | CastForEdu => ReceiverEdu.addConnection connection
        end).
Proof.
  destruct script.
  - apply safe_bind; [apply safe_sendMessage|intros _].
    apply safe_assign; [discriminate|reflexivity].
  - apply safe_bind; [|intros _]; apply safe_assign; try discriminate; reflexivity.
Qed.

Lemma safe_call_onconnectionavailable f a : safe (call_onconnectionavailable f a).
Proof. destruct f; [apply (safe_addConnection Photowall)|apply (safe_addConnection CastForEdu)]. Qed.

Lemma safe_broadcast_callback message : safe (broadcast_callback message).
Proof.
  apply safe_bind; [apply safe_gets|intros n].
  apply safe_forIndexes. intros j. apply safe_sendMessage.
Qed.

Lemma safe_run_job j : safe (run_job j).
Proof.
  destruct j as [[]|message]; simpl.
  - apply safe_bind; [apply safe_gets|intros n].
    apply safe_bind; [|intros _; apply safe_modify; intros w H; exact H].
    apply safe_forIndexes. intros j. apply (safe_addConnection Photowall).
  - apply safe_bind; [apply safe_gets|intros n].
    apply safe_bind; [|intros _; apply safe_modify; intros w H; exact H].
    apply safe_forIndexes. intros j. apply (safe_addConnection CastForEdu).
  - apply safe_broadcast_callback.
Qed.

(** *** The listener *)

Lemma call_onconnectionavailable_throws f i w :
  call_onconnectionavailable f (AConnection i) w =
  (Throw (TypeError (match f with Photowall => "send" | CastForEdu => "onconnect" end)), w).
Proof. destruct f; reflexivity. Qed.

Lemma listener_new_connection e w :
  message_type e = "NEW_CONNECTION" ->
  Polyfill.listener e w =
  let w1 := set_connections (connections w ++ [connection_of e]) w in
  if connectionListResolved w then
    match onconnectionavailable w with
    | Some f => call_onconnectionavailable f (AConnection (length (connections w))) w1
    | None => (Normal tt, w1)
    end
  else resolve (set_connectionListResolved true w1).
Proof.
  intros E. unfold Polyfill.listener. rewrite E, String.eqb_refl.
  js_unfold. proj. fold (connection_of e).
  destruct (connectionListResolved w); simpl; [|reflexivity].
  destruct (onconnectionavailable w); reflexivity.
Qed.

Lemma stable_pushed e w :
  stable w -> settled w = true ->
  stable (set_connections (connections w ++ [connection_of e]) w).
Proof.
  intros (Hi & Ht & (Hp1 & Hp2 & Hp3 & Hp4) & Hr) Hs.
  split; [exact Hi|]. split; [exact Ht|]. split; [|exact Hr].
  unfold promise_ok; proj. repeat split; auto.
  - rewrite Hs. discriminate.
  - apply Forall_app. split; [exact Hp4|]. constructor; [discriminate|constructor].
Qed.

Lemma safe_listener e : safe (Polyfill.listener e).
Proof.
  destruct (String.eqb (message_type e) "NEW_CONNECTION") eqn:E.
  - apply String.eqb_eq in E. intros w H.
    rewrite (listener_new_connection e w E). cbv zeta.
    pose proof H as (Hi & Ht & (Hp1 & Hp2 & Hp3 & Hp4) & Hr).
    destruct (connectionListResolved w) eqn:Hflag.
    + assert (Hst : stable (set_connections (connections w ++ [connection_of e]) w)).
      { apply stable_pushed; [exact H|congruence]. }
      destruct (onconnectionavailable w) as [f|].
      * apply safe_call_onconnectionavailable, Hst.
      * split; [exact Hst|discriminate].
    + unfold resolve, modify; proj. rewrite Hp1. simpl. split; [|discriminate].
      split; [exact Hi|]. split; [exact Ht|]. split; [|exact Hr].
      unfold promise_ok; proj. repeat split; auto; try discriminate.
      rewrite (Hp3 Hp1). constructor; [discriminate|constructor].
  - unfold Polyfill.listener. rewrite E.
    destruct (String.eqb (message_type e) "APP_MESSAGE"); [|apply safe_ret].
    apply safe_bind; [apply safe_gets|intros n].
    apply safe_forIndexes. intros j.
    apply safe_bind; [apply safe_gets|intros [c|]]; [|apply safe_ret].
    destruct (PresentationConnection.onmessage c) as [f|]; [|apply safe_ret].
    apply safe_bind; [apply safe_modify; intros w H; exact H|intros _].
    apply safe_call_onmessage.
Qed.

Lemma timers_ok_expired h w :
  timers_ok w ->
  timers_ok (set_timeouts (List.filter (fun p => negb (fst p =? h)) (timeouts w)) w).
Proof.
  intros (Hn & Hh & Ht). unfold timers_ok; proj.
  split; [exact Hn|]. split; [exact Hh|].
  destruct Ht as [->|(h' & d & -> & Hi)]; [left; reflexivity|].
  simpl. destruct (h' =? h); simpl; [left; reflexivity|right; eauto].
Qed.

Lemma safe_callback t : safe (callback t).
Proof.
  destruct t as [script|e|h| |]; simpl.
  - apply safe_bind; [apply safe_gets|intros [l|]]; [apply safe_ret|].
    apply safe_bind; [apply safe_modify; intros w H; exact H|intros _].
    destruct script; apply safe_then_.
  - apply safe_listener.
  - apply safe_bind; [apply safe_gets|intros pending]. apply safe_when.
    apply safe_bind; [|intros _; apply safe_showNextImage].
    apply safe_modify. intros w (Hi & Ht & Hp & Hr).
    split; [exact Hi|]. split; [apply timers_ok_expired, Ht|]. split; assumption.
  - apply safe_modify. intros w H. exact H.  - apply safe_throw. discriminate.
Qed.

(** *** Tasks and runs *)

Lemma stable_perform m w : safe m -> stable w -> stable (perform m w).
Proof.
  intros Hm H. unfold perform. destruct (Hm w H) as [Hs Hc].
  destruct (m w) as [[[]|e] w']; simpl in *; [exact Hs|].
  destruct Hs as (Hi & Ht & Hp & Hr).
  split; [exact Hi|]. split; [exact Ht|]. split; [exact Hp|].
  unfold reads_ok in *; proj. rewrite in_app_iff. intros [Hin|[->|[]]]; [auto|].
  apply Hc. reflexivity.
Qed.

(** ** What a computation leaves alone *)

Lemma keeps_ret {A X} (f : World -> X) (a : A) : keeps f (ret a).
Proof. intros w. reflexivity. Qed.

Lemma keeps_gets {A X} (f : World -> X) (g : World -> A) : keeps f (gets g).
Proof. intros w. reflexivity. Qed.

Lemma keeps_throw {A X} (f : World -> X) e : keeps f (@throw A e).
Proof. intros w. reflexivity. Qed.

Lemma keeps_modify {X} (f : World -> X) g : (forall w, f (g w) = f w) -> keeps f (modify g).
Proof. intros H w. apply H. Qed.

Lemma keeps_bind {A B X} (f : World -> X) (m : JS A) (k : A -> JS B) :
  keeps f m -> (forall a, keeps f (k a)) -> keeps f (bind m k).
Proof.
  intros Hm Hk w. unfold bind. specialize (Hm w).
  destruct (m w) as [[a|e] w']; simpl in *; [rewrite Hk|]; exact Hm.
Qed.

Lemma keeps_when {X} (f : World -> X) c m : keeps f m -> keeps f (when c m).
Proof. intros H. destruct c; [exact H|apply keeps_ret]. Qed.

Lemma keeps_forIndexes {X} (f : World -> X) n i body :
  (forall j, keeps f (body j)) -> keeps f (forIndexes n i body).
Proof.
  intros Hb. revert i. induction n as [|n IH]; intros i; simpl.
  - apply keeps_ret.
  - apply keeps_bind; [apply Hb|intros _; apply IH].
Qed.

Ltac keeps_tac :=
  repeat match goal with
    | |- keeps _ (ret _) => apply keeps_ret
    | |- keeps _ (gets _) => apply keeps_gets
    | |- keeps _ (throw _) => apply keeps_throw
    | |- keeps _ (forIndexes _ _ _) => apply keeps_forIndexes; intros ?
    | |- keeps _ (when _ _) => apply keeps_when
    | |- keeps _ (bind _ _) => apply keeps_bind; [|intros ?]
    | |- keeps _ (modify _) => apply keeps_modify; intros ?; try reflexivity
    | |- keeps _ (match ?x with _ => _ end) => destruct x
    end.

Lemma keeps_send {X} (f : World -> X) this message :
  (forall v w, f (set_posted v w) = f w) -> keeps f (send this message).
Proof. intros H. unfold send. keeps_tac. apply H. Qed.

Lemma keeps_sendMessage {X} (f : World -> X) connection message :
  (forall v w, f (set_posted v w) = f w) -> keeps f (sendMessage connection message).
Proof.
  intros H. unfold sendMessage. apply keeps_bind; [|intros; apply keeps_send, H].
  keeps_tac.
Qed.

Lemma keeps_assign {X} (f : World -> X) connection property g :
  (forall v w, f (set_connections v w) = f w) -> keeps f (assign connection property g).
Proof. intros H. unfold assign. keeps_tac. apply H. Qed.

Lemma keeps_run_job_microtasks j : keeps microtasks (run_job j).
Proof.
  destruct j as [[]|message]; simpl;
    unfold Receiver.bootstrap, ReceiverEdu.bootstrap, broadcast_callback,
      Receiver.addConnection, ReceiverEdu.addConnection;
    keeps_tac; first [apply keeps_sendMessage | apply keeps_assign]; reflexivity.
Qed.

(** ** Tasks and runs *)

Lemma microtasks_perform m w :
  keeps microtasks m -> microtasks (perform m w) = microtasks w.
Proof.
  intros H. unfold perform. specialize (H w).
  destruct (m w) as [[[]|e] w']; simpl in *; exact H.
Qed.

Lemma idle_jobs js w :
  idle w -> idle (fold_left (fun w j => perform (run_job j) w) js w).
Proof.
  revert w. induction js as [|j js IH]; intros w H; simpl; [exact H|].
  apply IH. destruct H as [Hs Hm]. split.
  - apply stable_perform; [apply safe_run_job|exact Hs].
  - rewrite microtasks_perform; [exact Hm|apply keeps_run_job_microtasks].
Qed.

Lemma idle_drain w : stable w -> idle (drain w).
Proof.
  intros H. unfold drain. apply idle_jobs. split; [exact H|reflexivity].
Qed.

Lemma idle_step w t : idle w -> idle (step w t).
Proof.
  intros [Hs _]. unfold step. apply idle_drain.
  apply stable_perform; [apply safe_callback|exact Hs].
Qed.

Lemma idle_initial : idle initial.
Proof.
  split; [|reflexivity]. unfold stable, index_ok, rest_ok, timers_ok, promise_ok, reads_ok.
  simpl. repeat split; try lia; try congruence; auto.
Qed.

Lemma run_app ts1 ts2 w : run (ts1 ++ ts2) w = run ts2 (run ts1 w).
Proof. unfold run. apply fold_left_app. Qed.

Lemma idle_run ts w : idle w -> idle (run ts w).
Proof.
  revert w. induction ts as [|t ts IH]; intros w H; simpl; [exact H|].
  apply IH, idle_step, H.
Qed.

(** ** [showNextImage]: the loop of the slideshow *)

Lemma keeps_preloadNextImage {X} (f : World -> X) :
  (forall v w, f (set_preloaded v w) = f w) -> keeps f preloadNextImage.
Proof. intros H. unfold preloadNextImage. keeps_tac. apply H. Qed.

Lemma slideshow_showNextImage w :
  slideshow (snd (showNextImage w)) =
  set_currentImageIndex (wrap (slideshow w) (currentImageIndex (slideshow w) + 1)) (slideshow w).
Proof.
  unfold showNextImage. unfold bind at 1. unfold gets at 1.
  unfold bind at 1. rewrite clear_eq.
  unfold setTimeout, wrap. js_unfold. proj.
  set (s := slideshow w) in *.
  destruct (currentImageIndex s + 1 >=? len (images s)) eqn:E1; proj;
    (destruct (len (images s) =? 0) eqn:E2; [reflexivity|]);
    (destruct (at_index (images s) _) eqn:E3; [|reflexivity]);
    match goal with
    | |- context [preloadNextImage ?w0] =>
        pose proof (keeps_preloadNextImage slideshow (fun _ _ => eq_refl) w0) as Hk;
        destruct (preloadNextImage w0) as [[[]|err] w1]; simpl in Hk |- *; rewrite Hk; reflexivity
    end.
Qed.

Lemma wrap_mod s i :
  images s <> [] -> 0 <= i <= len (images s) -> wrap s i = i mod len (images s).
Proof.
  intros Hne Hi. rewrite <- len_nil_iff in Hne. unfold wrap.
  destruct (i >=? len (images s)) eqn:E; zb.
  - replace i with (len (images s)) by lia. rewrite Z.mod_same by lia. reflexivity.
  - rewrite Z.mod_small by lia. reflexivity.
Qed.

Lemma showNextImage_times_spec n : forall w,
  index_ok (slideshow w) -> images (slideshow w) <> [] ->
  images (slideshow (showNextImage_times n w)) = images (slideshow w) /\
  currentImageIndex (slideshow (showNextImage_times n w)) =
    (currentImageIndex (slideshow w) + Z.of_nat n) mod len (images (slideshow w)).
Proof.
  induction n as [|n IH]; intros w Hi Hne.
  - simpl. split; [reflexivity|]. destruct Hi as (H0 & H1 & _). specialize (H1 Hne).
    rewrite Z.add_0_r, Z.mod_small by lia. reflexivity.
  - pose proof Hi as (H0 & H1 & _). specialize (H1 Hne).
    cbn [showNextImage_times]. rewrite showNextImage_eq by lia. cbn [snd].
    destruct (IH (shown w)) as [Him Hcur].
    + apply index_ok_shown. lia.
    + rewrite images_shown. exact Hne.
    + rewrite Him, Hcur, images_shown, currentImageIndex_shown.
      split; [reflexivity|]. rewrite wrap_mod by (auto; lia).
      rewrite Z.add_mod_idemp_l by (rewrite <- len_nil_iff in Hne; lia).
      f_equal. lia.
Qed.

Lemma showNextImage_empty w :
  images (slideshow w) = [] ->
  showNextImage w =
  (Normal tt,
   set_childNodes []
     (set_slideshow
        (set_currentImageIndex (wrap (slideshow w) (currentImageIndex (slideshow w) + 1))
           (slideshow w))
        (set_timeouts (cleared w) w))).
Proof.
  intros H. assert (Hl : len (images (slideshow w)) = 0) by (rewrite H; reflexivity).
  unfold showNextImage. unfold bind at 1. unfold gets at 1.
  unfold bind at 1. rewrite clear_eq. unfold wrap. js_unfold. proj.
  destruct (_ >=? _) eqn:E; proj; rewrite Hl; reflexivity.
Qed.

(** C3.  On a non-empty list [showNextImage] adds one to
    [currentImageIndex] and puts it back to 0 when it reaches the number of
    images; it then shows the image at that index.  Called [n] times in a
    row from a valid index, it ends at that index plus [n] modulo the number
    of images.  On an empty list it empties [#slideshow] and shows, preloads
    and schedules nothing. *)
Theorem showNextImage_loops (w : World) :
  let s := slideshow w in
  let w' := snd (showNextImage w) in
  (images s <> [] ->
     images (slideshow w') = images s /\
     currentImageIndex (slideshow w') =
       (if currentImageIndex s + 1 >=? len (images s) then 0
        else currentImageIndex s + 1)) /\
  (images s <> [] -> -1 <= currentImageIndex s ->
     exists image,
       at_index (images s) (currentImageIndex (slideshow w')) = Some image /\
       childNodes w' =
         childNodes w ++ [{| src := url image;
                             className := String.append "animated " (animation s) |}]) /\
  (images s <> [] -> index_ok s ->
     forall n : nat,
       currentImageIndex (slideshow (showNextImage_times n w)) =
         (currentImageIndex s + Z.of_nat n) mod len (images s)) /\
  (images s = [] ->
     fst (showNextImage w) = Normal tt /\ childNodes w' = [] /\
     preloaded w' = preloaded w /\ timeouts w' = cleared w /\
     nextImageTimeout w' = nextImageTimeout w).
Proof.
  cbv zeta. repeat split.
  - rewrite slideshow_showNextImage. reflexivity.
  - rewrite slideshow_showNextImage. reflexivity.
  - intros Hne Hlow. rewrite showNextImage_eq by exact Hlow. cbn [snd].
    rewrite currentImageIndex_shown. unfold shown.
    rewrite <- len_nil_iff in Hne.
    destruct (len _ =? 0) eqn:E; zb; [contradiction|]. proj.
    destruct (at_index_Some (images (slideshow w))
                (wrap (slideshow w) (currentImageIndex (slideshow w) + 1))) as [x Hx].
    { apply wrap_range; [lia|]. rewrite <- len_nil_iff. exact Hne. }
    rewrite Hx. exists x. split; reflexivity.
  - intros Hne Hi n. apply showNextImage_times_spec; assumption.
  - rewrite (showNextImage_empty w H). reflexivity.
  - rewrite (showNextImage_empty w H). reflexivity.
  - rewrite (showNextImage_empty w H). reflexivity.
  - rewrite (showNextImage_empty w H). reflexivity.
  - rewrite (showNextImage_empty w H). reflexivity.
Qed.

(** ** The index stays inside the array *)

(** C4.  Each of the five slideshow functions, entered with an index that
    is 0 on an empty list and inside the list otherwise, returns normally
    (no read of [slideshow.images] fell outside the array, which would
    throw at [.url]) and leaves such an index; and whatever the tasks the
    page runs from its initial state, the index is such between two tasks,
    it is the index of an image when there is one, and no read outside the
    array was ever reported. *)
Theorem currentImageIndex_in_bounds :
  (forall w, index_ok (slideshow w) ->
     (forall image, fst (addImage image w) = Normal tt /\
                    index_ok (slideshow (snd (addImage image w)))) /\
     (forall n, (exists b, fst (removeImage n w) = Normal b) /\
                index_ok (slideshow (snd (removeImage n w)))) /\
     (forall d, fst (changeDelay d w) = Normal tt /\
                index_ok (slideshow (snd (changeDelay d w)))) /\
     (forall a, fst (changeAnimation a w) = Normal tt /\
                index_ok (slideshow (snd (changeAnimation a w)))) /\
     (fst (showNextImage w) = Normal tt /\
      index_ok (slideshow (snd (showNextImage w))))) /\
  (forall ts,
     let s := slideshow (run ts initial) in
     index_ok s /\
     (images s <> [] ->
        exists image, at_index (images s) (currentImageIndex s) = Some image) /\
     ~ In (TypeError "url") (uncaught (run ts initial))).
Proof.
  split.
  - intros w Hi. pose proof Hi as (H0 & _).
    split; [|split; [|split; [|split]]].
    + intros image. rewrite addImage_eq by exact Hi.
      split; [reflexivity|apply index_ok_added, Hi].
    + intros n. rewrite removeImage_eq by exact Hi.
      destruct (List.find _ _) as [image|] eqn:Hfind; (split; [eauto|]); [|apply Hi].
      destruct (find_indexOf _ _ _ Hfind) as (i & Hx & ->).
      apply index_ok_removed; [exact Hi|]. apply lookup_lt_is_Some. eauto.
    + intros d. rewrite changeDelay_eq by exact Hi.
      split; [reflexivity|apply index_ok_delayed, Hi].
    + intros a. split; [reflexivity|apply Hi].
    + rewrite showNextImage_eq by lia.
      split; [reflexivity|apply index_ok_shown; lia].
  - intros ts. destruct (idle_run ts initial idle_initial) as [(Hi & _ & _ & Hr) _].
    cbv zeta. split; [exact Hi|]. split; [|exact Hr].
    intros Hne. destruct Hi as (H0 & H1 & _).
    apply at_index_Some. split; [exact H0|apply H1, Hne].
Qed.

(** ** Messages with another action *)

Lemma switch_case_None action :
  (forall a, action <> enum_value a) -> switch_case action = None.
Proof.
  intros H. unfold switch_case.
  destruct (String.eqb_spec action (enum_value ADD_IMAGE)); [destruct (H _ e)|].
  destruct (String.eqb_spec action (enum_value REMOVE_IMAGE)); [destruct (H _ e)|].
  destruct (String.eqb_spec action (enum_value CHANGE_DELAY)); [destruct (H _ e)|].
  destruct (String.eqb_spec action (enum_value CHANGE_ANIMATION)); [destruct (H _ e)|].
  reflexivity.
Qed.

Lemma dispatch_other m w : switch_case (action m) = None -> dispatch m w = (Normal tt, w).
Proof.
  destruct m as [a d]. unfold dispatch. simpl. revert d.
  destruct (switch_case a); [discriminate|]. reflexivity.
Qed.

(** ** [removeImage] *)

Lemma find_by_position {A} (p : A -> bool) (a : list A) i x :
  a !! i = Some x -> p x = true ->
  (forall j y, (j < i)%nat -> a !! j = Some y -> p y = false) ->
  List.find p a = Some x.
Proof.
  revert i. induction a as [|z a IH]; intros i; [discriminate|].
  destruct i as [|i]; simpl.
  - intros [= ->] Hp _. rewrite Hp. reflexivity.
  - intros Hx Hp Hbefore. rewrite (Hbefore O z); [|lia|reflexivity].
    apply (IH i); auto. intros j y Hj Hy. apply (Hbefore (S j)); [lia|exact Hy].
Qed.

Lemma find_nowhere {A} (p : A -> bool) (a : list A) :
  (forall x, In x a -> p x = false) -> List.find p a = None.
Proof.
  intros H. destruct (List.find p a) as [x|] eqn:E; [|reflexivity].
  apply find_some in E. destruct E as [Hin Hp]. rewrite (H x Hin) in Hp. discriminate.
Qed.

(** C5, as the code has it.  With no image of that id, [removeImage]
    returns [false] and changes nothing.  Otherwise it returns [true] and
    removes the first image of that id, at position [i] say; the index then
    ends one lower when [i] was before the current image; when [i] was the
    current image, the decrement is followed by [showNextImage], which adds
    one again: the index ends where it was, now on the image that followed
    the removed one, or at 0 when the removed image was the last of the
    list; an image after the current one leaves the index alone. *)
Theorem removeImage_spec (n : Z) (w : World) :
  index_ok (slideshow w) ->
  let s := slideshow w in
  let s' := slideshow (snd (removeImage n w)) in
  ((forall x, In x (images s) -> id_equals x n = false) ->
     removeImage n w = (Normal false, w)) /\
  (forall (i : nat) x,
     images s !! i = Some x -> id_equals x n = true ->
     (forall j y, (j < i)%nat -> images s !! j = Some y -> id_equals y n = false) ->
     fst (removeImage n w) = Normal true /\
     images s' = delete i (images s) /\
     currentImageIndex s' =
       (if Z.of_nat i <? currentImageIndex s then currentImageIndex s - 1
        else if Z.of_nat i =? currentImageIndex s
             then (if currentImageIndex s >=? len (images s) - 1 then 0
                   else currentImageIndex s)
             else currentImageIndex s)).
Proof.
  intros Hi. cbv zeta. rewrite (removeImage_eq n w Hi). split.
  - intros Hall. rewrite (find_nowhere _ _ Hall). reflexivity.
  - intros i x Hx Hp Hbefore.
    rewrite (find_by_position _ _ i x Hx Hp Hbefore).
    rewrite (indexOf_first _ x i Hx).
    + assert (Hlt : (i < length (images (slideshow w)))%nat)
        by (apply lookup_lt_is_Some; eauto).
      destruct (removed_slideshow i w Hi Hlt) as [Him Hcur].
      cbn [fst snd]. split; [reflexivity|]. split; [exact Him|exact Hcur].
    + intros j y Hj Hy ->. rewrite (Hbefore j x Hj Hy) in Hp. discriminate.
Qed.

(** C5, as the claim has it, fails: with three images and the second one
    on show, removing that second image (id 1, position 1, the current
    position) returns [true] and leaves the index at 1, not at 0. *)
Lemma removeImage_current_not_decremented :
  map id (images (slideshow three_images)) = [Some 0; Some 1; Some 2] /\
  currentImageIndex (slideshow three_images) = 1 /\
  fst (removeImage 1 three_images) = Normal true /\
  map id (images (slideshow (snd (removeImage 1 three_images)))) = [Some 0; Some 2] /\
  currentImageIndex (slideshow (snd (removeImage 1 three_images))) = 1 /\
  currentImageIndex (slideshow (snd (removeImage 1 three_images))) <>
    currentImageIndex (slideshow three_images) - 1.
Proof. vm_compute. repeat split; congruence. Qed.

(** ** Preloading *)

Lemma preloadNextImage_few w :
  len (images (slideshow w)) <= 1 -> preloadNextImage w = (Normal tt, w).
Proof.
  intros H. unfold preloadNextImage. js_unfold.
  destruct (_ >? 1) eqn:E; zb; [lia|reflexivity].
Qed.

Lemma preload_of_few s : len (images s) <= 1 -> preload_of s = [].
Proof. intros H. unfold preload_of. destruct (_ >? 1) eqn:E; zb; [lia|reflexivity]. Qed.

Lemma preloaded_shown w :
  -1 <= currentImageIndex (slideshow w) ->
  preloaded (shown w) =
  preloaded w ++
    preload_of (set_currentImageIndex
                  (wrap (slideshow w) (currentImageIndex (slideshow w) + 1)) (slideshow w)).
Proof.
  intros Hlow. unfold shown.
  destruct (len _ =? 0) eqn:E; zb.
  - rewrite preload_of_few by (proj; lia). rewrite app_nil_r. reflexivity.
  - destruct (at_index_Some (images (slideshow w))
                (wrap (slideshow w) (currentImageIndex (slideshow w) + 1))) as [x Hx].
    { apply wrap_range; [lia|]. rewrite <- len_nil_iff. exact E. }
    proj. rewrite Hx. reflexivity.
Qed.

Lemma at_index_last {A} (a : list A) x : at_index (a ++ [x]) (len a) = Some x.
Proof.
  unfold at_index, len. destruct (_ <? 0) eqn:E; zb; [lia|].
  rewrite Nat2Z.id. rewrite lookup_app_r by lia. rewrite Nat.sub_diag. reflexivity.
Qed.

(** C9.  When [showNextImage] shows an image of a list of more than one,
    it loads the image after the new current one, in cyclic order, and no
    other.  [addImage] loads the url of the image it adds exactly when
    [currentImageIndex + 2] is the new number of images, and nothing
    otherwise.  With at most one image neither [preloadNextImage] nor
    [showNextImage] loads anything. *)
Theorem preloading (w : World) :
  let s := slideshow w in
  (1 < len (images s) -> -1 <= currentImageIndex s ->
     let w' := snd (showNextImage w) in
     exists next,
       at_index (images s)
         ((currentImageIndex (slideshow w') + 1) mod len (images s)) = Some next /\
       preloaded w' = preloaded w ++ [url next]) /\
  (forall image, index_ok s ->
     let w' := snd (addImage image w) in
     preloaded w' =
       preloaded w ++
         (if currentImageIndex s + 2 =? len (images (slideshow w'))
          then [url image] else [])) /\
  (len (images s) <= 1 ->
     preloaded (snd (preloadNextImage w)) = preloaded w /\
     preloaded (snd (showNextImage w)) = preloaded w).
Proof.
  cbv zeta. split; [|split].
  - intros Hlen Hlow. rewrite showNextImage_eq by exact Hlow. cbn [snd].
    rewrite preloaded_shown by exact Hlow. rewrite currentImageIndex_shown.
    assert (Hne : images (slideshow w) <> [])
      by (rewrite <- len_nil_iff; lia).
    pose proof (wrap_range (slideshow w) (currentImageIndex (slideshow w) + 1)
                  ltac:(lia) Hne) as Hr.
    set (cur := wrap (slideshow w) (currentImageIndex (slideshow w) + 1)) in *.
    unfold preload_of. proj.
    destruct (_ >? 1) eqn:E; zb; [|lia].
    replace (wrap (set_currentImageIndex cur (slideshow w)) (cur + 1))
      with ((cur + 1) mod len (images (slideshow w))).
    2:{ symmetry. apply (wrap_mod (set_currentImageIndex cur (slideshow w))); proj; [exact Hne|lia]. }
    destruct (at_index_Some (images (slideshow w)) ((cur + 1) mod len (images (slideshow w)))) as [x Hx].
    { apply Z.mod_pos_bound. lia. }
    rewrite Hx. exists x. split; reflexivity.
  - intros image Hi. rewrite addImage_eq by exact Hi. cbn [snd].
    pose proof Hi as (H0 & H1 & H2).
    assert (Him : images (slideshow (added image w)) =
                  images (slideshow w) ++ [set_id (Some (imageSequence w)) image]).
    { unfold added. proj.
      destruct (_ =? len _); (destruct (len _ =? 1); [rewrite images_shown|]); reflexivity. }
    rewrite Him. unfold added. proj.
    set (s := slideshow w) in *.
    set (x := set_id (Some (imageSequence w)) image) in *.
    assert (Hlen : len (images s ++ [x]) = len (images s) + 1).
    { unfold len. rewrite length_app. simpl. lia. }
    rewrite Hlen.
    destruct (currentImageIndex s + 2 =? len (images s) + 1) eqn:E1; zb.
    + destruct (len (images s) + 1 =? 1) eqn:E2; zb; [lia|]. proj.
      f_equal. unfold preload_of, wrap. proj. rewrite Hlen.
      destruct (_ >? 1) eqn:E3; zb; [|lia].
      destruct (_ >=? _) eqn:E4; zb; [lia|].
      replace (currentImageIndex s + 1) with (len (images s)) by lia.
      rewrite at_index_last. reflexivity.
    + rewrite app_nil_r.
      destruct (len (images s) + 1 =? 1) eqn:E2; zb; [|reflexivity].
      rewrite preloaded_shown by (proj; lia). proj.
      rewrite preload_of_few by (proj; lia). apply app_nil_r.
  - intros Hlen. split.
    + rewrite preloadNextImage_few by exact Hlen. reflexivity.
    + unfold showNextImage. unfold bind at 1. unfold gets at 1.
      unfold bind at 1. rewrite clear_eq. unfold setTimeout. js_unfold. proj.
      set (s := slideshow w) in *.
      destruct (currentImageIndex s + 1 >=? len (images s)) eqn:E1; proj;
        (destruct (len (images s) =? 0) eqn:E2; [reflexivity|]);
        (destruct (at_index (images s) _) eqn:E3; [|reflexivity]);
        rewrite preloadNextImage_few by (proj; exact Hlen); reflexivity.
Qed.

(** ** The polyfill: new connections *)

Lemma keeps_outside_showNextImage : keeps outside showNextImage.
Proof.
  unfold showNextImage, clearTimeout, setTimeout, update_slideshow.
  keeps_tac; try reflexivity. apply keeps_preloadNextImage. reflexivity.
Qed.

Lemma keeps_outside_dispatch m : keeps outside (dispatch m).
Proof.
  destruct m as [a d]. unfold dispatch. simpl. revert d.
  destruct (switch_case a) as [[]|]; intros d; simpl.
  - unfold addImage, getImageId, update_slideshow. keeps_tac; try reflexivity;
      first [apply keeps_outside_showNextImage | apply keeps_preloadNextImage; reflexivity].
  - unfold removeImage, update_slideshow. keeps_tac; try reflexivity.
    apply keeps_outside_showNextImage.
  - unfold changeDelay, update_slideshow. keeps_tac; try reflexivity.
    apply keeps_outside_showNextImage.
  - unfold changeAnimation, update_slideshow. keeps_tac.
  - keeps_tac.
Qed.

Lemma keeps_outside_switch v : keeps outside (switch v).
Proof.
  destruct v as [|m| |]; simpl.
  - keeps_tac.
  - apply keeps_outside_dispatch.
  - unfold addImage_undefined, getImageId. keeps_tac.
  - keeps_tac.
Qed.

Lemma keeps_of_outside {A X} (f : World -> X) (m : JS A) :
  (forall w w', outside w' = outside w -> f w' = f w) -> keeps outside m -> keeps f m.
Proof. intros Hf Hm w. apply Hf, Hm. Qed.

Ltac outside_tac :=
  let w := fresh "w" in let w' := fresh "w'" in let H := fresh "H" in
  intros w w' H; unfold outside in H; injection H; intros; congruence.

Lemma keeps_then_ {X} (f : World -> X) job :
  (forall v w, f (set_microtasks v w) = f w) ->
  (forall v w, f (set_reactions v w) = f w) -> keeps f (then_ job).
Proof. intros H1 H2 w. unfold then_, modify. simpl. destruct (settled w); auto. Qed.

Lemma keeps_call_onmessage {X} (f : World -> X) g e :
  (forall w w', outside w' = outside w -> f w' = f w) ->
  (forall v w, f (set_microtasks v w) = f w) ->
  (forall v w, f (set_reactions v w) = f w) ->
  keeps f (call_onmessage g e).
Proof.
  intros H0 H1 H2.
  assert (H : keeps f (Receiver.onmessage e)).
  { destruct e as [d]. unfold Receiver.onmessage.
    apply keeps_bind; [destruct d; simpl; keeps_tac|intros v].
    apply keeps_bind; [|intros _; apply keeps_then_; assumption].
    apply keeps_of_outside; [exact H0|apply keeps_outside_switch]. }
  destruct g; exact H.
Qed.

Lemma keeps_run_job {X} (f : World -> X) j :
  (forall v w, f (set_posted v w) = f w) ->
  (forall v w, f (set_connections v w) = f w) ->
  (forall v w, f (set_onconnectionavailable v w) = f w) ->
  keeps f (run_job j).
Proof.
  intros H1 H2 H3.
  destruct j as [[]|message]; simpl;
    unfold Receiver.bootstrap, ReceiverEdu.bootstrap, broadcast_callback,
      Receiver.addConnection, ReceiverEdu.addConnection;
    keeps_tac; auto; first [apply keeps_sendMessage | apply keeps_assign]; auto.
Qed.

Lemma keeps_perform {X} (f : World -> X) (m : JS unit) w :
  (forall v w, f (set_uncaught v w) = f w) -> keeps f m -> f (perform m w) = f w.
Proof.
  intros Hu H. unfold perform. specialize (H w).
  destruct (m w) as [[[]|e] w']; simpl in *; [|rewrite Hu]; exact H.
Qed.

Lemma keeps_jobs {X} (f : World -> X) js :
  (forall v w, f (set_uncaught v w) = f w) ->
  (forall j, keeps f (run_job j)) ->
  forall w, f (fold_left (fun w j => perform (run_job j) w) js w) = f w.
Proof.
  intros Hu Hj. induction js as [|j js IH]; intros w; simpl; [reflexivity|].
  rewrite IH. apply keeps_perform; auto.
Qed.

Lemma keeps_drain {X} (f : World -> X) w :
  (forall v w, f (set_uncaught v w) = f w) ->
  (forall v w, f (set_microtasks v w) = f w) ->
  (forall j, keeps f (run_job j)) ->
  f (drain w) = f w.
Proof.
  intros Hu Hm Hj. unfold drain. rewrite keeps_jobs by assumption. apply Hm.
Qed.

Lemma keeps_settled_callback t :
  is_new_connection t = false -> keeps settled (callback t).
Proof.
  destruct t as [script|e|h| |]; simpl; intros E.
  - keeps_tac; apply keeps_then_; reflexivity.
  - unfold Polyfill.listener, Polyfill.deliver. rewrite E. keeps_tac.
    apply keeps_call_onmessage; try reflexivity. outside_tac.
  - unfold clearTimeout. keeps_tac.
    apply keeps_of_outside; [outside_tac|apply keeps_outside_showNextImage].
  - unfold onAnimationEnd. keeps_tac.  - keeps_tac.
Qed.




(** ** The polyfill: application messages *)

Lemma listener_app_message e w :
  message_type e = "APP_MESSAGE" ->
  Polyfill.listener e w = forIndexes (length (connections w)) 0 (fan_out e) w.
Proof. intros E. unfold Polyfill.listener. rewrite E. reflexivity. Qed.

Lemma dispatch_normal m w : index_ok (slideshow w) -> fst (dispatch m w) = Normal tt.
Proof.
  intros Hi. destruct m as [a d]. unfold dispatch. simpl. revert d.
  destruct (switch_case a) as [[]|]; intros d; simpl.
  - rewrite addImage_eq by exact Hi. reflexivity.
  - unfold bind. rewrite removeImage_eq by exact Hi. destruct (List.find _ _); reflexivity.
  - rewrite changeDelay_eq by exact Hi. reflexivity.
  - reflexivity.
  - reflexivity.
Qed.

Lemma keeps_outside_acted d : keeps outside (acted d).
Proof. destruct d; try (intros w; reflexivity). apply keeps_outside_dispatch. Qed.

Lemma call_onmessage_normal f d w :
  throws d = false -> stable w -> settled w = true ->
  let w1 := snd (acted d w) in
  call_onmessage f (new_MessageEvent d) w =
    (Normal tt, set_microtasks (microtasks w1 ++ [Broadcast SlideshowObject]) w1) /\
  stable w1 /\ outside w1 = outside w.
Proof.
  intros Hd Hs Hset. cbv zeta.
  assert (Hn : fst (acted d w) = Normal tt).
  { destruct d; try discriminate; [apply dispatch_normal, Hs|reflexivity]. }
  assert (Hst : stable (snd (acted d w))).
  { destruct d; try discriminate; [apply safe_dispatch, Hs|exact Hs]. }
  pose proof (keeps_outside_acted d w) as Ho.
  split; [|split; assumption].
  assert (Hset' : settled (snd (acted d w)) = true).
  { unfold outside in Ho. injection Ho. intros. congruence. }
  assert (E : Receiver.onmessage (new_MessageEvent d) w =
    (Normal tt, set_microtasks (microtasks (snd (acted d w)) ++ [Broadcast SlideshowObject])
                  (snd (acted d w)))).
  { unfold Receiver.onmessage, JSON_parse, switch, broadcastMessage, then_.
    destruct d; try discriminate; simpl acted in *; js_unfold.
    - destruct (dispatch m w) as [c w1]. simpl in *. subst c. rewrite Hset'. reflexivity.
    - simpl in *. rewrite Hset. reflexivity. }
  destruct f; exact E.
Qed.

Lemma call_onmessage_json f m w :
  stable w -> settled w = true ->
  let w1 := snd (dispatch m w) in
  call_onmessage f (new_MessageEvent (Json m)) w =
    (Normal tt, set_microtasks (microtasks w1 ++ [Broadcast SlideshowObject]) w1) /\
  stable w1 /\ outside w1 = outside w.
Proof. apply (call_onmessage_normal f (Json m) w eq_refl). Qed.

Lemma call_onmessage_throws f d w :
  throws d = true ->
  call_onmessage f (new_MessageEvent d) w = (Throw (parse_error d), thrown d w).
Proof. intros H. destruct d; try discriminate; destruct f; reflexivity. Qed.

Lemma fan_out_normal e n : forall i w,
  throws (message_data e) = false -> stable w -> (i + n <= length (connections w))%nat ->
  exists w',
    forIndexes n i (fan_out e) w = (Normal tt, w') /\
    stable w' /\ connections w' = connections w /\ posted w' = posted w /\
    uncaught w' = uncaught w /\
    delivered w' =
      delivered w ++
      map (fun j => (j, new_MessageEvent (message_data e)))
        (List.filter (listens (connections w)) (seq i n)) /\
    microtasks w' =
      microtasks w ++
      replicate (length (List.filter (listens (connections w)) (seq i n)))
        (Broadcast SlideshowObject).
Proof.
  induction n as [|n IH]; intros i w Hd Hs Hlen.
  - exists w. simpl. rewrite !app_nil_r. split; [reflexivity|]. split; [exact Hs|].
    repeat (split; [reflexivity|]). reflexivity.
  - cbn [forIndexes seq List.filter]. unfold bind at 1. unfold fan_out at 1.
    unfold bind at 1, gets at 1.
    destruct (connections w !! i) as [c|] eqn:Hc.
    2:{ apply lookup_ge_None in Hc. lia. }
    destruct (PresentationConnection.onmessage c) as [f|] eqn:Hf.
    + assert (Hl : listens (connections w) i = true)
        by (unfold listens; rewrite Hc, Hf; reflexivity).
      rewrite Hl.
      unfold Polyfill.deliver, bind at 1, modify at 1.
      set (d := message_data e) in *.
      set (w1 := set_delivered (delivered w ++ [(i, new_MessageEvent d)]) w).
      assert (Hs1 : stable w1) by exact Hs.
      assert (Hset : settled w1 = true).
      { change (settled w = true).
        pose proof Hs as (_ & _ & (_ & _ & Hp3 & _) & _).
        destruct (settled w) eqn:E; [reflexivity|].
        rewrite (Hp3 eq_refl) in Hc. discriminate. }
      destruct (call_onmessage_normal f d w1 Hd Hs1 Hset) as (Hcall & Hst & Ho).
      rewrite Hcall. cbv zeta in Hst, Ho.
      set (w2 := snd (acted d w1)) in *.
      apply outside_fields in Ho.
      destruct Ho as (Hload & Hconn & Hoca & Hflag & Hsett & Hrea & Hmic & Hpost & Hunc & Hdel).
      destruct (IH (S i) (set_microtasks (microtasks w2 ++ [Broadcast SlideshowObject]) w2))
        as (w' & Hloop & Hs' & Hc' & Hp' & Hu' & Hd' & Hm').
      * exact Hd.
      * exact Hst.
      * change (S i + n <= length (connections w2))%nat. rewrite Hconn.
        change (S i + n <= length (connections w))%nat. lia.
      * change (connections w' = connections w2) in Hc'.
        change (posted w' = posted w2) in Hp'.
        change (uncaught w' = uncaught w2) in Hu'.
        change (connections (set_microtasks (microtasks w2 ++ [Broadcast SlideshowObject]) w2))
          with (connections w2) in Hd', Hm'.
        change (delivered (set_microtasks (microtasks w2 ++ [Broadcast SlideshowObject]) w2))
          with (delivered w2) in Hd'.
        change (microtasks (set_microtasks (microtasks w2 ++ [Broadcast SlideshowObject]) w2))
          with (microtasks w2 ++ [Broadcast SlideshowObject]) in Hm'.
        change (connections w1) with (connections w) in Hconn.
        change (posted w1) with (posted w) in Hpost.
        change (uncaught w1) with (uncaught w) in Hunc.
        change (microtasks w1) with (microtasks w) in Hmic.
        change (delivered w1) with (delivered w ++ [(i, new_MessageEvent d)]) in Hdel.
        rewrite Hconn in *.
        exists w'. split; [exact Hloop|]. split; [exact Hs'|].
        split; [congruence|]. split; [congruence|]. split; [congruence|].
        split.
        -- rewrite Hd', Hdel. rewrite <- app_assoc. reflexivity.
        -- rewrite Hm', Hmic. cbn [length replicate]. rewrite <- app_assoc. reflexivity.
    + assert (Hl : listens (connections w) i = false)
        by (unfold listens; rewrite Hc, Hf; reflexivity).
      rewrite Hl. unfold ret at 1.
      destruct (IH (S i) w Hd Hs ltac:(lia)) as (w' & Hloop & Hrest).
      exists w'. split; [exact Hloop|exact Hrest].
Qed.

Lemma fan_out_json e m n : forall i w,
  message_data e = Json m -> stable w -> (i + n <= length (connections w))%nat ->
  exists w',
    forIndexes n i (fan_out e) w = (Normal tt, w') /\
    stable w' /\ connections w' = connections w /\ posted w' = posted w /\
    uncaught w' = uncaught w /\
    delivered w' =
      delivered w ++
      map (fun j => (j, new_MessageEvent (Json m))) (List.filter (listens (connections w)) (seq i n)) /\
    microtasks w' =
      microtasks w ++
      replicate (length (List.filter (listens (connections w)) (seq i n)))
        (Broadcast SlideshowObject).
Proof.
  intros i w Hd. rewrite <- Hd. apply fan_out_normal. rewrite Hd. reflexivity.
Qed.

Lemma fan_out_throws e n : forall i w,
  throws (message_data e) = true ->
  forIndexes n i (fan_out e) w =
  match List.filter (listens (connections w)) (seq i n) with
  | [] => (Normal tt, w)
  | j :: _ =>
      (Throw (parse_error (message_data e)),
       thrown (message_data e)
         (set_delivered (delivered w ++ [(j, new_MessageEvent (message_data e))]) w))
  end.
Proof.
  induction n as [|n IH]; intros i w Hd; [reflexivity|].
  cbn [forIndexes seq List.filter]. unfold bind at 1. unfold fan_out at 1.
  unfold bind at 1, gets at 1. unfold listens at 1.
  destruct (connections w !! i) as [c|] eqn:Hc; [|unfold ret at 1; apply IH, Hd].
  destruct (PresentationConnection.onmessage c) as [f|] eqn:Hf;
    [|unfold ret at 1; apply IH, Hd].
  unfold Polyfill.deliver, bind at 1, modify at 1.
  rewrite call_onmessage_throws by exact Hd. reflexivity.
Qed.

Lemma handler_outcome f d w :
  index_ok (slideshow w) ->
  fst (call_onmessage f (new_MessageEvent d) w) =
    if throws d then Throw (parse_error d) else Normal tt.
Proof.
  intros Hi.
  assert (E : fst (Receiver.onmessage (new_MessageEvent d) w) =
              if throws d then Throw (parse_error d) else Normal tt).
  { destruct d as [| |m| |]; try reflexivity.
    pose proof (dispatch_normal m w Hi) as Hn.
    unfold Receiver.onmessage, JSON_parse, switch, broadcastMessage, then_, throws.
    js_unfold.
    destruct (dispatch m w) as [c w1]. simpl in *. subst c. reflexivity. }
  destruct f; exact E.
Qed.

Lemma set_posted_eta w : set_posted (posted w) w = w.
Proof. destruct w; reflexivity. Qed.

Lemma send_loop n : forall i w,
  Forall (fun c => PresentationConnection.messageSource_ c <> None) (connections w) ->
  (i + n <= length (connections w))%nat ->
  forIndexes n i (fun i => sendMessage (Some i) SlideshowObject) w =
  (Normal tt,
   set_posted (posted w ++ map (post_to (JSON_stringify (slideshow w)))
                             (take n (drop i (connections w)))) w).
Proof.
  induction n as [|n IH]; intros i w Hsrc Hlen.
  - simpl. rewrite app_nil_r, set_posted_eta. reflexivity.
  - cbn [forIndexes]. unfold bind at 1.
    destruct (connections w !! i) as [c|] eqn:Hc.
    2:{ apply lookup_ge_None in Hc. lia. }
    pose proof (Forall_lookup_1 _ _ _ _ Hsrc Hc) as Hin. simpl in Hin.
    destruct (PresentationConnection.messageSource_ c) as [target|] eqn:Ht; [|congruence].
    assert (E : sendMessage (Some i) SlideshowObject w =
                (Normal tt, set_posted (posted w ++ [post_to (JSON_stringify (slideshow w)) c]) w)).
    { unfold sendMessage, send. js_unfold. rewrite Hc, Ht. unfold post_to. rewrite Ht. reflexivity. }
    rewrite E. rewrite IH; [|exact Hsrc|simpl; lia].
    proj. rewrite (drop_S _ _ _ Hc). cbn [take map]. rewrite <- app_assoc. reflexivity.
Qed.

Lemma broadcast_callback_eq w :
  Forall (fun c => PresentationConnection.messageSource_ c <> None) (connections w) ->
  broadcast_callback SlideshowObject w =
  (Normal tt, set_posted (posted w ++ broadcast_of w) w).
Proof.
  intros Hsrc. unfold broadcast_callback. unfold bind at 1, gets at 1.
  rewrite send_loop; [|exact Hsrc|lia].
  rewrite drop_0, firstn_all. reflexivity.
Qed.

Lemma broadcast_jobs k : forall w,
  Forall (fun c => PresentationConnection.messageSource_ c <> None) (connections w) ->
  fold_left (fun w j => perform (run_job j) w) (replicate k (Broadcast SlideshowObject)) w =
  set_posted (posted w ++ concat (replicate k (broadcast_of w))) w.
Proof.
  induction k as [|k IH]; intros w Hsrc.
  - simpl. rewrite app_nil_r, set_posted_eta. reflexivity.
  - cbn [replicate fold_left]. unfold perform. cbn [run_job].
    rewrite broadcast_callback_eq by exact Hsrc.
    rewrite IH by exact Hsrc.
    cbn [concat]. unfold broadcast_of. proj. rewrite <- app_assoc. reflexivity.
Qed.

(** ** What a message does to the page *)

Lemma app_message_returns e w :
  message_type e = "APP_MESSAGE" -> idle w -> throws (message_data e) = false ->
  let w' := step w (WindowMessage e) in
  connections w' = connections w /\
  uncaught w' = uncaught w /\
  delivered w' =
    delivered w ++ map (fun i => (i, new_MessageEvent (message_data e))) (listening w) /\
  posted w' =
    posted w ++
    concat (replicate (length (listening w))
              (map (post_to (JSON_stringify (slideshow w'))) (connections w'))).
Proof.
  intros E [Hs Hm] Hd. cbv zeta.
  unfold step, perform. cbn [callback]. rewrite (listener_app_message e w E).
  destruct (fan_out_normal e (length (connections w)) 0 w Hd Hs (le_n _))
    as (w1 & Hloop & Hs1 & Hconn & Hpost & Hunc & Hdel & Hmic).
  rewrite Hloop. rewrite Hm in Hmic. simpl in Hmic.
  unfold drain. rewrite Hmic.
  pose proof Hs1 as (_ & _ & (_ & _ & _ & Hsrc) & _).
  rewrite broadcast_jobs by exact Hsrc.
  proj. unfold listening. rewrite Hconn, Hpost, Hunc, Hdel.
  split; [reflexivity|]. split; [reflexivity|]. split; [reflexivity|].
  unfold broadcast_of. proj. rewrite Hconn. reflexivity.
Qed.

Lemma app_message_throws e w :
  message_type e = "APP_MESSAGE" -> idle w -> throws (message_data e) = true ->
  let w' := step w (WindowMessage e) in
  connections w' = connections w /\
  uncaught w' =
    uncaught w ++ map (fun _ => parse_error (message_data e)) (take 1 (listening w)) /\
  delivered w' =
    delivered w ++
    map (fun i => (i, new_MessageEvent (message_data e))) (take 1 (listening w)) /\
  posted w' = posted w /\
  slideshow w' = slideshow w.
Proof.
  intros E [Hs Hm] Hd. cbv zeta.
  unfold step, perform. cbn [callback]. rewrite (listener_app_message e w E).
  rewrite fan_out_throws by exact Hd. unfold listening.
  destruct (List.filter _ _) as [|j l]; unfold drain.
  - proj. rewrite Hm. simpl. rewrite !app_nil_r. repeat split; reflexivity.
  - destruct (message_data e); try discriminate; unfold thrown; proj; rewrite Hm;
      repeat split; reflexivity.
Qed.

(** C8, as the code has it.  An [APP_MESSAGE] on any page reached from the
    initial one, whoever sent it.  The connections of the list that have an
    [onmessage] handler are called in the order of the list, each with a
    [MessageEvent] that carries the data, until a handler throws: the
    exception ends the [forEach].  The handler of the receiver scripts
    throws on data that is not JSON text, on the text [null] and on an
    [addImage] message without data, and returns normally on the other
    data, whatever the page.  So when it returns normally every such
    connection is called once and nothing is reported; when it throws, the
    first such connection is the only one called and its exception is
    reported. *)
Theorem app_message_fan_out (ts : list Task) (e : WindowEvent) :
  message_type e = "APP_MESSAGE" ->
  let w := run ts initial in
  let w' := step w (WindowMessage e) in
  let event := new_MessageEvent (message_data e) in
  (forall f v, index_ok (slideshow v) ->
     fst (call_onmessage f event v) =
       if throws (message_data e) then Throw (parse_error (message_data e))
       else Normal tt) /\
  (throws (message_data e) = false ->
     delivered w' = delivered w ++ map (fun i => (i, event)) (listening w) /\
     uncaught w' = uncaught w) /\
  (throws (message_data e) = true ->
     delivered w' = delivered w ++ map (fun i => (i, event)) (take 1 (listening w)) /\
     uncaught w' =
       uncaught w ++ map (fun _ => parse_error (message_data e)) (take 1 (listening w))).
Proof.
  intros E. cbv zeta.
  pose proof (idle_run ts initial idle_initial) as Hi.
  split; [intros f v Hv; apply handler_outcome, Hv|]. split; intros Hd.
  - destruct (app_message_returns e _ E Hi Hd) as (_ & Hu & Hdel & _).
    split; assumption.
  - destruct (app_message_throws e _ E Hi Hd) as (_ & Hu & Hdel & _).
    split; assumption.
Qed.

(** C8, as the claim has it, fails: two connections were there when
    receiver.js started, so both have its handler; a message whose data is
    not JSON reaches the first one only. *)
Lemma unparseable_message_reaches_first_only :
  let w := run [new_connection 7; new_connection 8; RunScript Photowall] initial in
  let w' := step w (app_message Unparseable) in
  map PresentationConnection.onmessage (connections w) = [Some Photowall; Some Photowall] /\
  listening w = [0%nat; 1%nat] /\
  delivered w = [] /\
  delivered w' = [(0%nat, new_MessageEvent Unparseable)] /\
  ~ In (1%nat, new_MessageEvent Unparseable) (delivered w').
Proof.
  vm_compute. repeat split; try reflexivity. intros [H|[]]. discriminate.
Qed.

(** C1, as the code has it.  An [APP_MESSAGE] on any page reached from the
    initial one.  The handler of the receiver scripts throws on data that
    is not JSON text, on the text [null] and on an [addImage] message
    without data, and returns normally on the other data, whatever the
    page.  When it returns normally, each handler that received the message
    has the state broadcast once; each broadcast posts to every connection
    of the list, in order, one message, and it is the same text for all:
    [JSON.stringify] of the state of the slideshow as the handlers left it.
    When it throws, it does so before it broadcasts: the exception of the
    first handler called is reported and nothing is posted. *)
Theorem state_broadcast (ts : list Task) (e : WindowEvent) :
  message_type e = "APP_MESSAGE" ->
  let w := run ts initial in
  let w' := step w (WindowMessage e) in
  let d := message_data e in
  (forall f v, index_ok (slideshow v) ->
     fst (call_onmessage f (new_MessageEvent d) v) =
       if throws d then Throw (parse_error d) else Normal tt) /\
  (throws d = false ->
     connections w' = connections w /\
     uncaught w' = uncaught w /\
     posted w' =
       posted w ++
       concat (replicate (length (listening w))
                 (map (post_to (JSON_stringify (slideshow w'))) (connections w')))) /\
  (throws d = true ->
     connections w' = connections w /\
     uncaught w' = uncaught w ++ map (fun _ => parse_error d) (take 1 (listening w)) /\
     posted w' = posted w).
Proof.
  intros E. cbv zeta.
  pose proof (idle_run ts initial idle_initial) as Hi.
  split; [intros f v Hv; apply handler_outcome, Hv|]. split; intros Hd.
  - destruct (app_message_returns e _ E Hi Hd) as (Hc & Hu & _ & Hp).
    split; [exact Hc|]. split; [exact Hu|exact Hp].
  - destruct (app_message_throws e _ E Hi Hd) as (Hc & Hu & _ & Hp & _).
    split; [exact Hc|]. split; [exact Hu|exact Hp].
Qed.

(** C1, as the claim has it, fails: a message whose data is not JSON is
    received by the handler of the one connection, which throws at
    [JSON.parse]; nothing is broadcast. *)
Lemma unparseable_message_not_broadcast :
  let w := run [RunScript Photowall; new_connection 7] initial in
  let w' := step w (app_message Unparseable) in
  delivered w' = delivered w ++ [(0%nat, new_MessageEvent Unparseable)] /\
  length (connections w') = 1%nat /\
  uncaught w' = uncaught w ++ [SyntaxError] /\
  posted w' = posted w.
Proof. vm_compute. repeat split; reflexivity. Qed.

(** ** The two receiver scripts *)

Lemma keeps_jobs_Forall {X} (f : World -> X) (P : Job -> Prop) js :
  (forall v w, f (set_uncaught v w) = f w) ->
  (forall j, P j -> keeps f (run_job j)) ->
  Forall P js ->
  forall w, f (fold_left (fun w j => perform (run_job j) w) js w) = f w.
Proof.
  intros Hu Hj HP. induction HP as [|j js Hp _ IH]; intros w; simpl; [reflexivity|].
  rewrite IH. apply keeps_perform; auto.
Qed.

Lemma keeps_bootstrap_edu {X} (f : World -> X) :
  (forall v w, f (set_connections v w) = f w) ->
  (forall v w, f (set_onconnectionavailable v w) = f w) ->
  keeps f (run_job (Bootstrap CastForEdu)).
Proof.
  intros H1 H2. simpl. unfold ReceiverEdu.bootstrap, ReceiverEdu.addConnection.
  keeps_tac; auto; apply keeps_assign; auto.
Qed.

Lemma keeps_edu_jobs {X} (f : World -> X) js :
  (forall v w, f (set_uncaught v w) = f w) ->
  (forall v w, f (set_connections v w) = f w) ->
  (forall v w, f (set_onconnectionavailable v w) = f w) ->
  Forall (fun j => j = Bootstrap CastForEdu) js ->
  forall w, f (fold_left (fun w j => perform (run_job j) w) js w) = f w.
Proof.
  intros H1 H2 H3. apply keeps_jobs_Forall; [exact H1|].
  intros j ->. apply keeps_bootstrap_edu; assumption.
Qed.

Lemma quiet_drain w :
  posted w = [] -> loaded w <> None ->
  Forall (fun j => j = Bootstrap CastForEdu) (reactions w) ->
  Forall (fun j => j = Bootstrap CastForEdu) (microtasks w) ->
  quiet (drain w).
Proof.
  intros Hp Hl Hr Hm. unfold drain, quiet.
  rewrite (keeps_edu_jobs posted) by (try reflexivity; exact Hm).
  rewrite (keeps_edu_jobs loaded) by (try reflexivity; exact Hm).
  rewrite (keeps_edu_jobs microtasks) by (try reflexivity; exact Hm).
  rewrite (keeps_edu_jobs reactions) by (try reflexivity; exact Hm).
  repeat split; assumption.
Qed.

Lemma quiet_step w t : quiet w -> is_app_message t = false -> quiet (step w t).
Proof.
  intros (Hp & Hl & Hm & Hr) Ht. unfold step.
  destruct t as [script|e|h| |]; unfold perform; cbn [callback].
  - unfold bind at 1, gets at 1. destruct (loaded w) as [l|] eqn:E; [|congruence].
    unfold ret. apply quiet_drain; try rewrite Hm; try rewrite E; auto; discriminate.
  - simpl in Ht.
    destruct (String.eqb (message_type e) "NEW_CONNECTION") eqn:En.
    + apply String.eqb_eq in En. rewrite (listener_new_connection e w En). cbv zeta.
      destruct (connectionListResolved w).
      * destruct (onconnectionavailable w) as [f|];
          [rewrite call_onconnectionavailable_throws|];
          apply quiet_drain; proj; try rewrite Hm; auto.
      * unfold resolve, modify. proj.
        destruct (settled w); apply quiet_drain; proj; try rewrite Hm; auto.
    + unfold Polyfill.listener. rewrite En, Ht. unfold ret.
      apply quiet_drain; try rewrite Hm; auto.
  - pose proof (keeps_outside_showNextImage
                  (set_timeouts (List.filter (fun p => negb (fst p =? h)) (timeouts w)) w)) as Ho.
    apply outside_fields in Ho. proj.
    destruct Ho as (Hload & _ & _ & _ & _ & Hrea & Hmic & Hpost & _ & _).
    unfold bind at 1, gets at 1, when.
    destruct (existsb _ _).
    + unfold bind, clearTimeout, modify.
      destruct (showNextImage _) as [[[]|err] w1]; cbn [fst snd] in *;
        apply quiet_drain; proj; rewrite ?Hrea, ?Hmic, ?Hm, ?Hpost, ?Hload; auto.
    + unfold ret. apply quiet_drain; try rewrite Hm; auto.
  - unfold onAnimationEnd, modify. apply quiet_drain; proj; try rewrite Hm; auto.  - unfold throw. apply quiet_drain; proj; try rewrite Hm; auto.
Qed.

Lemma quiet_run ts : forall w,
  quiet w -> forallb (fun t => negb (is_app_message t)) ts = true -> quiet (run ts w).
Proof.
  induction ts as [|t ts IH]; intros w Hq Hts; simpl; [exact Hq|].
  simpl in Hts. apply andb_prop in Hts. destruct Hts as [Ht Hts].
  apply IH; [|exact Hts]. apply quiet_step; [exact Hq|].
  destruct (is_app_message t); [discriminate|reflexivity].
Qed.

(** The two receiver scripts, side by side.  The handler they put on a
    connection is the same function, so the messages are handled alike.
    Registration differs: [addConnection] of receiver.js posts the current
    state to the connection at once; the one of the variant posts nothing,
    it only stores a handler [onconnect] that would post the state if it
    were called, and nothing on the page calls it: with the variant, as
    long as no application message arrives, nothing is posted to any
    connection. *)
Theorem registration_differs :
  (forall e w, ReceiverEdu.onmessage e w = Receiver.onmessage e w) /\
  (forall w i c,
     connections w !! i = Some c ->
     PresentationConnection.messageSource_ c <> None ->
     let a := snd (Receiver.addConnection (Some i) w) in
     let b := snd (ReceiverEdu.addConnection (Some i) w) in
     posted a = posted w ++ [post_to (JSON_stringify (slideshow w)) c] /\
     posted b = posted w /\
     connections a =
       alter (PresentationConnection.set_onmessage (Some Photowall)) i (connections w) /\
     connections b =
       alter (PresentationConnection.set_onmessage (Some CastForEdu)) i
         (alter (PresentationConnection.set_onconnect (Some CastForEdu)) i (connections w)) /\
     posted (snd (ReceiverEdu.onconnect (Some i) w)) =
       posted w ++ [post_to (JSON_stringify (slideshow w)) c]) /\
  (forall ts,
     forallb (fun t => negb (is_app_message t)) ts = true ->
     posted (run (RunScript CastForEdu :: ts) initial) = []).
Proof.
  split; [reflexivity|]. split.
  - intros w i c Hc Hsrc. cbv zeta.
    destruct (PresentationConnection.messageSource_ c) as [target|] eqn:Ht; [|congruence].
    assert (E : sendMessage (Some i) SlideshowObject w =
                (Normal tt, set_posted (posted w ++ [post_to (JSON_stringify (slideshow w)) c]) w)).
    { unfold sendMessage, send. js_unfold. rewrite Hc, Ht. unfold post_to. rewrite Ht. reflexivity. }
    unfold Receiver.addConnection, ReceiverEdu.addConnection, ReceiverEdu.onconnect.
    unfold bind. rewrite E. simpl. repeat split; reflexivity.
  - intros ts Hts.
    assert (Hq : quiet (step initial (RunScript CastForEdu))).
    { vm_compute. repeat split; try congruence. repeat constructor. }
    apply (quiet_run ts _ Hq Hts).
Qed.

(** C10.  The variant does not send the state when a connection is
    registered.  After the same two tasks, the script starts and a sender
    connects, receiver.js has sent the state of the slideshow to the new
    connection and the variant has sent nothing, without any exception:
    its [addConnection] has only stored, in [onconnect], the function that
    sends the state, and nothing on the page calls it (the last but one
    line is what a call of it would post).  The [onmessage] handlers of the
    two scripts are the same function. *)
Lemma variant_sends_no_state_on_registration :
  let a := run [RunScript Photowall; new_connection 7] initial in
  let b := run [RunScript CastForEdu; new_connection 7] initial in
  map PresentationConnection.onmessage (connections a) = [Some Photowall] /\
  map PresentationConnection.onmessage (connections b) = [Some CastForEdu] /\
  map PresentationConnection.onconnect (connections b) = [Some CastForEdu] /\
  posted a = [(Some 7%nat, Some "https://sender.example", JSON_stringify (slideshow a))] /\
  posted b = [] /\
  uncaught b = [] /\
  posted a <> posted b /\
  posted (snd (ReceiverEdu.onconnect (Some 0%nat) b)) =
    [(Some 7%nat, Some "https://sender.example", JSON_stringify (slideshow b))] /\
  (forall e w, ReceiverEdu.onmessage e w = Receiver.onmessage e w).
Proof.
  cbv zeta. repeat (split; [vm_compute; try reflexivity; discriminate|]).
  reflexivity.
Qed.

(** ** The theorems at work on concrete pages *)

Lemma state_broadcast_witness :
  let ts := [new_connection 7; new_connection 8; RunScript Photowall] in
  let e := app_event JsonOther in
  let w := run ts initial in
  let w' := step w (WindowMessage e) in
  message_type e = "APP_MESSAGE" /\
  throws (message_data e) = false /\
  connections w' = connections w /\
  uncaught w' = uncaught w /\
  posted w' =
    posted w ++
    concat (replicate (length (listening w))
              (map (post_to (JSON_stringify (slideshow w'))) (connections w'))).
Proof.
  cbv zeta. split; [reflexivity|]. split; [reflexivity|].
  destruct (state_broadcast [new_connection 7; new_connection 8; RunScript Photowall]
              (app_event JsonOther) eq_refl) as (_ & H & _).
  exact (H eq_refl).
Defined.

Lemma three_images_index_ok : index_ok (slideshow three_images).
Proof. vm_compute. repeat split; intros; congruence. Defined.

Lemma three_images_not_empty : images (slideshow three_images) <> [].
Proof. vm_compute. discriminate. Defined.

Lemma showNextImage_loops_witness :
  images (slideshow three_images) <> [] /\
  index_ok (slideshow three_images) /\
  currentImageIndex (slideshow (snd (showNextImage three_images))) =
    (if currentImageIndex (slideshow three_images) + 1 >=? len (images (slideshow three_images))
     then 0 else currentImageIndex (slideshow three_images) + 1) /\
  currentImageIndex (slideshow (showNextImage_times 5 three_images)) =
    (currentImageIndex (slideshow three_images) + Z.of_nat 5)
      mod len (images (slideshow three_images)).
Proof.
  split; [exact three_images_not_empty|]. split; [exact three_images_index_ok|].
  destruct (showNextImage_loops three_images) as (H1 & _ & H3 & _).
  split.
  - apply (H1 three_images_not_empty).
  - apply (H3 three_images_not_empty three_images_index_ok).
Defined.

Lemma currentImageIndex_in_bounds_witness :
  index_ok (slideshow three_images) /\
  (exists b, fst (removeImage 1 three_images) = Normal b) /\
  index_ok (slideshow (snd (removeImage 1 three_images))).
Proof.
  split; [exact three_images_index_ok|].
  destruct currentImageIndex_in_bounds as [H _].
  destruct (H three_images three_images_index_ok) as (_ & Hr & _).
  exact (Hr 1).
Defined.

Lemma removeImage_spec_witness :
  let x := {| id := Some 1; url := "b.jpg"; others := [] |} in
  index_ok (slideshow three_images) /\
  images (slideshow three_images) !! 1%nat = Some x /\
  id_equals x 1 = true /\
  fst (removeImage 1 three_images) = Normal true /\
  images (slideshow (snd (removeImage 1 three_images))) =
    delete 1%nat (images (slideshow three_images)) /\
  currentImageIndex (slideshow (snd (removeImage 1 three_images))) =
    (if Z.of_nat 1 <? currentImageIndex (slideshow three_images)
     then currentImageIndex (slideshow three_images) - 1
     else if Z.of_nat 1 =? currentImageIndex (slideshow three_images)
          then (if currentImageIndex (slideshow three_images) >=?
                   len (images (slideshow three_images)) - 1
                then 0 else currentImageIndex (slideshow three_images))
          else currentImageIndex (slideshow three_images)).
Proof.
  cbv zeta. split; [exact three_images_index_ok|].
  split; [reflexivity|]. split; [reflexivity|].
  destruct (removeImage_spec 1 three_images three_images_index_ok) as [_ H].
  apply (H 1%nat {| id := Some 1; url := "b.jpg"; others := [] |});
    [reflexivity|reflexivity|].
  intros [|j] y Hj Hy; [|lia].
  vm_compute in Hy. injection Hy as <-. reflexivity.
Defined.


Lemma app_message_fan_out_witness :
  let ts := [new_connection 7; new_connection 8; RunScript Photowall] in
  let e := app_event JsonOther in
  let w := run ts initial in
  let w' := step w (WindowMessage e) in
  message_type e = "APP_MESSAGE" /\
  throws (message_data e) = false /\
  delivered w' =
    delivered w ++ map (fun i => (i, new_MessageEvent (message_data e))) (listening w) /\
  uncaught w' = uncaught w.
Proof.
  cbv zeta. split; [reflexivity|]. split; [reflexivity|].
  destruct (app_message_fan_out [new_connection 7; new_connection 8; RunScript Photowall]
              (app_event JsonOther) eq_refl) as (_ & H & _).
  exact (H eq_refl).
Defined.

Lemma preloading_witness :
  1 < len (images (slideshow three_images)) /\
  -1 <= currentImageIndex (slideshow three_images) /\
  (exists next,
     at_index (images (slideshow three_images))
       ((currentImageIndex (slideshow (snd (showNextImage three_images))) + 1)
          mod len (images (slideshow three_images))) = Some next /\
     preloaded (snd (showNextImage three_images)) =
       preloaded three_images ++ [url next]) /\
  preloaded (snd (addImage (image "d.jpg") three_images)) =
    preloaded three_images ++
      (if currentImageIndex (slideshow three_images) + 2 =?
          len (images (slideshow (snd (addImage (image "d.jpg") three_images))))
       then [url (image "d.jpg")] else []) /\
  len (images (slideshow initial)) <= 1 /\
  preloaded (snd (showNextImage initial)) = preloaded initial.
Proof.
  assert (H1 : 1 < len (images (slideshow three_images))) by (vm_compute; reflexivity).
  assert (H2 : -1 <= currentImageIndex (slideshow three_images))
    by (vm_compute; discriminate).
  assert (H3 : len (images (slideshow initial)) <= 1) by (vm_compute; discriminate).
  split; [exact H1|]. split; [exact H2|].
  destruct (preloading three_images) as (Hshow & Hadd & _).
  destruct (preloading initial) as (_ & _ & Hfew).
  split; [exact (Hshow H1 H2)|].
  split; [exact (Hadd (image "d.jpg") three_images_index_ok)|].
  split; [exact H3|]. exact (proj2 (Hfew H3)).
Defined.

Lemma registration_differs_witness :
  let c := connection_of (new_connection_event 7) in
  connections one_connection !! 0%nat = Some c /\
  PresentationConnection.messageSource_ c <> None /\
  posted (snd (Receiver.addConnection (Some 0%nat) one_connection)) =
    posted one_connection ++ [post_to (JSON_stringify (slideshow one_connection)) c] /\
  posted (snd (ReceiverEdu.addConnection (Some 0%nat) one_connection)) =
    posted one_connection /\
  forallb (fun t => negb (is_app_message t)) [new_connection 7; Timeout 1] = true /\
  posted (run (RunScript CastForEdu :: [new_connection 7; Timeout 1]) initial) = [].
Proof.
  cbv zeta.
  assert (Hc : connections one_connection !! 0%nat =
               Some (connection_of (new_connection_event 7))) by reflexivity.
  assert (Hs : PresentationConnection.messageSource_
                 (connection_of (new_connection_event 7)) <> None) by discriminate.
  destruct registration_differs as (_ & Hreg & Hquiet).
  destruct (Hreg one_connection 0%nat _ Hc Hs) as (Ha & Hb & _).
  split; [exact Hc|]. split; [exact Hs|]. split; [exact Ha|]. split; [exact Hb|].
  split; [reflexivity|]. apply Hquiet. reflexivity.
Defined.

(** * Invariants of the page, and the rest of the polyfill *)

(** ** The ids of the images *)

Lemma increasing_from_le lo l : forall hi, increasing_from lo l hi -> lo <= hi.
Proof.
  revert lo. induction l as [|x l IH]; intros lo hi; simpl; [auto|].
  intros (n & _ & Hn & H). apply IH in H. lia.
Qed.

Lemma increasing_from_weaken lo lo' l hi hi' :
  lo' <= lo -> hi <= hi' -> increasing_from lo l hi -> increasing_from lo' l hi'.
Proof.
  revert lo lo'. induction l as [|x l IH]; intros lo lo' Hlo Hhi; simpl; [lia|].
  intros (n & Hx & Hn & H). exists n. split; [exact Hx|]. split; [lia|].
  apply (IH (n + 1)); [lia|exact Hhi|exact H].
Qed.

Lemma increasing_from_snoc lo l hi x :
  increasing_from lo l hi ->
  increasing_from lo (l ++ [set_id (Some hi) x]) (hi + 1).
Proof.
  revert lo. induction l as [|y l IH]; intros lo; simpl.
  - intros H. exists hi. split; [reflexivity|]. split; [exact H|lia].
  - intros (n & Hy & Hn & H). exists n. split; [exact Hy|]. split; [exact Hn|].
    apply IH, H.
Qed.

Lemma increasing_from_delete i : forall lo l hi,
  increasing_from lo l hi -> increasing_from lo (delete i l) hi.
Proof.
  induction i as [|i IH]; intros lo [|x l] hi; simpl; auto.
  - intros (n & _ & Hn & H). apply (increasing_from_weaken (n + 1) lo l hi hi); [lia|lia|exact H].
  - intros (n & Hx & Hn & H). exists n. split; [exact Hx|]. split; [exact Hn|].
    apply IH, H.
Qed.

Lemma increasing_from_lookup i : forall lo l hi x,
  increasing_from lo l hi -> l !! i = Some x ->
  exists n, id x = Some n /\ lo + Z.of_nat i <= n < hi.
Proof.
  induction i as [|i IH]; intros lo [|y l] hi x; simpl; try discriminate.
  - intros (n & Hy & Hn & H) [= <-]. exists n. split; [exact Hy|].
    apply increasing_from_le in H. lia.
  - intros (n & Hy & Hn & H) Hx. destruct (IH _ _ _ _ H Hx) as (m & Hm & Hr).
    exists m. split; [exact Hm|lia].
Qed.

Lemma increasing_from_lt i j : forall lo l hi x y,
  increasing_from lo l hi -> (i < j)%nat -> l !! i = Some x -> l !! j = Some y ->
  exists a b, id x = Some a /\ id y = Some b /\ lo <= a /\ a < b /\ b < hi.
Proof.
  revert j. induction i as [|i IH]; intros [|j] lo [|z l] hi x y; simpl;
    try discriminate; try lia.
  - intros (n & Hz & Hn & H) _ [= <-] Hy.
    destruct (increasing_from_lookup _ _ _ _ _ H Hy) as (b & Hb & Hr).
    exists n, b. repeat split; auto; lia.
  - intros (n & Hz & Hn & H) Hij Hx Hy.
    destruct (IH j (n + 1) l hi x y H) as (a & b & Ha & Hb & Hr); auto; [lia|].
    exists a, b. repeat split; auto; lia.
Qed.

(** Two images of such a list with the same id are at the same place. *)
Lemma increasing_from_unique lo l hi i j x y n :
  increasing_from lo l hi -> l !! i = Some x -> l !! j = Some y ->
  id_equals x n = true -> id_equals y n = true -> i = j.
Proof.
  intros H Hx Hy Ex Ey. unfold id_equals in *.
  destruct (Nat.lt_total i j) as [Hlt|[Heq|Hlt]]; [|exact Heq|].
  - destruct (increasing_from_lt _ _ _ _ _ _ _ H Hlt Hx Hy) as (a & b & Ha & Hb & Hr).
    rewrite Ha in Ex. rewrite Hb in Ey. zb. lia.
  - destruct (increasing_from_lt _ _ _ _ _ _ _ H Hlt Hy Hx) as (a & b & Ha & Hb & Hr).
    rewrite Ha in Ey. rewrite Hb in Ex. zb. lia.
Qed.

(** ** What the page displays, and its timer *)

Lemma tidy_inside w w' : inside w' = inside w -> tidy w -> tidy w'.
Proof.
  unfold inside. intros [= E1 E2 E3 E4 E5 E6] (Hi & Hd & Ht & Hp).
  unfold tidy, ids_ok, display_ok, timer_exact, posted_ok in *.
  rewrite E1, E2, E3, E4, E5, E6. auto.
Qed.

Lemma tidy_shown w :
  timers_ok w -> -1 <= currentImageIndex (slideshow w) -> ids_ok w -> posted_ok w ->
  tidy (shown w).
Proof.
  intros Ht Hc Hi Hp. pose proof (cleared_nil w Ht) as Hcl.
  unfold tidy, ids_ok, display_ok, timer_exact, posted_ok in *. unfold shown.
  destruct (len (images (slideshow w)) =? 0) eqn:E; zb.
  - apply len_nil_iff in E. proj. rewrite E in *. rewrite Hcl.
    split; [exact Hi|]. split.
    + unfold at_index. destruct (_ <? 0); reflexivity.
    + split; [split; [reflexivity|congruence]|exact Hp].
  - assert (Hne : images (slideshow w) <> []) by (rewrite <- len_nil_iff; exact E).
    destruct (at_index_Some (images (slideshow w))
                (wrap (slideshow w) (currentImageIndex (slideshow w) + 1)))
      as [x Hx]; [apply wrap_range; [lia|exact Hne]|].
    proj. rewrite Hx. proj. rewrite Hx, Hcl.
    split; [exact Hi|]. split.
    + eexists. apply last_snoc.
    + split; [|exact Hp]. split; [congruence|]. intros _. eexists. split; reflexivity.
Qed.

Lemma timers_ok_same w w' :
  nextHandle w' = nextHandle w -> nextImageTimeout w' = nextImageTimeout w ->
  timeouts w' = timeouts w -> timers_ok w -> timers_ok w'.
Proof. unfold timers_ok. intros -> -> ->. auto. Qed.

Lemma at_index_app_l {A} (a b : list A) i : i < len a -> at_index (a ++ b) i = at_index a i.
Proof.
  intros H. unfold at_index, len in *. destruct (i <? 0) eqn:E; [reflexivity|].
  zb. apply lookup_app_l. lia.
Qed.

Lemma tidy_added image w :
  index_ok (slideshow w) -> timers_ok w -> tidy w -> tidy (added image w).
Proof.
  intros (H0 & H1 & H2) Ht (Hi & Hd & Hx & Hp). unfold added.
  set (x := set_id (Some (imageSequence w)) image).
  set (s1 := set_images (images (slideshow w) ++ [x]) (slideshow w)).
  set (w1 := set_slideshow s1 (set_imageSequence (imageSequence w + 1) w)).
  set (w2 := if currentImageIndex s1 + 2 =? len (images s1)
             then set_preloaded (preloaded w1 ++ preload_of s1) w1 else w1).
  assert (Hin : inside w2 = inside w1) by (unfold w2; destruct (_ =? _); reflexivity).
  assert (Hids : ids_ok w1).
  { unfold ids_ok, w1, s1, x; proj. apply increasing_from_snoc, Hi. }
  assert (Hlen : len (images s1) = len (images (slideshow w)) + 1).
  { unfold s1, len; proj. rewrite length_app. simpl. lia. }
  destruct (len (images s1) =? 1) eqn:E; zb.
  - apply tidy_shown.
    + apply (timers_ok_same w); try exact Ht;
        unfold w2; destruct (_ =? _); reflexivity.
    + unfold w2; destruct (_ =? _); unfold w1, s1; proj; lia.
    + unfold ids_ok in *. injection Hin as -> -> _ _ _ _. exact Hids.
    + unfold posted_ok in *. injection Hin as _ _ _ _ _ ->. exact Hp.
  - apply (tidy_inside w1); [exact Hin|].
    assert (Hne : images (slideshow w) <> []).
    { rewrite <- len_nil_iff. pose proof (len_nonneg (images (slideshow w))). lia. }
    split; [exact Hids|]. split; [|split].
    + unfold display_ok in *. unfold w1, s1; proj.
      rewrite at_index_app_l; [exact Hd|auto].
    + destruct Hx as [_ Hx]. destruct (Hx Hne) as (h & Hh1 & Hh2).
      unfold timer_exact, w1, s1; proj. split.
      * intros Hnil. apply app_eq_nil in Hnil. destruct Hnil as [_ Hnil]. discriminate.
      * intros _. exists h. split; assumption.
    + exact Hp.
Qed.

Lemma tidy_delayed d w :
  index_ok (slideshow w) -> timers_ok w -> tidy w -> tidy (delayed d w).
Proof.
  intros (H0 & _) Ht (Hi & _ & _ & Hp). unfold delayed. apply tidy_shown.
  - apply (timers_ok_same w); try exact Ht; reflexivity.
  - unfold decremented; proj. lia.
  - exact Hi.
  - exact Hp.
Qed.

Lemma at_index_delete_lt {A} (a : list A) (i : nat) (c : Z) :
  0 <= c < Z.of_nat i -> at_index (delete i a) c = at_index a c.
Proof.
  intros H. unfold at_index. destruct (c <? 0) eqn:E; [reflexivity|].
  zb. apply list_lookup_delete_lt. lia.
Qed.

Lemma at_index_delete_ge {A} (a : list A) (i : nat) (c : Z) :
  Z.of_nat i < c -> at_index (delete i a) (c - 1) = at_index a c.
Proof.
  intros H. unfold at_index.
  destruct (c - 1 <? 0) eqn:E1; zb; [lia|]. destruct (c <? 0) eqn:E2; zb; [lia|].
  rewrite list_lookup_delete_ge by lia. f_equal. lia.
Qed.

Lemma tidy_removed (i : nat) w :
  index_ok (slideshow w) -> timers_ok w -> (i < length (images (slideshow w)))%nat ->
  tidy w -> tidy (removed (Z.of_nat i) w).
Proof.
  intros (H0 & H1 & H2) Ht Hlt (Hi & Hd & Hx & Hp). unfold removed.
  rewrite (splice1_delete _ _ Hlt).
  assert (Hne : images (slideshow w) <> []) by (intros E; rewrite E in Hlt; simpl in Hlt; lia).
  specialize (H1 Hne). unfold len in H1.
  assert (Hdel : ids_ok (set_slideshow (set_images (delete i (images (slideshow w))) (slideshow w)) w)).
  { unfold ids_ok; proj. apply increasing_from_delete, Hi. }
  destruct Hx as [_ Hx]. destruct (Hx Hne) as (h & Hh1 & Hh2).
  pose proof (len_delete _ _ Hlt) as Hlen. unfold len in Hlen.
  proj. destruct (Z.of_nat i <? currentImageIndex (slideshow w)) eqn:E1; zb.
  - unfold decremented at 1 2; proj.
    destruct (Z.of_nat i =? currentImageIndex (slideshow w) - 1) eqn:E2; zb.
    + apply tidy_shown.
      * apply (timers_ok_same w); try exact Ht; reflexivity.
      * unfold decremented; proj. lia.
      * exact Hdel.
      * exact Hp.
    + split; [exact Hdel|]. split; [|split; [|exact Hp]].
      * unfold display_ok in *. unfold decremented; proj.
        rewrite at_index_delete_ge by lia. exact Hd.
      * unfold timer_exact, decremented; proj. split.
        -- intros Hnil. rewrite Hnil in Hlen. simpl in Hlen. lia.
        -- intros _. exists h. split; assumption.
  - proj. destruct (Z.of_nat i =? currentImageIndex (slideshow w)) eqn:E2; zb.
    + apply tidy_shown.
      * apply (timers_ok_same w); try exact Ht; reflexivity.
      * unfold decremented; proj. lia.
      * exact Hdel.
      * exact Hp.
    + split; [exact Hdel|]. split; [|split; [|exact Hp]].
      * unfold display_ok in *; proj.
        rewrite at_index_delete_lt by lia. exact Hd.
      * unfold timer_exact; proj. split.
        -- intros Hnil. rewrite Hnil in Hlen. simpl in Hlen. lia.
        -- intros _. exists h. split; assumption.
Qed.

(** ** Properties every function of the page keeps *)

Lemma guards_ret I {A} (a : A) : guards I (ret a).
Proof. intros w H. exact H. Qed.

Lemma guards_gets I {A} (f : World -> A) : guards I (gets f).
Proof. intros w H. exact H. Qed.

Lemma guards_throw I {A} e : guards I (@throw A e).
Proof. intros w H. exact H. Qed.

Lemma guards_modify (I : World -> Prop) f : (forall w, I w -> I (f w)) -> guards I (modify f).
Proof. intros Hf w H. apply Hf, H. Qed.

Lemma guards_bind I {A B} (m : JS A) (k : A -> JS B) :
  guards I m -> (forall a, guards I (k a)) -> guards I (bind m k).
Proof.
  intros Hm Hk w H. unfold bind. specialize (Hm w H).
  destruct (m w) as [[a|e] w']; simpl in *; [apply Hk, Hm|exact Hm].
Qed.

Lemma guards_when I c m : guards I m -> guards I (when c m).
Proof. intros H. destruct c; [exact H|apply guards_ret]. Qed.

Lemma guards_forIndexes I n i body :
  (forall j, guards I (body j)) -> guards I (forIndexes n i body).
Proof.
  intros Hb. revert i. induction n as [|n IH]; intros i; simpl.
  - apply guards_ret.
  - apply guards_bind; [apply Hb|intros _; apply IH].
Qed.

Ltac guards_tac :=
  repeat match goal with
    | |- guards _ (ret _) => apply guards_ret
    | |- guards _ (gets _) => apply guards_gets
    | |- guards _ (throw _) => apply guards_throw
    | |- guards _ (forIndexes _ _ _) => apply guards_forIndexes; intros ?
    | |- guards _ (when _ _) => apply guards_when
    | |- guards _ (bind _ _) => apply guards_bind; [|intros ?]
    | |- guards _ (match ?x with _ => _ end) => destruct x
    end.

(** A computation that keeps [stable] and does not touch what [tidy] reads
    keeps [neat]. *)
Lemma guards_neat_of {A} (m : JS A) : safe m -> keeps inside m -> guards neat m.
Proof.
  intros Hs Hk w [H1 H2]. split; [apply Hs, H1|].
  apply (tidy_inside w); [apply Hk|exact H2].
Qed.

Lemma guards_neat_addImage image : guards neat (addImage image).
Proof.
  intros w [H1 H2]. pose proof (safe_addImage image w H1) as [Hs _].
  split; [exact Hs|]. destruct H1 as (Hi & Ht & _).
  rewrite (addImage_eq image w Hi). apply tidy_added; assumption.
Qed.

Lemma guards_neat_changeDelay d : guards neat (changeDelay d).
Proof.
  intros w [H1 H2]. pose proof (safe_changeDelay d w H1) as [Hs _].
  split; [exact Hs|]. destruct H1 as (Hi & Ht & _).
  rewrite (changeDelay_eq d w Hi). apply tidy_delayed; assumption.
Qed.

Lemma guards_neat_removeImage n : guards neat (removeImage n).
Proof.
  intros w [H1 H2]. pose proof (safe_removeImage n w H1) as [Hs _].
  split; [exact Hs|]. destruct H1 as (Hi & Ht & _).
  rewrite (removeImage_eq n w Hi).
  destruct (List.find _ _) as [image|] eqn:Hfind; simpl; [|exact H2].
  destruct (find_indexOf _ _ _ Hfind) as (i & Hx & ->).
  apply tidy_removed; auto. apply lookup_lt_is_Some; eauto.
Qed.

Lemma guards_neat_showNextImage : guards neat showNextImage.
Proof.
  intros w [H1 H2]. pose proof (safe_showNextImage w H1) as [Hs _].
  split; [exact Hs|]. destruct H1 as ((Hi & _) & Ht & _).
  rewrite showNextImage_eq by lia. destruct H2 as (Ha & _ & _ & Hp).
  apply tidy_shown; auto. lia.
Qed.

Lemma guards_neat_dispatch m : guards neat (dispatch m).
Proof.
  destruct m as [a d]. unfold dispatch. simpl. revert d.
  destruct (switch_case a) as [[]|]; intros d; simpl.
  - apply guards_neat_addImage.
  - apply guards_bind; [apply guards_neat_removeImage|intros _; apply guards_ret].
  - apply guards_neat_changeDelay.
  - intros w [H1 H2]. split; [apply safe_changeAnimation, H1|exact H2].
  - apply guards_ret.
Qed.

Lemma guards_neat_sendMessage connection : guards neat (sendMessage connection SlideshowObject).
Proof.
  intros w [H1 H2]. split; [apply safe_sendMessage, H1|].
  unfold sendMessage, send. js_unfold.
  destruct connection as [i|]; [|exact H2].
  destruct (connections w !! i) as [c|]; [|exact H2].
  destruct (PresentationConnection.messageSource_ c) as [target|]; [|exact H2].
  destruct H2 as (Ha & Hd & Hx & Hp). split; [exact Ha|]. split; [exact Hd|].
  split; [exact Hx|]. unfold posted_ok in *; proj. apply Forall_app. split; [exact Hp|].
  constructor; [|constructor]. exists (slideshow w). split; [reflexivity|].
  split; [apply H1|]. exists (imageSequence w). exact Ha.
Qed.

Lemma guards_neat_assign connection property f :
  property <> "url" ->
  (forall c, PresentationConnection.messageSource_ (f c) = PresentationConnection.messageSource_ c) ->
  guards neat (assign connection property f).
Proof.
  intros Hp Hf. apply guards_neat_of; [apply safe_assign; assumption|].
  apply keeps_assign. reflexivity.
Qed.

Lemma guards_neat_addConnection script connection :
  guards neat (match script with
               | Photowall => Receiver.addConnection connection
               | CastForEdu => ReceiverEdu.addConnection connection
               end).
Proof.
  destruct script; unfold Receiver.addConnection, ReceiverEdu.addConnection; guards_tac;
    first [ apply guards_neat_sendMessage
          | apply guards_neat_assign; [discriminate|reflexivity] ].
Qed.

Lemma guards_neat_run_job j : job_ok j -> guards neat (run_job j).
Proof.
  destruct j as [[]|[s|]]; simpl; intros Hj;
    unfold Receiver.bootstrap, ReceiverEdu.bootstrap, broadcast_callback.
  - guards_tac.
    + apply (guards_neat_addConnection Photowall).
    + apply guards_neat_of; [apply safe_modify; intros w H; exact H|].
      keeps_tac.
  - guards_tac.
    + apply (guards_neat_addConnection CastForEdu).
    + apply guards_neat_of; [apply safe_modify; intros w H; exact H|].
      keeps_tac.
  - destruct Hj.
  - guards_tac. apply guards_neat_sendMessage.
Qed.

(** *** Callbacks *)

Lemma guards_sound_of {A} (m : JS A) :
  guards neat m -> keeps queue m -> guards sound m.
Proof.
  intros Hn Hk w [H1 (H2 & H3 & H4)]. split; [apply Hn, H1|].
  specialize (Hk w). unfold queue in Hk. injection Hk as E1 E2 E3 E4.
  unfold queue_ok, started. rewrite E1, E2, E3, E4. auto.
Qed.

Lemma guards_sound_then_ job : job_ok job -> guards sound (then_ job).
Proof.
  intros Hj w [H1 (H2 & H3 & H4)]. split.
  - apply guards_neat_of; [apply safe_then_|apply keeps_then_; reflexivity|exact H1].
  - unfold then_, modify, queue_ok, started in *; proj.
    destruct (settled w) eqn:E; proj; rewrite ?E.
    + split; [apply Forall_app; split; [exact H2|constructor; [exact Hj|constructor]]|].
      split; [exact H3|reflexivity].
    + split; [exact H2|].
      split; [apply Forall_app; split; [exact H3|constructor; [exact Hj|constructor]]|].
      exact H4.
Qed.

Lemma queue_outside w w' : outside w' = outside w -> queue w' = queue w.
Proof. intros H. unfold outside in H. unfold queue. injection H; intros; congruence. Qed.

Lemma keeps_queue_dispatch m : keeps queue (dispatch m).
Proof. apply keeps_of_outside; [apply queue_outside|apply keeps_outside_dispatch]. Qed.

Lemma guards_sound_addImage_undefined : guards sound addImage_undefined.
Proof.
  apply guards_sound_of.
  - intros w [H1 H2]. split; [apply safe_addImage_undefined, H1|].
    unfold addImage_undefined, getImageId. js_unfold. proj.
    destruct H2 as (Ha & Hd & Hx & Hp). split; [|split; [exact Hd|split; [exact Hx|exact Hp]]].
    unfold ids_ok in *; proj.
    apply (increasing_from_weaken 0 0 _ (imageSequence w) (imageSequence w + 1));
      [lia|lia|exact Ha].
  - apply keeps_of_outside; [apply queue_outside|].
    unfold addImage_undefined, getImageId. keeps_tac.
Qed.

Lemma guards_sound_switch v : guards sound (switch v).
Proof.
  destruct v as [|m| |]; simpl.
  - apply guards_throw.
  - apply guards_sound_of; [apply guards_neat_dispatch|apply keeps_queue_dispatch].
  - apply guards_sound_addImage_undefined.
  - apply guards_ret.
Qed.

Lemma guards_sound_call_onmessage f e : guards sound (call_onmessage f e).
Proof.
  assert (H : guards sound (Receiver.onmessage e)).
  { destruct e as [d]. unfold Receiver.onmessage.
    apply guards_bind; [destruct d; simpl; guards_tac|intros v].
    apply guards_bind; [apply guards_sound_switch|intros _].
    apply guards_sound_then_. exact I. }
  destruct f; exact H.
Qed.

Lemma guards_sound_listener e : guards sound (Polyfill.listener e).
Proof.
  destruct (String.eqb (message_type e) "NEW_CONNECTION") eqn:E.
  - apply String.eqb_eq in E. intros w H.
    pose proof (safe_listener e w (proj1 (proj1 H))) as [Hst _].
    rewrite (listener_new_connection e w E) in *. cbv zeta in *.
    destruct H as [[Hs Ht] (Hq1 & Hq2 & Hq3)].
    pose proof Hs as (_ & _ & (Hp1 & Hp2 & Hp3 & Hp4) & _).
    destruct (connectionListResolved w) eqn:Hflag.
    + assert (Hw1 : sound (set_connections (connections w ++ [connection_of e]) w)).
      { split; [split; [apply stable_pushed; [exact Hs|congruence]|exact Ht]|].
        split; [exact Hq1|]. split; [exact Hq2|exact Hq3]. }
      destruct (onconnectionavailable w) as [f|] eqn:Hf; [|exact Hw1].
      rewrite call_onconnectionavailable_throws. exact Hw1.
    + split; [split; [exact Hst|]|].
      * unfold resolve, modify; proj. rewrite Hp1. exact Ht.
      * unfold resolve, modify; proj. rewrite Hp1.
        unfold queue_ok, started; proj.
        split; [apply Forall_app; split; assumption|]. split; [constructor|reflexivity].
  - unfold Polyfill.listener, Polyfill.deliver. rewrite E. guards_tac.
    + apply guards_sound_of; [apply guards_neat_of|];
        [apply safe_modify; intros w H; exact H| |]; keeps_tac.
    + apply guards_sound_call_onmessage.
Qed.

Lemma callback_timeout_eq h w :
  -1 <= currentImageIndex (slideshow w) ->
  callback (Timeout h) w =
  (Normal tt,
   if existsb (fun p => fst p =? h) (timeouts w)
   then shown (set_timeouts (List.filter (fun p => negb (fst p =? h)) (timeouts w)) w)
   else w).
Proof.
  intros H. cbn [callback]. unfold clearTimeout. js_unfold.
  destruct (existsb _ _); [|reflexivity].
  rewrite showNextImage_eq by (proj; lia). reflexivity.
Qed.

Lemma guards_sound_callback t : guards sound (callback t).
Proof.
  destruct t as [script|e|h| |].
  - cbn [callback]. guards_tac.
    + apply guards_sound_of; [apply guards_neat_of|];
        [apply safe_modify; intros w H; exact H| |]; keeps_tac.
    + apply guards_sound_then_. exact I.
    + apply guards_sound_then_. exact I.
  - apply guards_sound_listener.
  - intros w H. pose proof (safe_callback (Timeout h) w (proj1 (proj1 H))) as [Hst _].
    destruct H as [[Hs Ht] Hq].
    pose proof Hs as ((Hi & _) & Htm & _).
    rewrite callback_timeout_eq in * by lia. cbn [snd] in *.
    destruct (existsb _ _); [|split; [split|]; assumption].
    split; [split; [exact Hst|]|].
    + destruct Ht as (Ha & _ & _ & Hp). apply tidy_shown.
      * apply timers_ok_expired, Htm.
      * proj. lia.
      * exact Ha.
      * exact Hp.
    + destruct Hq as (Hq1 & Hq2 & Hq3). pose proof (outside_shown
        (set_timeouts (List.filter (fun p => negb (fst p =? h)) (timeouts w)) w)) as Ho.
      apply queue_outside in Ho. unfold queue in Ho. proj. injection Ho as E1 E2 E3 E4.
      unfold queue_ok, started. rewrite E1, E2, E3, E4. auto.
  - intros w [[Hs (Ha & Hd & Hx & Hp)] Hq]. cbn [callback]. unfold onAnimationEnd, modify; proj.
    split; [split; [exact Hs|]|exact Hq].
    split; [exact Ha|]. split; [|split; assumption].
    unfold display_ok in *; proj.
    destruct (at_index _ _) as [x|].
    + destruct Hd as [c Hd]. rewrite Hd. exists c. reflexivity.
    + rewrite Hd. reflexivity.
  - cbn [callback]. apply guards_throw.
Qed.

(** *** The two methods *)

Lemma set_state_source v c :
  PresentationConnection.messageSource_ (set_state v c) = PresentationConnection.messageSource_ c.
Proof. reflexivity. Qed.

Lemma safe_call_method c : safe (call_method c).
Proof.
  destruct c as [i|i]; simpl; unfold close, terminate;
    (apply safe_bind; [|intros _; apply safe_ret]);
    (apply safe_bind; [apply safe_gets|intros [c|]]; [|apply safe_throw; discriminate]).
  - destruct (negb _); [|apply safe_ret].
    apply safe_bind; [|intros _; apply safe_ret].
    apply safe_assign; [discriminate|apply set_state_source].
  - apply safe_bind; [|intros _; apply safe_ret].
    apply safe_assign; [discriminate|apply set_state_source].
Qed.

Lemma keeps_call_method {X} (f : World -> X) c :
  (forall v w, f (set_connections v w) = f w) -> keeps f (call_method c).
Proof.
  intros H. destruct c as [i|i]; simpl; unfold close, terminate; keeps_tac;
    apply keeps_assign, H.
Qed.

Lemma guards_sound_call_method c : guards sound (call_method c).
Proof.
  apply guards_sound_of; [apply guards_neat_of|];
    [apply safe_call_method| |]; apply keeps_call_method; reflexivity.
Qed.

(** *** Tasks and runs *)

Lemma neat_perform m w : safe m -> guards neat m -> neat w -> neat (perform m w).
Proof.
  intros Hs Hg H. split; [apply stable_perform; [exact Hs|apply H]|].
  specialize (Hg w H). unfold perform.
  destruct (m w) as [[[]|e] w']; simpl in *; apply Hg.
Qed.

Lemma sound_perform m w : safe m -> guards sound m -> sound w -> sound (perform m w).
Proof.
  intros Hs Hg H. split; [split; [apply stable_perform; [exact Hs|apply H]|]|];
    specialize (Hg w H); unfold perform;
    destruct (m w) as [[[]|e] w']; simpl in *; apply Hg.
Qed.

Lemma neat_jobs js : forall w,
  Forall job_ok js -> neat w -> neat (fold_left (fun w j => perform (run_job j) w) js w).
Proof.
  induction js as [|j js IH]; intros w Hjs H; simpl; [exact H|].
  inversion Hjs as [|? ? Hj Hjs']; subst. apply IH; [exact Hjs'|].
  apply neat_perform; [apply safe_run_job|apply guards_neat_run_job, Hj|exact H].
Qed.

Lemma sound_drain w : sound w -> sound (drain w) /\ microtasks (drain w) = [].
Proof.
  intros [[Hs Ht] (Hq1 & Hq2 & Hq3)].
  pose proof (idle_drain w Hs) as [_ Hm]. split; [|exact Hm]. split.
  - unfold drain. apply neat_jobs; [exact Hq1|]. split; [exact Hs|exact Ht].
  - unfold queue_ok, started. rewrite Hm.
    rewrite (keeps_drain reactions); try reflexivity.
    2:{ intros j. apply keeps_run_job; reflexivity. }
    rewrite (keeps_drain settled); try reflexivity.
    2:{ intros j. apply keeps_run_job; reflexivity. }
    split; [constructor|]. split; [exact Hq2|].
    destruct (microtasks w) as [|j js] eqn:E.
    + unfold drain. rewrite E. simpl. intros [H|H]; [|destruct H; reflexivity].
      apply Hq3. left. exact H.
    + intros _. apply Hq3. right. rewrite E. discriminate.
Qed.

Lemma sound_happen w h : sound w -> sound (happen w h) /\ microtasks (happen w h) = [].
Proof.
  intros H. destruct h as [t|c]; simpl; unfold step; apply sound_drain, sound_perform;
    first [ exact H | apply safe_callback | apply guards_sound_callback
          | apply safe_call_method | apply guards_sound_call_method ].
Qed.

Lemma sound_initial : sound initial.
Proof.
  split; [split; [apply idle_initial|]|].
  - unfold tidy, ids_ok, display_ok, timer_exact, posted_ok. simpl.
    split; [lia|]. split; [reflexivity|]. split; [split; [reflexivity|congruence]|constructor].
  - unfold queue_ok, started. simpl. split; [constructor|]. split; [constructor|].
    intros [H|H]; destruct H; reflexivity.
Qed.

Lemma play_app hs1 hs2 w : play (hs1 ++ hs2) w = play hs2 (play hs1 w).
Proof. unfold play. apply fold_left_app. Qed.

Lemma sound_play hs : sound (play hs initial) /\ microtasks (play hs initial) = [].
Proof.
  induction hs as [|h hs IH] using rev_ind; [split; [apply sound_initial|reflexivity]|].
  rewrite play_app. simpl. apply sound_happen, IH.
Qed.

Lemma run_play ts : forall w, run ts w = play (map OfTask ts) w.
Proof. induction ts as [|t ts IH]; intros w; simpl; [reflexivity|apply IH]. Qed.

Lemma sound_run ts : sound (run ts initial) /\ microtasks (run ts initial) = [].
Proof. rewrite run_play. apply sound_play. Qed.

Lemma added_images image w :
  images (slideshow (added image w)) =
    images (slideshow w) ++ [set_id (Some (imageSequence w)) image] /\
  imageSequence (added image w) = imageSequence w + 1.
Proof.
  unfold added.
  set (s1 := set_images _ _). set (w1 := set_slideshow s1 _).
  set (w2 := if _ =? _ then _ else w1).
  assert (H2 : slideshow w2 = s1 /\ imageSequence w2 = imageSequence w + 1)
    by (unfold w2; destruct (_ =? _); split; reflexivity).
  destruct H2 as [H2 H3].
  destruct (len (images s1) =? 1).
  - rewrite images_shown, H2. split; [reflexivity|].
    pose proof (outside_shown w2) as _. unfold shown.
    destruct (len _ =? 0); [exact H3|]. destruct (at_index _ _); exact H3.
  - rewrite H2. split; [reflexivity|exact H3].
Qed.

Lemma timeouts_shown w :
  timers_ok w -> -1 <= currentImageIndex (slideshow w) -> images (slideshow w) <> [] ->
  timeouts (shown w) = [(nextHandle w, delay (slideshow w))] /\
  nextImageTimeout (shown w) = Some (nextHandle w).
Proof.
  intros Ht Hc Hne. pose proof (cleared_nil w Ht) as Hcl. unfold shown.
  destruct (len (images (slideshow w)) =? 0) eqn:E; zb.
  - apply len_nil_iff in E. contradiction.
  - destruct (at_index_Some (images (slideshow w))
                (wrap (slideshow w) (currentImageIndex (slideshow w) + 1)))
      as [x Hx]; [apply wrap_range; [lia|exact Hne]|].
    proj. rewrite Hx. proj. rewrite Hcl. split; reflexivity.
Qed.

(** X1.  The ids of the images.  On every page reachable from the initial
    one, every image of the slideshow has an id, a number that
    [getImageId] has given out (at least 0 and below [imageSequence]);
    along the list the ids strictly increase, so no two images share an
    id, also after removals.  [addImage] appends the new image with the id
    [imageSequence], which no image of the list has, and increments
    [imageSequence]. *)
Theorem image_ids_distinct (ts : list Task) :
  let w := run ts initial in
  let l := images (slideshow w) in
  (forall (i : nat) x, l !! i = Some x ->
     exists n, id x = Some n /\ 0 <= n < imageSequence w) /\
  (forall (i j : nat) x y, (i < j)%nat -> l !! i = Some x -> l !! j = Some y ->
     exists a b, id x = Some a /\ id y = Some b /\ a < b) /\
  (forall image,
     let w' := snd (addImage image w) in
     images (slideshow w') = l ++ [set_id (Some (imageSequence w)) image] /\
     imageSequence w' = imageSequence w + 1 /\
     forall x, In x l -> id_equals x (imageSequence w) = false).
Proof.
  cbv zeta. destruct (sound_run ts) as [[[Hs (Ha & _)] _] _].
  split; [|split].
  - intros i x Hx. destruct (increasing_from_lookup _ _ _ _ _ Ha Hx) as (n & Hn & Hr).
    exists n. split; [exact Hn|lia].
  - intros i j x y Hij Hx Hy.
    destruct (increasing_from_lt _ _ _ _ _ _ _ Ha Hij Hx Hy) as (a & b & Hxa & Hyb & Hr).
    exists a, b. split; [exact Hxa|]. split; [exact Hyb|lia].
  - intros image. rewrite addImage_eq by apply Hs. cbn [snd].
    destruct (added_images image (run ts initial)) as [-> ->].
    split; [reflexivity|]. split; [reflexivity|].
    intros x Hin. apply list_elem_of_In, list_elem_of_lookup in Hin. destruct Hin as [i Hx].
    destruct (increasing_from_lookup _ _ _ _ _ Ha Hx) as (n & Hn & Hr).
    unfold id_equals. rewrite Hn. apply Z.eqb_neq. lia.
Qed.

(** X2.  What the page displays.  On every page reachable from the initial
    one, [#slideshow] has no child when the slideshow has no image, and
    otherwise its last child is an [img] whose [src] is the url of the
    image at [currentImageIndex]; once the animation of that image has
    ended ([webkitAnimationEnd]) it is the only child. *)
Theorem display_shows_current_image (ts : list Task) :
  let w := run ts initial in
  let s := slideshow w in
  (images s = [] -> childNodes w = []) /\
  (images s <> [] ->
     exists current c,
       at_index (images s) (currentImageIndex s) = Some current /\
       last (childNodes w) = Some {| src := url current; className := c |} /\
       childNodes (step w AnimationEnd) = [{| src := url current; className := c |}]).
Proof.
  cbv zeta. destruct (sound_run ts) as [[[Hs (_ & Hd & _)] _] Hm].
  destruct Hs as ((H0 & H1 & H2) & _). unfold display_ok in Hd. split.
  - intros E. rewrite E in Hd. unfold at_index in Hd.
    destruct (_ <? 0); exact Hd.
  - intros Hne. specialize (H1 Hne).
    destruct (at_index_Some (images (slideshow (run ts initial)))
                (currentImageIndex (slideshow (run ts initial)))) as [x Hx]; [lia|].
    rewrite Hx in Hd. destruct Hd as [c Hc]. exists x, c.
    split; [exact Hx|]. split; [exact Hc|].
    unfold step. rewrite (keeps_drain childNodes); try reflexivity.
    2:{ intros j. apply keeps_run_job; reflexivity. }
    unfold perform. cbn [callback]. unfold onAnimationEnd, modify. proj.
    rewrite Hc. reflexivity.
Qed.

(** X3.  The timer of the slideshow.  On every page reachable from the
    initial one, no timeout is pending when the slideshow has no image;
    when it has images exactly one timeout is pending, the one
    [nextImageTimeout] names, with the current delay, and when it expires
    the next image in cyclic order is on show and one timeout is pending
    again: a slideshow with images never stops. *)
Theorem slideshow_timer_runs (ts : list Task) :
  let w := run ts initial in
  let s := slideshow w in
  (images s = [] -> timeouts w = []) /\
  (images s <> [] ->
     exists h,
       timeouts w = [(h, delay s)] /\ nextImageTimeout w = Some h /\
       let w' := step w (Timeout h) in
       images (slideshow w') = images s /\
       currentImageIndex (slideshow w') = (currentImageIndex s + 1) mod len (images s) /\
       timeouts w' = [(nextHandle w, delay s)] /\
       nextImageTimeout w' = Some (nextHandle w)).
Proof.
  cbv zeta. destruct (sound_run ts) as [[[Hs (_ & _ & Hx & _)] _] Hm].
  destruct Hx as [Hx1 Hx2]. split; [exact Hx1|]. intros Hne.
  destruct (Hx2 Hne) as (h & Hh1 & Hh2). exists h. split; [exact Hh1|]. split; [exact Hh2|].
  destruct Hs as ((H0 & H1 & H2) & Ht & _). specialize (H1 Hne).
  set (w := run ts initial) in *.
  assert (Hstep : forall X (f : World -> X),
            (forall v w, f (set_uncaught v w) = f w) ->
            (forall v w, f (set_microtasks v w) = f w) ->
            (forall j, keeps f (run_job j)) ->
            f (step w (Timeout h)) =
            f (shown (set_timeouts (List.filter (fun p => negb (fst p =? h)) (timeouts w)) w))).
  { intros X f F1 F2 F3. unfold step. rewrite (keeps_drain f); auto.
    unfold perform. rewrite callback_timeout_eq by lia.
    rewrite Hh1. simpl. rewrite Z.eqb_refl. reflexivity. }
  set (w1 := set_timeouts _ w) in Hstep.
  assert (Ht1 : timers_ok w1) by apply timers_ok_expired, Ht.
  destruct (timeouts_shown w1) as [E1 E2]; [exact Ht1|unfold w1; proj; lia|exact Hne|].
  rewrite (Hstep _ (fun w => images (slideshow w))), (Hstep _ (fun w => currentImageIndex (slideshow w))),
    (Hstep _ timeouts), (Hstep _ nextImageTimeout); try reflexivity;
    try (intros j; apply keeps_run_job; reflexivity).
  rewrite images_shown, currentImageIndex_shown, E1, E2.
  split; [reflexivity|]. split; [|split; reflexivity].
  apply wrap_mod; [exact Hne|]. unfold w1; proj. lia.
Qed.

(** X4.  What the receiver sends.  Every message the page has posted, on
    any run from the initial page, is the JSON text of a slideshow state
    in which [currentImageIndex] is within the images (0 when there is
    none) and the images carry strictly increasing ids: the receiver sends
    nothing else, and no state caught in the middle of an update. *)
Theorem posted_messages_are_states (ts : list Task) (p : Posted) :
  In p (posted (run ts initial)) ->
  exists o,
    snd p = JSON_stringify o /\ index_ok o /\
    (forall (i j : nat) x y, (i < j)%nat -> images o !! i = Some x -> images o !! j = Some y ->
       exists a b, id x = Some a /\ id y = Some b /\ a < b).
Proof.
  intros Hin. destruct (sound_run ts) as [[[_ (_ & _ & _ & Hp)] _] _].
  unfold posted_ok in Hp. rewrite List.Forall_forall in Hp.
  destruct (Hp p Hin) as (o & Ho & Hi & hi & Ha).
  exists o. split; [exact Ho|]. split; [exact Hi|].
  intros i j x y Hij Hx Hy.
  destruct (increasing_from_lt _ _ _ _ _ _ _ Ha Hij Hx Hy) as (a & b & Hxa & Hyb & Hr).
  exists a, b. split; [exact Hxa|]. split; [exact Hyb|lia].
Qed.

Lemma index_ok_removeImage n w :
  index_ok (slideshow w) -> index_ok (slideshow (snd (removeImage n w))).
Proof.
  intros Hi. rewrite (removeImage_eq n w Hi).
  destruct (List.find _ _) as [image|] eqn:Hfind; simpl; [|exact Hi].
  destruct (find_indexOf _ _ _ Hfind) as (i & Hx & ->).
  apply index_ok_removed; [exact Hi|]. apply lookup_lt_is_Some; eauto.
Qed.

(** X5.  [removeImage] and the ids.  When the images carry increasing ids
    (as on every reachable page), after [removeImage(id)] no image of the
    slideshow has that id, whether one was removed or not: a second
    [removeImage(id)] finds nothing, returns [false] and leaves the page as
    it is. *)
Theorem removeImage_twice (n : Z) (w : World) :
  index_ok (slideshow w) -> ids_ok w ->
  let w' := snd (removeImage n w) in
  (forall x, In x (images (slideshow w')) -> id_equals x n = false) /\
  removeImage n w' = (Normal false, w').
Proof.
  intros Hi Ha. cbv zeta.
  assert (Hnone : forall x, In x (images (slideshow (snd (removeImage n w)))) ->
                            id_equals x n = false).
  { rewrite (removeImage_eq n w Hi).
    destruct (List.find _ _) as [image|] eqn:Hfind; cbn [snd].
    - destruct (find_first_index _ _ _ Hfind) as (i & Hx & Hp & Hfirst).
      rewrite (indexOf_first _ _ i Hx).
      2:{ intros j y Hj Hy ->. rewrite (Hfirst j image Hj Hy) in Hp. discriminate. }
      assert (Hlt : (i < length (images (slideshow w)))%nat)
        by (apply lookup_lt_is_Some; eauto).
      destruct (removed_slideshow i w Hi Hlt) as [-> _].
      intros x Hin. apply list_elem_of_In, list_elem_of_lookup in Hin. destruct Hin as [j Hj].
      destruct (id_equals x n) eqn:Ex; [exfalso|reflexivity].
      destruct (Nat.lt_ge_cases j i) as [Hji|Hji].
      + rewrite list_lookup_delete_lt in Hj by exact Hji.
        pose proof (increasing_from_unique _ _ _ _ _ _ _ _ Ha Hj Hx Ex Hp). lia.
      + rewrite list_lookup_delete_ge in Hj by exact Hji.
        pose proof (increasing_from_unique _ _ _ _ _ _ _ _ Ha Hj Hx Ex Hp). lia.
    - intros x Hin. apply (List.find_none _ _ Hfind), Hin. }
  split; [exact Hnone|].
  rewrite removeImage_eq by apply index_ok_removeImage, Hi.
  rewrite find_nowhere; [reflexivity|exact Hnone].
Qed.

Lemma slideshow_ext (s s' : Slideshow) :
  images s = images s' -> delay s = delay s' -> animation s = animation s' ->
  currentImageIndex s = currentImageIndex s' -> s = s'.
Proof. destruct s, s'; simpl; intros -> -> -> ->; reflexivity. Qed.

Lemma delay_animation_shown w :
  delay (slideshow (shown w)) = delay (slideshow w) /\
  animation (slideshow (shown w)) = animation (slideshow w).
Proof.
  unfold shown. destruct (len _ =? 0); [|destruct (at_index _ _)]; split; reflexivity.
Qed.

Lemma delay_animation_removed i w :
  delay (slideshow (removed i w)) = delay (slideshow w) /\
  animation (slideshow (removed i w)) = animation (slideshow w).
Proof.
  unfold removed, decremented. proj.
  destruct (i <? _); proj; (destruct (i =? _); [|split; reflexivity]);
    match goal with
    | |- context [shown ?v] => destruct (delay_animation_shown v) as [-> ->]
    end; split; reflexivity.
Qed.

(** [addImage] leaves [currentImageIndex] where it is. *)
Lemma added_slideshow image w :
  index_ok (slideshow w) ->
  slideshow (added image w) =
    set_images (images (slideshow w) ++ [set_id (Some (imageSequence w)) image]) (slideshow w).
Proof.
  intros (H0 & H1 & H2). destruct (added_images image w) as [Him _].
  apply slideshow_ext; [exact Him| | |]; unfold added;
    set (s1 := set_images _ _); set (w1 := set_slideshow s1 _);
    set (w2 := if _ =? _ then _ else w1);
    assert (E2 : slideshow w2 = s1) by (unfold w2; destruct (_ =? _); reflexivity).
  - destruct (len (images s1) =? 1); [|rewrite E2; reflexivity].
    destruct (delay_animation_shown w2) as [-> _]. rewrite E2. reflexivity.
  - destruct (len (images s1) =? 1); [|rewrite E2; reflexivity].
    destruct (delay_animation_shown w2) as [_ ->]. rewrite E2. reflexivity.
  - destruct (len (images s1) =? 1) eqn:E; [|rewrite E2; reflexivity].
    rewrite currentImageIndex_shown, E2. zb. unfold wrap. rewrite E.
    assert (Hlen : len (images s1) = len (images (slideshow w)) + 1).
    { unfold s1, len; proj. rewrite length_app. simpl. lia. }
    assert (Hnil : images (slideshow w) = []) by (apply len_nil_iff; lia).
    unfold s1; proj. rewrite (H2 Hnil). reflexivity.
Qed.

Lemma delete_last {A} (l : list A) x : delete (length l) (l ++ [x]) = l.
Proof. induction l as [|y l IH]; simpl; [reflexivity|]. f_equal. exact IH. Qed.

(** X6.  [addImage] then [removeImage].  When [currentImageIndex] is within
    the images and the images carry increasing ids below [imageSequence]
    (as on every reachable page), removing the image that [addImage] has
    just added, by the id it was given, succeeds and gives back the
    slideshow state as it was: same images, delay, animation and
    [currentImageIndex].  [imageSequence] stays incremented: the id is not
    given again. *)
Theorem addImage_removeImage_round_trip (image : Image) (w : World) :
  index_ok (slideshow w) -> ids_ok w ->
  let w1 := snd (addImage image w) in
  let w2 := snd (removeImage (imageSequence w) w1) in
  fst (removeImage (imageSequence w) w1) = Normal true /\
  slideshow w2 = slideshow w /\
  imageSequence w2 = imageSequence w + 1.
Proof.
  intros Hi Ha. cbv zeta. rewrite (addImage_eq image w Hi). cbn [snd].
  destruct (added_images image w) as [Him Hseq].
  pose proof (added_slideshow image w Hi) as Hs1.
  pose proof (index_ok_added image w Hi) as Hi1.
  rewrite (removeImage_eq _ _ Hi1). rewrite Him.
  set (x := set_id (Some (imageSequence w)) image) in *.
  set (l := images (slideshow w)) in *.
  assert (Hx : (l ++ [x]) !! length l = Some x) by apply list_lookup_middle, eq_refl.
  assert (Hfind : List.find (fun y => id_equals y (imageSequence w)) (l ++ [x]) = Some x).
  { apply (find_by_position _ _ (length l)); [exact Hx|unfold x, id_equals; simpl; apply Z.eqb_refl|].
    intros j y Hj Hy. rewrite lookup_app_l in Hy by exact Hj.
    destruct (increasing_from_lookup _ _ _ _ _ Ha Hy) as (m & Hm & Hr).
    unfold id_equals. rewrite Hm. apply Z.eqb_neq. lia. }
  rewrite Hfind. cbn [fst snd]. split; [reflexivity|].
  rewrite (indexOf_first _ _ (length l) Hx).
  2:{ intros j y Hj Hy ->. rewrite lookup_app_l in Hy by exact Hj.
      destruct (increasing_from_lookup _ _ _ _ _ Ha Hy) as (m & Hm & Hr).
      unfold x in Hm. simpl in Hm. injection Hm as <-. lia. }
  assert (Hlt : (length l < length (images (slideshow (added image w))))%nat)
    by (rewrite Him, length_app; simpl; lia).
  destruct (removed_slideshow (length l) _ Hi1 Hlt) as [Eim Ecur].
  destruct (delay_animation_removed (Z.of_nat (length l)) (added image w)) as [Ed Ea].
  split.
  - apply slideshow_ext.
    + rewrite Eim, Him. apply delete_last.
    + rewrite Ed, Hs1. reflexivity.
    + rewrite Ea, Hs1. reflexivity.
    + rewrite Ecur, Hs1. proj. destruct Hi as (H0 & H1 & H2).
      unfold index_after_removal, len. rewrite length_app. simpl. fold l in H1, H2.
      destruct l as [|y l'] eqn:El.
      * rewrite H2 by reflexivity. reflexivity.
      * assert (Hc : currentImageIndex (slideshow w) < len (y :: l')) by (apply H1; discriminate).
        unfold len in Hc. simpl length in *.
        destruct (_ <? _) eqn:E1; zb; [lia|]. destruct (_ =? _) eqn:E2; zb; [lia|]. reflexivity.
  - unfold removed, decremented. proj.
    destruct (_ <? _); proj; (destruct (_ =? _); [|exact Hseq]);
      rewrite <- Hseq; unfold shown; proj;
      (destruct (len _ =? 0); [reflexivity|]); destruct (at_index _ _); reflexivity.
Qed.

Lemma childNodes_shown w :
  -1 <= currentImageIndex (slideshow w) -> images (slideshow w) <> [] ->
  exists current,
    at_index (images (slideshow w))
      (wrap (slideshow w) (currentImageIndex (slideshow w) + 1)) = Some current /\
    childNodes (shown w) =
      childNodes w ++ [{| src := url current;
                          className := String.append "animated " (animation (slideshow w)) |}].
Proof.
  intros Hc Hne.
  destruct (at_index_Some (images (slideshow w))
              (wrap (slideshow w) (currentImageIndex (slideshow w) + 1)))
    as [x Hx]; [apply wrap_range; [lia|exact Hne]|].
  exists x. split; [exact Hx|]. unfold shown.
  destruct (len (images (slideshow w)) =? 0) eqn:E; zb.
  - apply len_nil_iff in E. contradiction.
  - proj. rewrite Hx. reflexivity.
Qed.

Lemma shown_empty w :
  timers_ok w -> images (slideshow w) = [] ->
  childNodes (shown w) = [] /\ timeouts (shown w) = [].
Proof.
  intros Ht E. pose proof (cleared_nil w Ht) as Hcl. unfold shown.
  rewrite E. simpl. rewrite Hcl. split; reflexivity.
Qed.

(** X7.  [changeDelay].  When [currentImageIndex] is within the images and
    at most the timeout of [nextImageTimeout] is pending (as on every
    reachable page), [changeDelay(d)] changes only [delay] in the
    slideshow state: [currentImageIndex] ends where it was.  With images,
    the current image is appended to [#slideshow] once more and the one
    pending timeout is replaced by a new one with the delay [d]; without
    images, nothing is shown and no timeout is started. *)
Theorem changeDelay_restarts_current (d : Z) (w : World) :
  index_ok (slideshow w) -> timers_ok w ->
  let s := slideshow w in
  let w' := snd (changeDelay d w) in
  slideshow w' = set_delay d s /\
  (images s = [] -> childNodes w' = [] /\ timeouts w' = []) /\
  (images s <> [] ->
     exists current,
       at_index (images s) (currentImageIndex s) = Some current /\
       childNodes w' =
         childNodes w ++ [{| src := url current;
                             className := String.append "animated " (animation s) |}] /\
       timeouts w' = [(nextHandle w, d)] /\
       nextImageTimeout w' = Some (nextHandle w)).
Proof.
  intros Hi Ht. cbv zeta. rewrite (changeDelay_eq d w Hi). cbn [snd]. unfold delayed.
  set (w0 := decremented (set_slideshow (set_delay d (slideshow w)) w)).
  destruct Hi as (H0 & H1 & H2).
  assert (Hc0 : currentImageIndex (slideshow w0) = currentImageIndex (slideshow w) - 1)
    by reflexivity.
  assert (Ht0 : timers_ok w0) by (apply (timers_ok_same w); try exact Ht; reflexivity).
  assert (Hwrap : wrap (slideshow w0) (currentImageIndex (slideshow w0) + 1) =
                  currentImageIndex (slideshow w)).
  { rewrite Hc0. replace (currentImageIndex (slideshow w) - 1 + 1)
      with (currentImageIndex (slideshow w)) by lia.
    unfold wrap, w0, decremented; proj.
    destruct (_ >=? _) eqn:E; zb; [|reflexivity].
    destruct (images (slideshow w)) as [|x l] eqn:El; [symmetry; apply H2; reflexivity|].
    assert (currentImageIndex (slideshow w) < len (x :: l)) by (apply H1; discriminate). lia. }
  split; [|split].
  - destruct (delay_animation_shown w0) as [Ed Ea].
    apply slideshow_ext; [rewrite images_shown; reflexivity|rewrite Ed; reflexivity
                         |rewrite Ea; reflexivity|].
    rewrite currentImageIndex_shown, Hwrap. reflexivity.
  - intros E. apply shown_empty; [exact Ht0|exact E].
  - intros Hne.
    destruct (childNodes_shown w0) as (x & Hx & Hch); [rewrite Hc0; lia|exact Hne|].
    rewrite Hwrap in Hx. exists x. split; [exact Hx|]. split; [exact Hch|].
    apply (timeouts_shown w0); [exact Ht0|rewrite Hc0; lia|exact Hne].
Qed.

(** X8.  [changeAnimation].  It changes only [animation] in the slideshow
    state and touches nothing of the page: the image on show keeps the
    class it has, no timeout is touched.  The new animation is the class
    of the next image that [showNextImage] shows. *)
Theorem changeAnimation_applies_to_next_image (a : string) (w : World) :
  -1 <= currentImageIndex (slideshow w) -> images (slideshow w) <> [] ->
  let w1 := snd (changeAnimation a w) in
  slideshow w1 = set_animation a (slideshow w) /\
  childNodes w1 = childNodes w /\ timeouts w1 = timeouts w /\
  nextImageTimeout w1 = nextImageTimeout w /\
  exists next,
    at_index (images (slideshow w))
      (currentImageIndex (slideshow (snd (showNextImage w1)))) = Some next /\
    childNodes (snd (showNextImage w1)) =
      childNodes w ++ [{| src := url next; className := String.append "animated " a |}].
Proof.
  intros Hc Hne. cbv zeta. unfold changeAnimation. js_unfold. proj.
  split; [reflexivity|]. split; [reflexivity|]. split; [reflexivity|]. split; [reflexivity|].
  set (w1 := set_slideshow (set_animation a (slideshow w)) w).
  rewrite showNextImage_eq by exact Hc.
  destruct (childNodes_shown w1) as (x & Hx & Hch); [exact Hc|exact Hne|].
  exists x. cbn [snd]. rewrite currentImageIndex_shown. split; [exact Hx|exact Hch].
Qed.

(** ** The start-up callback of the receiver script *)

Lemma set_posted_connections_eta w :
  set_posted (posted w) (set_connections (connections w) w) = w.
Proof. destruct w; reflexivity. Qed.

Lemma addConnection_eq script i c w :
  connections w !! i = Some c -> PresentationConnection.messageSource_ c <> None ->
  match script with
  | Photowall => Receiver.addConnection (Some i)
  | CastForEdu => ReceiverEdu.addConnection (Some i)
  end w =
  (Normal tt,
   set_posted (posted w ++ welcome script w [c])
     (set_connections (alter (registered script) i (connections w)) w)).
Proof.
  intros Hc Hsrc.
  destruct (PresentationConnection.messageSource_ c) as [target|] eqn:Ht; [|congruence].
  destruct script; unfold Receiver.addConnection, ReceiverEdu.addConnection,
    sendMessage, send, assign; js_unfold; proj.
  - rewrite Hc, Ht. unfold welcome, post_to. simpl. rewrite Ht. reflexivity.
  - unfold welcome. rewrite app_nil_r. rewrite list_alter_alter_eq. reflexivity.
Qed.

Lemma bootstrap_loop script n : forall i w,
  Forall (fun c => PresentationConnection.messageSource_ c <> None) (connections w) ->
  (i + n <= length (connections w))%nat ->
  forIndexes n i (fun i => match script with
                           | Photowall => Receiver.addConnection (Some i)
                           | CastForEdu => ReceiverEdu.addConnection (Some i)
                           end) w =
  (Normal tt,
   set_posted (posted w ++ welcome script w (take n (drop i (connections w))))
     (set_connections
        (take i (connections w) ++
         map (registered script) (take n (drop i (connections w))) ++
         drop (i + n) (connections w)) w)).
Proof.
  induction n as [|n IH]; intros i w Hsrc Hlen.
  - simpl. rewrite Nat.add_0_r, take_drop.
    replace (welcome script w (take 0 (drop i (connections w)))) with (@nil Posted)
      by (destruct script; reflexivity).
    rewrite app_nil_r, set_posted_connections_eta. reflexivity.
  - cbn [forIndexes]. unfold bind at 1.
    destruct (connections w !! i) as [c|] eqn:Hc.
    2:{ apply lookup_ge_None in Hc. lia. }
    pose proof (Forall_lookup_1 _ _ _ _ Hsrc Hc) as Hin. simpl in Hin.
    rewrite (addConnection_eq script i c w Hc Hin).
    rewrite IH; proj.
    2:{ apply Forall_alter; [exact Hsrc|]. intros x _ Hx. destruct script; exact Hx. }
    2:{ rewrite length_alter. lia. }
    assert (Hi : (i < length (connections w))%nat) by lia.
    assert (E1 : take (S i) (alter (registered script) i (connections w)) =
                 take i (connections w) ++ [registered script c]).
    { rewrite (take_S_r _ _ (registered script c)).
      - rewrite take_alter_ge by lia. reflexivity.
      - rewrite list_lookup_alter_eq, Hc. reflexivity. }
    assert (E2 : forall k, (i < k)%nat ->
                 drop k (alter (registered script) i (connections w)) = drop k (connections w)).
    { intros k Hk. apply drop_alter_lt. exact Hk. }
    rewrite E1, !E2 by lia. rewrite (drop_S _ _ _ Hc). cbn [take map].
    replace (S i + n)%nat with (i + S n)%nat by lia.
    apply f_equal. unfold set_posted, set_connections; proj. f_equal.
    + rewrite <- app_assoc. reflexivity.
    + destruct script; unfold welcome; proj; cbn [map];
        rewrite <- ?app_assoc; reflexivity.
Qed.

Lemma bootstrap_eq script w :
  Forall (fun c => PresentationConnection.messageSource_ c <> None) (connections w) ->
  run_job (Bootstrap script) w =
  (Normal tt,
   set_onconnectionavailable (Some script)
     (set_posted (posted w ++ welcome script w (connections w))
        (set_connections (map (registered script) (connections w)) w))).
Proof.
  intros Hsrc.
  pose proof (bootstrap_loop script (length (connections w)) 0 w Hsrc ltac:(lia)) as H.
  rewrite drop_0, firstn_all in H.
  change (0 + length (connections w))%nat with (length (connections w)) in H.
  rewrite drop_all, app_nil_r in H. cbn [take app] in H.
  destruct script; cbn [run_job]; unfold Receiver.bootstrap, ReceiverEdu.bootstrap;
    unfold bind at 1, gets at 1; unfold bind at 1; rewrite H; reflexivity.
Qed.

(** X9.  The start-up callback of the receiver script (the script's own
    [connectionList.then]), run on a page where every connection has its
    window: it returns normally, registers every connection of the list
    (receiver.js installs [onmessage]; the variant installs [onconnect] and
    [onmessage]), sets [onconnectionavailable], and leaves the slideshow
    alone.  receiver.js posts the slideshow state once to each connection,
    in the order of the list; the variant posts nothing. *)
Theorem bootstrap_registers_all (script : Script) (w : World) :
  Forall (fun c => PresentationConnection.messageSource_ c <> None) (connections w) ->
  let w' := snd (run_job (Bootstrap script) w) in
  fst (run_job (Bootstrap script) w) = Normal tt /\
  connections w' = map (registered script) (connections w) /\
  listening w' = seq 0 (length (connections w)) /\
  onconnectionavailable w' = Some script /\
  slideshow w' = slideshow w /\
  posted w' =
    posted w ++
    match script with
    | Photowall => map (post_to (JSON_stringify (slideshow w))) (connections w)
    | CastForEdu => []
    end.
Proof.
  intros Hsrc. cbv zeta. rewrite (bootstrap_eq script w Hsrc). cbn [fst snd]. proj.
  split; [reflexivity|]. split; [reflexivity|]. split; [|repeat split; reflexivity].
  unfold listening; proj. rewrite length_map.
  apply forallb_filter_id. apply forallb_forall. intros i Hi. apply in_seq in Hi.
  unfold listens. rewrite list_lookup_fmap.
  destruct (connections w !! i) as [c|] eqn:Hc.
  - destruct script; reflexivity.
  - apply lookup_ge_None in Hc. lia.
Qed.

(** ** Which connections have a handler *)

Lemma listens_no_handler cs i : Forall no_handler cs -> listens cs i = false.
Proof.
  intros H. unfold listens. destruct (cs !! i) as [c|] eqn:Hc; [|reflexivity].
  destruct (Forall_lookup_1 _ _ _ _ H Hc) as [-> _]. reflexivity.
Qed.

Lemma filter_nobody {A} (p : A -> bool) l : (forall x, p x = false) -> List.filter p l = [].
Proof. intros H. induction l as [|x l IH]; simpl; [reflexivity|]. rewrite H. exact IH. Qed.

Lemma fan_out_nobody e n : forall i w,
  List.filter (listens (connections w)) (seq i n) = [] ->
  forIndexes n i (fan_out e) w = (Normal tt, w).
Proof.
  induction n as [|n IH]; intros i w H; [reflexivity|].
  cbn [forIndexes seq List.filter] in *. unfold bind at 1. unfold fan_out at 1.
  unfold bind at 1, gets at 1. unfold listens at 1 in H.
  destruct (connections w !! i) as [c|] eqn:Hc; [|unfold ret at 1; apply IH, H].
  destruct (PresentationConnection.onmessage c) as [f|] eqn:Hf; [discriminate|].
  unfold ret at 1. apply IH, H.
Qed.

Lemma boot_ok_fields w w' :
  boot_fields w' = boot_fields w -> boot_ok w -> boot_ok w'.
Proof.
  unfold boot_fields. intros [= E1 E2 E3 E4 E5]. unfold boot_ok.
  rewrite E1, E2, E3, E4. auto.
Qed.

Lemma keeps_boot_fields_callback t :
  is_new_connection t = false -> is_app_message t = false ->
  (forall s, t <> RunScript s) -> keeps boot_fields (callback t).
Proof.
  destruct t as [script|e|h| |]; simpl; intros E1 E2 E3.
  - destruct (E3 script eq_refl).
  - unfold Polyfill.listener. rewrite E1, E2. keeps_tac.
  - unfold clearTimeout. keeps_tac.
    apply keeps_of_outside; [|apply keeps_outside_showNextImage].
    intros w w' H. unfold outside in H. unfold boot_fields. injection H; intros; congruence.
  - unfold onAnimationEnd. keeps_tac.
  - keeps_tac.
Qed.

(** The jobs of the scripts install handlers only together with
    [onconnectionavailable]. *)
Lemma boot_jobs js : forall w,
  stable w -> Forall job_ok js ->
  (onconnectionavailable w = None -> Forall no_handler (connections w)) ->
  let w' := fold_left (fun w j => perform (run_job j) w) js w in
  onconnectionavailable w' = None -> Forall no_handler (connections w').
Proof.
  induction js as [|j js IH]; intros w Hs Hjs H; simpl; [exact H|].
  inversion Hjs as [|? ? Hj Hjs']; subst.
  pose proof Hs as (_ & _ & (_ & _ & _ & Hsrc) & _).
  apply IH; [apply stable_perform; [apply safe_run_job|exact Hs]|exact Hjs'|].
  unfold perform. destruct j as [script|[s|]].
  - rewrite (bootstrap_eq script w Hsrc). proj. discriminate.
  - destruct Hj.
  - cbn [run_job]. rewrite (broadcast_callback_eq w Hsrc). proj. exact H.
Qed.

Lemma boot_drain w :
  sound w -> (loaded w = None -> microtasks w = []) -> boot_ok w -> boot_ok (drain w).
Proof.
  intros [[Hs _] (Hq & _)] Hm [H1 H2]. split.
  - rewrite (keeps_drain loaded); try reflexivity.
    2:{ intros j. apply keeps_run_job; reflexivity. }
    intros Hl. unfold drain. rewrite (Hm Hl). simpl. apply H1, Hl.
  - unfold drain. apply (boot_jobs (microtasks w) (set_microtasks [] w)); assumption.
Qed.

Lemma no_handler_connection_of e : no_handler (connection_of e).
Proof. split; reflexivity. Qed.

Lemma boot_callback w t :
  sound w -> microtasks w = [] -> boot_ok w ->
  boot_ok (perform (callback t) w) /\
  (loaded (perform (callback t) w) = None -> microtasks (perform (callback t) w) = []).
Proof.
  intros Hw Hm Hb.
  assert (Hkeep : keeps boot_fields (callback t) ->
            boot_ok (perform (callback t) w) /\
            (loaded (perform (callback t) w) = None ->
             microtasks (perform (callback t) w) = [])).
  { intros Hk. pose proof (keeps_perform boot_fields (callback t) w
                             (fun _ _ => eq_refl) Hk) as E.
    split; [apply (boot_ok_fields w); assumption|].
    unfold boot_fields in E. injection E as _ _ _ _ ->. intros _. exact Hm. }
  pose proof Hb as [H1 H2].
  destruct t as [script|e|h| |];
    [| |apply Hkeep, keeps_boot_fields_callback; try reflexivity; discriminate ..].
  - unfold perform. cbn [callback]. unfold then_. js_unfold.
    destruct (loaded w) as [l|] eqn:El.
    + split; [exact Hb|intros _; exact Hm].
    + destruct (H1 eq_refl) as [Ho Hr].
      destruct script; unfold Receiver.main, ReceiverEdu.main, then_, modify; proj;
        (destruct (settled w); unfold boot_ok; proj;
         (split; [split; [discriminate|exact H2]|discriminate])).
  - destruct (String.eqb (message_type e) "NEW_CONNECTION") eqn:E.
    + apply String.eqb_eq in E. unfold perform. cbn [callback].
      rewrite (listener_new_connection e w E). cbv zeta.
      destruct Hw as [[Hs _] _].
      pose proof Hs as (_ & _ & (Hp1 & Hp2 & Hp3 & Hp4) & _).
      assert (Hpush : onconnectionavailable w = None ->
                Forall no_handler (connections w ++ [connection_of e])).
      { intros Ho. apply Forall_app. split; [apply H2, Ho|].
        constructor; [apply no_handler_connection_of|constructor]. }
      destruct (connectionListResolved w) eqn:Hflag.
      * destruct (onconnectionavailable w) as [f|] eqn:Hf.
        -- rewrite call_onconnectionavailable_throws. unfold boot_ok; proj. rewrite Hf.
           split; [split|].
           ++ intros Hl. destruct (H1 Hl) as [Ho _]. discriminate.
           ++ discriminate.
           ++ intros _. exact Hm.
        -- unfold boot_ok; proj. rewrite Hf. split; [split|].
           ++ exact H1.
           ++ exact Hpush.
           ++ intros _. exact Hm.
      * unfold resolve, modify; proj. rewrite Hp1. unfold boot_ok; proj. split; [split|].
        -- intros Hl. split; [apply H1, Hl|reflexivity].
        -- exact Hpush.
        -- intros Hl. destruct (H1 Hl) as [_ ->]. rewrite Hm. reflexivity.
    + destruct (String.eqb (message_type e) "APP_MESSAGE") eqn:E'.
      * apply String.eqb_eq in E'.
        destruct (onconnectionavailable w) as [f|] eqn:Hf.
        -- assert (Hk : forall X (g : World -> X),
                     (forall w w', outside w' = outside w -> g w' = g w) ->
                     (forall v w, g (set_microtasks v w) = g w) ->
                     (forall v w, g (set_reactions v w) = g w) ->
                     (forall v w, g (set_delivered v w) = g w) ->
                     (forall v w, g (set_uncaught v w) = g w) ->
                     g (perform (callback (WindowMessage e)) w) = g w).
           { intros X g G1 G2 G3 G4 G5. apply keeps_perform; [exact G5|].
             cbn [callback]. unfold Polyfill.listener, Polyfill.deliver.
             rewrite E. keeps_tac; [apply G4|].
             apply keeps_call_onmessage; assumption. }
           unfold boot_ok.
           rewrite (Hk _ loaded), (Hk _ onconnectionavailable); try reflexivity; try outside_tac.
           rewrite Hf. split; [split|].
           ++ intros Hl. destruct (H1 Hl) as [Ho _]. discriminate.
           ++ discriminate.
           ++ intros Hl. destruct (H1 Hl) as [Ho _]. discriminate.
        -- unfold perform. cbn [callback]. rewrite (listener_app_message e w E').
           rewrite fan_out_nobody.
           ++ split; [exact Hb|intros _; exact Hm].
           ++ apply filter_nobody. intros i. apply listens_no_handler, H2, eq_refl.
      * apply Hkeep, keeps_boot_fields_callback; simpl; [exact E|exact E'|discriminate].
Qed.

Lemma boot_step w t : sound w -> microtasks w = [] -> boot_ok w -> boot_ok (step w t).
Proof.
  intros Hw Hm Hb. destruct (boot_callback w t Hw Hm Hb) as [H1 H2].
  unfold step. apply boot_drain; [|exact H2|exact H1].
  apply sound_perform; [apply safe_callback|apply guards_sound_callback|exact Hw].
Qed.

Lemma no_handler_set_state v c : no_handler c -> no_handler (set_state v c).
Proof. intros H. exact H. Qed.

Lemma boot_call w c : sound w -> microtasks w = [] -> boot_ok w ->
  boot_ok (drain (perform (call_method c) w)).
Proof.
  intros Hw Hm [H1 H2].
  assert (Hk : forall X (g : World -> X),
            (forall v w, g (set_connections v w) = g w) ->
            (forall v w, g (set_uncaught v w) = g w) ->
            g (perform (call_method c) w) = g w).
  { intros X g G1 G2. apply keeps_perform; [exact G2|]. apply keeps_call_method, G1. }
  apply boot_drain.
  - apply sound_perform; [apply safe_call_method|apply guards_sound_call_method|exact Hw].
  - intros _. rewrite (Hk _ microtasks); auto.
  - split.
    + rewrite (Hk _ loaded), (Hk _ onconnectionavailable), (Hk _ reactions); auto.
    + rewrite (Hk _ onconnectionavailable) by auto. intros Ho. specialize (H2 Ho).
      unfold perform. destruct c as [i|i]; cbn [call_method]; unfold close, terminate, assign;
        js_unfold; (destruct (connections w !! i) as [x|]; [|exact H2]);
        try destruct (negb _); proj; try exact H2;
        (apply Forall_alter; [exact H2|intros y _ Hy; exact Hy]).
Qed.

Lemma boot_play hs : boot_ok (play hs initial).
Proof.
  induction hs as [|h hs IH] using rev_ind.
  - split; [intros _; split; reflexivity|intros _; constructor].
  - rewrite play_app. simpl. destruct (sound_play hs) as [Hw Hm].
    destruct h as [t|c]; simpl; [apply boot_step|apply boot_call]; assumption.
Qed.

Lemma boot_run ts : boot_ok (run ts initial).
Proof. rewrite run_play. apply boot_play. Qed.

Lemma set_microtasks_eta w : set_microtasks (microtasks w) w = w.
Proof. destruct w; reflexivity. Qed.

Lemma drain_idle w : microtasks w = [] -> drain w = w.
Proof. intros H. unfold drain. rewrite H. simpl. rewrite <- H. apply set_microtasks_eta. Qed.

Lemma drain_broadcasts k w :
  Forall (fun c => PresentationConnection.messageSource_ c <> None) (connections w) ->
  microtasks w = replicate k (Broadcast SlideshowObject) ->
  drain w =
  set_posted (posted w ++ concat (replicate k (broadcast_of w))) (set_microtasks [] w).
Proof.
  intros Hsrc Hm. unfold drain. rewrite Hm.
  rewrite (broadcast_jobs k (set_microtasks [] w)) by exact Hsrc. reflexivity.
Qed.

(** A page on which the start-up callback has run. *)
Lemma ready_facts w :
  sound w -> boot_ok w -> onconnectionavailable w <> None ->
  loaded w <> None /\ settled w = true /\ connectionListResolved w = true /\ reactions w = [].
Proof.
  intros [[Hs _] (_ & _ & Hq)] [H1 _] Ho.
  pose proof Hs as (_ & _ & (Hp1 & Hp2 & _) & _).
  assert (Hset : settled w = true) by (apply Hq; left; exact Ho).
  split; [|split; [exact Hset|split; [congruence|apply Hp2, Hset]]].
  intros Hl. destruct (H1 Hl) as [Hn _]. contradiction.
Qed.

Lemma ready_callback w t :
  sound w -> microtasks w = [] -> boot_ok w -> onconnectionavailable w <> None ->
  let w1 := perform (callback t) w in
  connections w1 = connections w ++ arriving t /\
  onconnectionavailable w1 = onconnectionavailable w /\
  posted w1 = posted w /\
  exists k, microtasks w1 = replicate k (Broadcast SlideshowObject).
Proof.
  intros Hw Hm Hb Ho. cbv zeta.
  destruct (ready_facts w Hw Hb Ho) as (Hl & Hset & Hflag & Hr).
  assert (Hkeep : keeps boot_fields (callback t) -> keeps posted (callback t) ->
            connections (perform (callback t) w) = connections w /\
            onconnectionavailable (perform (callback t) w) = onconnectionavailable w /\
            posted (perform (callback t) w) = posted w /\
            exists k, microtasks (perform (callback t) w) = replicate k (Broadcast SlideshowObject)).
  { intros Hk Hk'. pose proof (keeps_perform boot_fields (callback t) w
                             (fun _ _ => eq_refl) Hk) as E.
    unfold boot_fields in E. injection E as _ -> -> _ ->.
    split; [reflexivity|]. split; [reflexivity|].
    split; [apply keeps_perform; [reflexivity|exact Hk']|].
    exists 0%nat. exact Hm. }
  destruct t as [script|e|h| |].
  - unfold perform. cbn [callback]. js_unfold.
    destruct (loaded w) as [l|]; [|contradiction]. simpl. rewrite app_nil_r.
    repeat (split; [reflexivity|]). exists 0%nat. exact Hm.
  - cbn [arriving]. destruct (String.eqb (message_type e) "NEW_CONNECTION") eqn:E.
    + apply String.eqb_eq in E. unfold perform. cbn [callback].
      rewrite (listener_new_connection e w E). cbv zeta. rewrite Hflag.
      destruct (onconnectionavailable w) as [f|] eqn:Hf; [|contradiction].
      rewrite call_onconnectionavailable_throws. proj. rewrite Hf.
      repeat (split; [reflexivity|]). exists 0%nat. exact Hm.
    + destruct (String.eqb (message_type e) "APP_MESSAGE") eqn:E'.
      * apply String.eqb_eq in E'.
        assert (Hoca : onconnectionavailable (perform (callback (WindowMessage e)) w) =
                       onconnectionavailable w).
        { apply keeps_perform; [reflexivity|].
          cbn [callback]. unfold Polyfill.listener, Polyfill.deliver.
          rewrite E. keeps_tac.
          apply keeps_call_onmessage; try reflexivity. outside_tac. }
        rewrite app_nil_r. unfold perform in *. cbn [callback] in *.
        rewrite (listener_app_message e w E') in *.
        destruct (throws (message_data e)) eqn:Hd.
        -- rewrite fan_out_throws in * by exact Hd.
           destruct (List.filter _ _);
             [|destruct (message_data e); try discriminate; unfold thrown in *];
             proj; (split; [reflexivity|]); (split; [exact Hoca|]);
             (split; [reflexivity|]); exists 0%nat; exact Hm.
        -- destruct (fan_out_normal e (length (connections w)) 0 w Hd (proj1 (proj1 Hw))
                       ltac:(lia)) as (w' & Hloop & _ & Hc & Hp & _ & _ & Hmic).
           rewrite Hloop in *. split; [exact Hc|]. split; [exact Hoca|]. split; [exact Hp|].
           rewrite Hm in Hmic. eexists. exact Hmic.
      * rewrite app_nil_r.
        apply Hkeep; [apply keeps_boot_fields_callback; simpl; [exact E|exact E'|discriminate]|].
        cbn [callback]. unfold Polyfill.listener. rewrite E, E'. keeps_tac.
  - cbn [arriving]. rewrite app_nil_r.
    apply Hkeep; [apply keeps_boot_fields_callback; try reflexivity; discriminate|].
    cbn [callback]. unfold clearTimeout. keeps_tac.
    apply keeps_of_outside; [outside_tac|apply keeps_outside_showNextImage].
  - cbn [arriving]. rewrite app_nil_r.
    apply Hkeep; [apply keeps_boot_fields_callback; try reflexivity; discriminate|].
    cbn [callback]. unfold onAnimationEnd. keeps_tac.
  - cbn [arriving]. rewrite app_nil_r.
    apply Hkeep; [apply keeps_boot_fields_callback; try reflexivity; discriminate|].
    cbn [callback]. keeps_tac.
Qed.

Lemma ready_step w t :
  sound w -> microtasks w = [] -> boot_ok w -> onconnectionavailable w <> None ->
  connections (step w t) = connections w ++ arriving t /\
  onconnectionavailable (step w t) = onconnectionavailable w.
Proof.
  intros Hw Hm Hb Ho.
  destruct (ready_callback w t Hw Hm Hb Ho) as (Hc & Hoca & _ & k & Hk).
  assert (Hw1 : sound (perform (callback t) w))
    by (apply sound_perform; [apply safe_callback|apply guards_sound_callback|exact Hw]).
  pose proof Hw1 as [[(_ & _ & (_ & _ & _ & Hsrc) & _) _] _].
  unfold step. rewrite (drain_broadcasts k _ Hsrc Hk). proj. split; assumption.
Qed.

Lemma arriving_no_handler t : Forall no_handler (arriving t).
Proof.
  destruct t as [script|e|h| |]; simpl; try constructor.
  destruct (String.eqb _ _); constructor; [apply no_handler_connection_of|constructor].
Qed.

Lemma filter_none_in {A} (p : A -> bool) l :
  (forall x, In x l -> p x = false) -> List.filter p l = [].
Proof.
  induction l as [|x l IH]; simpl; intros H; [reflexivity|].
  rewrite (H x) by (left; reflexivity). apply IH. intros y Hy. apply H. right. exact Hy.
Qed.

Lemma listening_app_no_handler cs extra :
  Forall no_handler extra ->
  List.filter (listens (cs ++ extra)) (seq 0 (length (cs ++ extra))) =
  List.filter (listens cs) (seq 0 (length cs)).
Proof.
  intros Hx. rewrite length_app, seq_app, List.filter_app.
  rewrite (filter_none_in _ (seq (0 + length cs) (length extra))).
  - rewrite app_nil_r. apply List.filter_ext_in. intros i Hi. apply in_seq in Hi.
    unfold listens. rewrite lookup_app_l by lia. reflexivity.
  - intros i Hi. apply in_seq in Hi. unfold listens.
    rewrite lookup_app_r by lia.
    destruct (extra !! (i - length cs)%nat) as [c|] eqn:Hc; [|reflexivity].
    destruct (Forall_lookup_1 _ _ _ _ Hx Hc) as [-> _]. reflexivity.
Qed.

Lemma ready_run ts : forall w,
  sound w -> microtasks w = [] -> boot_ok w -> onconnectionavailable w <> None ->
  connections (run ts w) = connections w ++ concat (map arriving ts) /\
  onconnectionavailable (run ts w) = onconnectionavailable w.
Proof.
  induction ts as [|t ts IH]; intros w Hw Hm Hb Ho; simpl.
  - rewrite app_nil_r. split; reflexivity.
  - destruct (ready_step w t Hw Hm Hb Ho) as [Hc Hoca].
    assert (Hw1 : sound (step w t) /\ microtasks (step w t) = [])
      by apply (sound_happen w (OfTask t)), Hw.
    destruct (IH (step w t)) as [Hc' Hoca']; try apply Hw1.
    + apply boot_step; assumption.
    + rewrite Hoca. exact Ho.
    + rewrite Hc', Hoca', Hc, Hoca, <- app_assoc. split; reflexivity.
Qed.

(** X10.  Connections that come after the start-up.  Once the start-up
    callback of the receiver script has run ([onconnectionavailable] is
    set), whatever happens next, the connections that were in the list
    stay as they are and every [NEW_CONNECTION] only appends a connection
    that never gets an [onmessage] or [onconnect] handler: the connections
    that have a handler are the same ever after.  The polyfill does call
    the receiver's [onconnectionavailable], with the new connection; the
    callback reads it as an array, so [addConnection] is given [undefined]
    and throws before it sends or assigns anything: the exception is
    reported and nothing is posted. *)
Theorem late_connections_get_no_handler (ts ts' : list Task) :
  let w := run ts initial in
  let w' := run ts' w in
  onconnectionavailable w <> None ->
  connections w' = connections w ++ concat (map arriving ts') /\
  Forall no_handler (concat (map arriving ts')) /\
  listening w' = listening w /\
  onconnectionavailable w' = onconnectionavailable w /\
  (forall e f,
     message_type e = "NEW_CONNECTION" -> onconnectionavailable w = Some f ->
     let w1 := step w (WindowMessage e) in
     connections w1 = connections w ++ [connection_of e] /\
     posted w1 = posted w /\
     uncaught w1 =
       uncaught w ++
       [TypeError (match f with Photowall => "send" | CastForEdu => "onconnect" end)]).
Proof.
  cbv zeta. intros Ho. destruct (sound_run ts) as [Hw Hm]. pose proof (boot_run ts) as Hb.
  destruct (ready_run ts' _ Hw Hm Hb Ho) as [Hc Hoca].
  assert (Hx : Forall no_handler (concat (map arriving ts'))).
  { apply Forall_concat, Forall_map, Forall_forall. intros t _. apply arriving_no_handler. }
  split; [exact Hc|]. split; [exact Hx|]. split; [|split; [exact Hoca|]].
  - unfold listening. rewrite Hc. apply listening_app_no_handler, Hx.
  - intros e f E Hf.
    destruct (ready_facts _ Hw Hb Ho) as (_ & _ & Hflag & _).
    unfold step, perform. cbn [callback]. rewrite (listener_new_connection e _ E). cbv zeta.
    rewrite Hflag, Hf, call_onconnectionavailable_throws.
    rewrite drain_idle by exact Hm. proj. repeat split; reflexivity.
Qed.

(** X11.  Messages that come before the start-up.  As long as the start-up
    callback of the receiver script has not run ([onconnectionavailable]
    is not set: the script has not run, or no connection has arrived yet),
    no connection has a handler, and an [APP_MESSAGE] leaves the page
    exactly as it was: the message is not handled and not kept for
    later. *)
Theorem early_messages_are_dropped (ts : list Task) (e : WindowEvent) :
  let w := run ts initial in
  message_type e = "APP_MESSAGE" ->
  onconnectionavailable w = None ->
  listening w = [] /\ step w (WindowMessage e) = w.
Proof.
  cbv zeta. intros E Ho. destruct (sound_run ts) as [Hw Hm]. destruct (boot_run ts) as [_ H2].
  assert (Hl : listening (run ts initial) = []).
  { unfold listening. apply filter_nobody. intros i. apply listens_no_handler, H2, Ho. }
  split; [exact Hl|].
  unfold step, perform. cbn [callback]. rewrite (listener_app_message e _ E).
  rewrite fan_out_nobody by exact Hl. apply drain_idle, Hm.
Qed.

(** ** One message, several handlers *)

Lemma fan_out_json_with (P : nat -> World -> Prop) e m :
  (forall k v w, P k w -> P k (set_delivered v w)) ->
  (forall k v w, P k w -> P k (set_microtasks v w)) ->
  (forall k w, stable w -> P k w -> P (S k) (snd (dispatch m w))) ->
  forall n i k w,
    message_data e = Json m -> stable w -> (i + n <= length (connections w))%nat ->
    P k w ->
    exists w',
      forIndexes n i (fan_out e) w = (Normal tt, w') /\
      P (k + length (List.filter (listens (connections w)) (seq i n)))%nat w'.
Proof.
  intros P1 P2 P3. induction n as [|n IH]; intros i k w Hd Hs Hlen Hk.
  - exists w. simpl. rewrite Nat.add_0_r. split; [reflexivity|exact Hk].
  - cbn [forIndexes seq List.filter]. unfold bind at 1. unfold fan_out at 1.
    unfold bind at 1, gets at 1.
    destruct (connections w !! i) as [c|] eqn:Hc.
    2:{ apply lookup_ge_None in Hc. lia. }
    destruct (PresentationConnection.onmessage c) as [f|] eqn:Hf.
    + assert (Hl : listens (connections w) i = true)
        by (unfold listens; rewrite Hc, Hf; reflexivity).
      rewrite Hl.
      unfold Polyfill.deliver, bind at 1, modify at 1. rewrite Hd.
      set (w1 := set_delivered (delivered w ++ [(i, new_MessageEvent (Json m))]) w).
      assert (Hs1 : stable w1) by exact Hs.
      assert (Hset : settled w1 = true).
      { change (settled w = true).
        pose proof Hs as (_ & _ & (_ & _ & Hp3 & _) & _).
        destruct (settled w) eqn:E; [reflexivity|].
        rewrite (Hp3 eq_refl) in Hc. discriminate. }
      destruct (call_onmessage_json f m w1 Hs1 Hset) as (Hcall & Hst & Ho).
      rewrite Hcall. cbv zeta in Hst, Ho.
      set (w2 := snd (dispatch m w1)) in *.
      apply outside_fields in Ho. destruct Ho as (_ & Hconn & _).
      change (connections w1) with (connections w) in Hconn.
      destruct (IH (S i) (S k) (set_microtasks (microtasks w2 ++ [Broadcast SlideshowObject]) w2))
        as (w' & Hloop & HP).
      * exact Hd.
      * exact Hst.
      * change (S i + n <= length (connections w2))%nat. rewrite Hconn. lia.
      * apply P2, P3; [exact Hs1|]. apply P1, Hk.
      * change (connections (set_microtasks (microtasks w2 ++ [Broadcast SlideshowObject]) w2))
          with (connections w2) in HP. rewrite Hconn in HP.
        exists w'. split; [exact Hloop|]. cbn [length].
        replace (k + S (length (List.filter (listens (connections w)) (seq (S i) n))))%nat
          with (S k + length (List.filter (listens (connections w)) (seq (S i) n)))%nat by lia.
        exact HP.
    + assert (Hl : listens (connections w) i = false)
        by (unfold listens; rewrite Hc, Hf; reflexivity).
      rewrite Hl. unfold ret at 1.
      apply IH; [exact Hd|exact Hs|lia|exact Hk].
Qed.

Lemma copies_S image n k :
  copies image n (S k) = copies image n k ++ [set_id (Some (n + Z.of_nat k)) image].
Proof. unfold copies. rewrite seq_S, map_app. reflexivity. Qed.

(** X12.  One message, several handlers.  The listener gives an
    [APP_MESSAGE] to every connection that has a handler, and each handler
    does what the message says: with [k] such connections an [addImage]
    message adds the image [k] times, with [k] ids in a row (none when no
    connection has a handler). *)
Theorem every_handler_adds_the_image (ts : list Task) (e : WindowEvent) (image : Image) :
  message_type e = "APP_MESSAGE" ->
  message_data e = Json {| action := "addImage"; data := image |} ->
  let w := run ts initial in
  let w' := step w (WindowMessage e) in
  images (slideshow w') =
    images (slideshow w) ++ copies image (imageSequence w) (length (listening w)) /\
  imageSequence w' = imageSequence w + Z.of_nat (length (listening w)).
Proof.
  intros E Hd. cbv zeta. destruct (sound_run ts) as [[[Hs _] _] Hm].
  set (w := run ts initial) in *.
  set (P := fun (k : nat) (v : World) =>
              images (slideshow v) = images (slideshow w) ++ copies image (imageSequence w) k /\
              imageSequence v = imageSequence w + Z.of_nat k).
  destruct (fan_out_json_with P e {| action := "addImage"; data := image |})
    with (n := length (connections w)) (i := 0%nat) (k := 0%nat) (w := w)
    as (w' & Hloop & HP); auto.
  - intros k v [Hi _] [H1 H2]. unfold P.
    change (dispatch {| action := "addImage"; data := image |} v) with (addImage image v).
    rewrite (addImage_eq image v Hi). cbn [snd].
    destruct (added_images image v) as [-> ->]. rewrite H1, H2, copies_S, <- app_assoc.
    split; [reflexivity|lia].
  - unfold P, copies. simpl. rewrite app_nil_r. split; [reflexivity|lia].
  - simpl in HP. fold (listening w) in HP. destruct HP as [H1 H2].
    unfold step, perform. cbn [callback]. rewrite (listener_app_message e w E), Hloop.
    rewrite (keeps_drain (fun v => images (slideshow v))),
            (keeps_drain imageSequence); try reflexivity;
      try (intros j; apply keeps_run_job; reflexivity).
    split; assumption.
Qed.

(** ** Closing and terminating a connection *)

Lemma guards_states_keeps {A} (m : JS A) : keeps connections m -> guards states_ok m.
Proof. intros Hk w H. unfold states_ok. rewrite Hk. exact H. Qed.

Lemma guards_states_assign connection property f :
  (forall c, PresentationConnection.state (f c) = PresentationConnection.state c) ->
  guards states_ok (assign connection property f).
Proof.
  intros Hf w H. destruct connection as [i|]; [|exact H].
  unfold assign, modify, states_ok; proj. apply Forall_alter; [exact H|].
  intros c _ Hc. unfold state_known. rewrite Hf. exact Hc.
Qed.

Lemma guards_states_run_job j : guards states_ok (run_job j).
Proof.
  destruct j as [[]|message]; simpl;
    unfold Receiver.bootstrap, ReceiverEdu.bootstrap, broadcast_callback,
      Receiver.addConnection, ReceiverEdu.addConnection;
    guards_tac;
    first [ apply guards_states_assign; reflexivity
          | apply guards_states_keeps; first [apply keeps_sendMessage; reflexivity | keeps_tac] ].
Qed.

Lemma guards_states_callback t : guards states_ok (callback t).
Proof.
  destruct t as [script|e|h| |].
  - apply guards_states_keeps. cbn [callback]. keeps_tac; apply keeps_then_; reflexivity.
  - cbn [callback]. destruct (String.eqb (message_type e) "NEW_CONNECTION") eqn:E.
    + apply String.eqb_eq in E. intros w H. rewrite (listener_new_connection e w E). cbv zeta.
      assert (H1 : states_ok (set_connections (connections w ++ [connection_of e]) w)).
      { unfold states_ok; proj. apply Forall_app. split; [exact H|].
        constructor; [left; reflexivity|constructor]. }
      destruct (connectionListResolved w).
      * destruct (onconnectionavailable w) as [f|]; [|exact H1].
        rewrite call_onconnectionavailable_throws. exact H1.
      * unfold resolve, modify; proj. destruct (settled _); exact H1.
    + apply guards_states_keeps. unfold Polyfill.listener, Polyfill.deliver. rewrite E.
      keeps_tac. apply keeps_call_onmessage; try reflexivity. outside_tac.
  - apply guards_states_keeps. cbn [callback]. unfold clearTimeout. keeps_tac.
    apply keeps_of_outside; [outside_tac|apply keeps_outside_showNextImage].
  - apply guards_states_keeps. cbn [callback]. unfold onAnimationEnd. keeps_tac.
  - cbn [callback]. apply guards_throw.
Qed.

Lemma guards_states_call_method c : guards states_ok (call_method c).
Proof.
  destruct c as [i|i]; simpl; unfold close, terminate; guards_tac;
    intros w H; unfold assign, modify, states_ok; proj;
    (apply Forall_alter; [exact H|]); intros x _ _; unfold state_known; simpl; auto.
Qed.

Lemma states_perform (m : JS unit) w : guards states_ok m -> states_ok w -> states_ok (perform m w).
Proof.
  intros Hg H. specialize (Hg w H). unfold perform.
  destruct (m w) as [[[]|e] w']; exact Hg.
Qed.

Lemma states_drain w : states_ok w -> states_ok (drain w).
Proof.
  intros H. unfold drain.
  assert (Hj : forall js v, states_ok v ->
            states_ok (fold_left (fun w j => perform (run_job j) w) js v)).
  { induction js as [|j js IH]; intros v Hv; simpl; [exact Hv|].
    apply IH, states_perform; [apply guards_states_run_job|exact Hv]. }
  apply Hj. exact H.
Qed.

Lemma states_play hs : states_ok (play hs initial).
Proof.
  induction hs as [|h hs IH] using rev_ind; [constructor|].
  rewrite play_app. simpl. destruct h as [t|c]; simpl; unfold step;
    apply states_drain, states_perform;
    first [exact IH | apply guards_states_callback | apply guards_states_call_method].
Qed.

Lemma state_known_not_close c :
  state_known c -> String.eqb (PresentationConnection.state c) "close" = false.
Proof.
  unfold state_known. simpl. intros [<-|[<-|[<-|[]]]]; reflexivity.
Qed.

Lemma close_eq i c w :
  connections w !! i = Some c -> state_known c ->
  close i w =
  (Normal (PresentationConnection.onclose c),
   set_connections (alter (set_state "closed") i (connections w)) w).
Proof.
  intros Hc Hk. unfold close, assign. js_unfold. rewrite Hc.
  rewrite (state_known_not_close c Hk). reflexivity.
Qed.

(** X13.  [close()] on a connection whose state is one the code gives
    ([connected], [closed] or [terminated]): the test [this.state !=
    'close'] never stops it, so it sets the state to [closed] and calls
    [onclose], if there is one, whatever the state was.  A second
    [close()] does the same again: the handler is called once per call,
    and a terminated connection becomes [closed].  Nothing else of the
    page changes: the connection stays in the list. *)
Theorem close_runs_again (i : nat) (c : PresentationConnection) (w : World) :
  connections w !! i = Some c -> state_known c ->
  let w1 := snd (close i w) in
  fst (close i w) = Normal (PresentationConnection.onclose c) /\
  w1 = set_connections (alter (set_state "closed") i (connections w)) w /\
  connections w1 !! i = Some (set_state "closed" c) /\
  close i w1 = (Normal (PresentationConnection.onclose c), w1).
Proof.
  intros Hc Hk. cbv zeta. rewrite (close_eq i c w Hc Hk). cbn [fst snd].
  split; [reflexivity|]. split; [reflexivity|].
  assert (Hc1 : connections (set_connections (alter (set_state "closed") i (connections w)) w) !! i
                = Some (set_state "closed" c)).
  { proj. rewrite list_lookup_alter_eq, Hc. reflexivity. }
  split; [exact Hc1|].
  rewrite (close_eq i _ _ Hc1) by (right; left; reflexivity).
  proj. rewrite list_alter_alter_eq. reflexivity.
Qed.

Lemma listens_set_state s i cs j :
  listens (alter (set_state s) i cs) j = listens cs j.
Proof.
  unfold listens. destruct (Nat.eq_dec i j) as [->|Hne].
  - rewrite list_lookup_alter_eq. destruct (cs !! j); reflexivity.
  - rewrite list_lookup_alter_ne by exact Hne. reflexivity.
Qed.

Lemma post_to_set_state t s i cs :
  map (post_to t) (alter (set_state s) i cs) = map (post_to t) cs.
Proof.
  revert i. induction cs as [|c cs IH]; intros [|i]; simpl; try reflexivity.
  f_equal. apply IH.
Qed.

Lemma alter_out_of_range {A} (f : A -> A) i (l : list A) : l !! i = None -> alter f i l = l.
Proof.
  revert i. induction l as [|x l IH]; intros [|i]; simpl; try reflexivity; try discriminate.
  intros H. f_equal. apply IH, H.
Qed.

Lemma set_connections_eta w : set_connections (connections w) w = w.
Proof. destruct w; reflexivity. Qed.

(** The page after a call of [close] or [terminate]. *)
Lemma happen_call c w :
  states_ok w -> microtasks w = [] ->
  exists errors,
    happen w (OfCall c) =
    set_uncaught (uncaught w ++ errors)
      (set_connections (alter (set_state (method_state c)) (method_this c) (connections w)) w).
Proof.
  intros Hk Hm. cbn [happen].
  assert (Hx : forall w1 errors,
            w1 = set_uncaught (uncaught w ++ errors)
                   (set_connections
                      (alter (set_state (method_state c)) (method_this c) (connections w)) w) ->
            exists errors, drain w1 = set_uncaught (uncaught w ++ errors)
                   (set_connections
                      (alter (set_state (method_state c)) (method_this c) (connections w)) w)).
  { intros w1 errors ->. exists errors. apply drain_idle. exact Hm. }
  destruct c as [i|i]; unfold perform; cbn [call_method method_state method_this];
    unfold bind at 1.
  - destruct (connections w !! i) as [c|] eqn:Hc.
    + rewrite (close_eq i c w Hc) by exact (Forall_lookup_1 _ _ _ _ Hk Hc).
      apply (Hx _ []). unfold ret. destruct w; simpl. rewrite app_nil_r. reflexivity.
    + unfold close. js_unfold. rewrite Hc.
      apply (Hx _ [TypeError "state"]). rewrite (alter_out_of_range _ _ _ Hc).
      rewrite set_connections_eta. reflexivity.
  - unfold terminate, assign. js_unfold.
    destruct (connections w !! i) as [c|] eqn:Hc.
    + apply (Hx _ []). destruct w; simpl. rewrite app_nil_r. reflexivity.
    + apply (Hx _ [TypeError "state"]). rewrite (alter_out_of_range _ _ _ Hc).
      rewrite set_connections_eta. reflexivity.
Qed.

Lemma app_message_json_step w e m :
  sound w -> microtasks w = [] ->
  message_type e = "APP_MESSAGE" -> message_data e = Json m ->
  let w' := step w (WindowMessage e) in
  connections w' = connections w /\
  delivered w' = delivered w ++ map (fun i => (i, new_MessageEvent (Json m))) (listening w) /\
  posted w' = posted w ++ concat (replicate (length (listening w)) (broadcast_of w')).
Proof.
  intros [[Hs _] _] Hm E Hd. cbv zeta.
  destruct (fan_out_json e m (length (connections w)) 0 w Hd Hs ltac:(lia))
    as (w1 & Hloop & Hs1 & Hc & Hp & _ & Hdel & Hmic).
  fold (listening w) in Hdel, Hmic. rewrite Hm in Hmic. simpl in Hmic.
  pose proof Hs1 as (_ & _ & (_ & _ & _ & Hsrc) & _).
  unfold step, perform. cbn [callback]. rewrite (listener_app_message e w E), Hloop.
  rewrite (drain_broadcasts _ w1 Hsrc Hmic). proj.
  split; [exact Hc|]. split; [exact Hdel|]. rewrite Hp. reflexivity.
Qed.

(** X14.  What [close()] and [terminate()] leave alone.  On every page
    reached by tasks and calls of the two methods, every connection's state
    is [connected], [closed] or [terminated].  A call changes the [state]
    of its connection and nothing else of the list: the connection stays
    in [connectionList.connections] and keeps its handlers, so a closed or
    terminated connection is still given every [APP_MESSAGE] and still
    receives every broadcast of the state. *)
Theorem closing_changes_only_state (hs : list Happening) (c : MethodCall) :
  let w0 := play hs initial in
  let w := happen w0 (OfCall c) in
  Forall state_known (connections w0) /\
  connections w = alter (set_state (method_state c)) (method_this c) (connections w0) /\
  listening w = listening w0 /\
  (forall e m,
     message_type e = "APP_MESSAGE" -> message_data e = Json m ->
     let w' := step w (WindowMessage e) in
     delivered w' =
       delivered w ++ map (fun i => (i, new_MessageEvent (Json m))) (listening w0) /\
     posted w' =
       posted w ++
       concat (replicate (length (listening w0))
                 (map (post_to (JSON_stringify (slideshow w'))) (connections w0)))).
Proof.
  cbv zeta. pose proof (states_play hs) as Hk. destruct (sound_play hs) as [Hw Hm].
  destruct (happen_call c _ Hk Hm) as [errors Hc].
  assert (Hconn : connections (happen (play hs initial) (OfCall c)) =
                  alter (set_state (method_state c)) (method_this c)
                    (connections (play hs initial))) by (rewrite Hc; reflexivity).
  assert (Hlis : listening (happen (play hs initial) (OfCall c)) = listening (play hs initial)).
  { unfold listening. rewrite Hconn, length_alter.
    apply List.filter_ext. intros j. apply listens_set_state. }
  split; [exact Hk|]. split; [exact Hconn|]. split; [exact Hlis|].
  intros e m E Hd.
  destruct (sound_happen _ (OfCall c) Hw) as [Hw1 Hm1].
  destruct (app_message_json_step _ e m Hw1 Hm1 E Hd) as (Hc' & Hdel & Hp).
  rewrite Hlis in Hdel, Hp. split; [exact Hdel|].
  rewrite Hp. unfold broadcast_of. rewrite Hc', Hconn, post_to_set_state. reflexivity.
Qed.

(** ** The script first, then the connections *)

Lemma waiting_step script w t :
  waiting script w -> is_new_connection t = false -> waiting script (step w t).
Proof.
  intros (Hl & Hs & Hc & Hr & Ho & Hm) E.
  assert (Hkeep : keeps boot_fields (callback t) -> keeps settled (callback t) ->
                  waiting script (step w t)).
  { intros Hk Hk'. unfold step.
    pose proof (keeps_perform boot_fields (callback t) w (fun _ _ => eq_refl) Hk) as E1.
    pose proof (keeps_perform settled (callback t) w (fun _ _ => eq_refl) Hk') as E2.
    unfold boot_fields in E1. injection E1 as E1 E3 E4 E5 E6.
    rewrite drain_idle by congruence. unfold waiting. repeat split; congruence. }
  destruct t as [s'|e|h| |].
  - unfold step, perform. cbn [callback]. js_unfold. rewrite Hl.
    rewrite drain_idle by exact Hm. unfold waiting. repeat split; assumption.
  - simpl in E. destruct (String.eqb (message_type e) "APP_MESSAGE") eqn:E'.
    + apply String.eqb_eq in E'. unfold step, perform. cbn [callback].
      rewrite (listener_app_message e w E'), Hc. simpl.
      rewrite drain_idle by exact Hm. unfold waiting. repeat split; assumption.
    + apply Hkeep; [apply keeps_boot_fields_callback; simpl; [exact E|exact E'|discriminate]|].
      apply keeps_settled_callback. exact E.
  - apply Hkeep; [apply keeps_boot_fields_callback; try reflexivity; discriminate|].
    apply keeps_settled_callback. reflexivity.
  - apply Hkeep; [apply keeps_boot_fields_callback; try reflexivity; discriminate|].
    apply keeps_settled_callback. reflexivity.
  - apply Hkeep; [apply keeps_boot_fields_callback; try reflexivity; discriminate|].
    apply keeps_settled_callback. reflexivity.
Qed.

Lemma waiting_run script ts : forall w,
  waiting script w -> existsb is_new_connection ts = false -> waiting script (run ts w).
Proof.
  induction ts as [|t ts IH]; intros w Hw E; simpl in *; [exact Hw|].
  apply orb_false_iff in E. destruct E as [E1 E2].
  apply IH; [apply waiting_step; assumption|exact E2].
Qed.

Lemma waiting_start script : waiting script (step initial (RunScript script)).
Proof. destruct script; unfold waiting; repeat split; reflexivity. Qed.

(** The first connection, on a page where the script waits for it. *)
Lemma waiting_first script w e :
  stable w -> waiting script w -> message_type e = "NEW_CONNECTION" ->
  connections (step w (WindowMessage e)) = [registered script (connection_of e)] /\
  onconnectionavailable (step w (WindowMessage e)) = Some script /\
  posted (step w (WindowMessage e)) = posted w ++ welcome script w [connection_of e].
Proof.
  intros Hst (Hl & Hs & Hc & Hr & Ho & Hm) E.
  pose proof Hst as (_ & _ & (Hp1 & _) & _).
  unfold step, perform. cbn [callback]. rewrite (listener_new_connection e w E). cbv zeta.
  rewrite <- Hp1, Hs. unfold resolve, modify; proj. rewrite Hs.
  unfold drain; proj. rewrite Hm, Hr, Hc. cbn [app fold_left]. unfold perform.
  rewrite bootstrap_eq.
  - proj. split; [reflexivity|]. split; [reflexivity|]. destruct script; reflexivity.
  - proj. constructor; [discriminate|constructor].
Qed.

Lemma first_new_connection ts :
  existsb is_new_connection ts = true ->
  exists ts1 e ts2,
    ts = ts1 ++ WindowMessage e :: ts2 /\ existsb is_new_connection ts1 = false /\
    message_type e = "NEW_CONNECTION".
Proof.
  induction ts as [|t ts IH]; simpl; [discriminate|].
  destruct (is_new_connection t) eqn:E; simpl.
  - intros _. destruct t as [s|e|h| |]; try discriminate.
    exists [], e, ts. split; [reflexivity|]. split; [reflexivity|].
    apply String.eqb_eq. exact E.
  - intros H. destruct (IH H) as (ts1 & e & ts2 & -> & H1 & H2).
    exists (t :: ts1), e, ts2. split; [reflexivity|]. split; [|exact H2].
    simpl. rewrite E. exact H1.
Qed.

(** X15.  The script first, then the connections.  When the receiver
    script runs before any connection has arrived, it waits for the first
    one: until a [NEW_CONNECTION] comes the list is empty and
    [onconnectionavailable] is not set.  The first [NEW_CONNECTION]
    resolves the promise and the start-up callback registers that
    connection; from then on, whatever the tasks, the connection at index 0
    is the only one that has an [onmessage] handler: the connections that
    follow are appended to the list and never registered. *)
Theorem first_connection_only (script : Script) (ts : list Task) :
  let w := run (RunScript script :: ts) initial in
  (existsb is_new_connection ts = false ->
     connections w = [] /\ onconnectionavailable w = None) /\
  (existsb is_new_connection ts = true ->
     listening w = [0%nat] /\ onconnectionavailable w = Some script /\
     exists e others,
       connections w = registered script (connection_of e) :: others /\
       Forall no_handler others).
Proof.
  cbv zeta. split.
  - intros E. pose proof (waiting_run script ts _ (waiting_start script) E)
      as (_ & _ & Hc & _ & Ho & _).
    split; assumption.
  - intros E. destruct (first_new_connection ts E) as (ts1 & e & ts2 & -> & E1 & E2).
    change (run (RunScript script :: ts1 ++ WindowMessage e :: ts2) initial)
      with (run (ts1 ++ WindowMessage e :: ts2) (step initial (RunScript script))).
    rewrite run_app. cbn [run fold_left].
    set (w1 := fold_left step ts1 (step initial (RunScript script))).
    assert (Hw1 : waiting script w1) by apply (waiting_run script ts1 _ (waiting_start script) E1).
    assert (Hr1 : w1 = run (RunScript script :: ts1) initial) by reflexivity.
    assert (Hst : stable w1) by (rewrite Hr1; apply sound_run).
    destruct (waiting_first script w1 e Hst Hw1 E2) as (Hc & Ho & _).
    set (w2 := step w1 (WindowMessage e)) in *.
    assert (Hr2 : w2 = run ((RunScript script :: ts1) ++ [WindowMessage e]) initial).
    { rewrite run_app. rewrite <- Hr1. reflexivity. }
    destruct (ready_run ts2 w2) as [Hc' Ho'].
    + rewrite Hr2. apply sound_run.
    + rewrite Hr2. apply sound_run.
    + rewrite Hr2. apply boot_run.
    + rewrite Ho. discriminate.
    + change (fold_left step ts2
                (step (run ts1 (step initial (RunScript script))) (WindowMessage e)))
        with (run ts2 w2).
      assert (Hx : Forall no_handler (concat (map arriving ts2))).
      { apply Forall_concat, Forall_map, Forall_forall. intros t _. apply arriving_no_handler. }
      split; [|split].
      * unfold listening. rewrite Hc', Hc.
        rewrite (listening_app_no_handler _ _ Hx). destruct script; reflexivity.
      * rewrite Ho'. exact Ho.
      * exists e, (concat (map arriving ts2)). rewrite Hc', Hc. split; [reflexivity|exact Hx].
Qed.

(** ** The exceptions of the page *)

Lemma cause_expected t e : cause t e -> expected e.
Proof.
  unfold expected. destruct t as [script|ev|h| |]; simpl; try contradiction.
  - intros [(_ & [->| ->])|(_ & Hd & ->)]; [tauto|tauto|].
    destruct (message_data ev); try discriminate; simpl; tauto.
  - intros ->. tauto.
Qed.

Lemma callback_throws t w e :
  stable w -> fst (callback t w) = Throw e -> cause t e.
Proof.
  intros Hs. destruct t as [script|ev|h| |].
  - cbn [callback]. unfold Receiver.main, ReceiverEdu.main, then_. js_unfold.
    destruct (loaded w); [discriminate|]. destruct script; discriminate.
  - cbn [callback cause].
    destruct (String.eqb (message_type ev) "NEW_CONNECTION") eqn:E.
    + apply String.eqb_eq in E. rewrite (listener_new_connection ev w E). cbv zeta.
      destruct (connectionListResolved w).
      * destruct (onconnectionavailable w) as [f|]; [|discriminate].
        rewrite call_onconnectionavailable_throws. intros [= <-].
        left. split; [exact E|]. destruct f; auto.
      * unfold resolve, modify. discriminate.
    + destruct (String.eqb (message_type ev) "APP_MESSAGE") eqn:E'.
      * apply String.eqb_eq in E'. rewrite (listener_app_message ev w E').
        destruct (throws (message_data ev)) eqn:Hd.
        -- rewrite fan_out_throws by exact Hd.
           destruct (List.filter _ _); [discriminate|]. intros [= <-].
           right. split; [exact E'|]. split; reflexivity.
        -- destruct (fan_out_normal ev (length (connections w)) 0 w Hd Hs ltac:(lia))
             as (w' & -> & _). discriminate.
      * unfold Polyfill.listener. rewrite E, E'. discriminate.
  - destruct Hs as ((Hi & _) & _). rewrite callback_timeout_eq by lia. discriminate.
  - discriminate.
  - cbn [callback cause]. intros [= <-]. reflexivity.
Qed.

Lemma keeps_uncaught_callback t : keeps uncaught (callback t).
Proof.
  destruct t as [script|e|h| |]; cbn [callback].
  - keeps_tac; apply keeps_then_; reflexivity.
  - unfold Polyfill.listener, Polyfill.deliver, resolve, call_onconnectionavailable,
      Receiver.onconnectionavailable, ReceiverEdu.onconnectionavailable,
      Receiver.addConnection, ReceiverEdu.addConnection.
    keeps_tac;
      first [ apply keeps_sendMessage; reflexivity
            | apply keeps_assign; reflexivity
            | apply keeps_call_onmessage; [outside_tac|reflexivity|reflexivity]
            | idtac ].
    all: try (destruct (settled _); reflexivity).
  - unfold clearTimeout. keeps_tac.
    apply keeps_of_outside; [outside_tac|apply keeps_outside_showNextImage].
  - unfold onAnimationEnd. keeps_tac.
  - keeps_tac.
Qed.

(** The jobs of the scripts never throw. *)
Lemma jobs_uncaught js : forall w,
  stable w -> Forall job_ok js ->
  uncaught (fold_left (fun w j => perform (run_job j) w) js w) = uncaught w.
Proof.
  induction js as [|j js IH]; intros w Hs Hjs; simpl; [reflexivity|].
  inversion Hjs as [|? ? Hj Hjs']; subst.
  pose proof Hs as (_ & _ & (_ & _ & _ & Hsrc) & _).
  rewrite IH; [|apply stable_perform; [apply safe_run_job|exact Hs]|exact Hjs'].
  unfold perform. destruct j as [script|[s|]].
  - rewrite (bootstrap_eq script w Hsrc). reflexivity.
  - destruct Hj.
  - cbn [run_job]. rewrite (broadcast_callback_eq w Hsrc). reflexivity.
Qed.

Lemma step_uncaught w t :
  sound w ->
  uncaught (step w t) = uncaught w \/
  exists e, cause t e /\ expected e /\ uncaught (step w t) = uncaught w ++ [e].
Proof.
  intros Hw.
  assert (Hw1 : sound (perform (callback t) w))
    by (apply sound_perform; [apply safe_callback|apply guards_sound_callback|exact Hw]).
  destruct Hw1 as [[Hs1 _] (Hq1 & _)]. destruct Hw as [[Hs _] _].
  unfold step, drain. rewrite (jobs_uncaught _ (set_microtasks [] _) Hs1 Hq1). proj.
  pose proof (callback_throws t w) as Ht. pose proof (keeps_uncaught_callback t w) as Hk.
  unfold perform. destruct (callback t w) as [[[]|e] w1]; simpl in *.
  - left. exact Hk.
  - right. exists e. pose proof (Ht e Hs eq_refl) as He.
    split; [exact He|]. split; [apply (cause_expected t), He|rewrite Hk; reflexivity].
Qed.

(** X16.  The exceptions of the page.  On every run from the initial page,
    the exceptions that reach the browser are those of the [onmessage]
    handler ([SyntaxError] of [JSON.parse] on data that is not JSON text,
    the [TypeError] of reading [action] of [null], the [TypeError] of
    [image.id = ...] when an [addImage] message has no data), the
    [TypeError] of the listener of the polyfill that reads [type] of a
    message event without data, and the [TypeError] of the
    [onconnectionavailable] callback on a connection that comes after the
    start-up.  A task reports at most one, and only a message event on the
    window does, for one of these causes: the script, the timeouts, the end
    of an animation and the promise callbacks never throw; in particular
    [send] always finds the window of its connection. *)
Theorem only_expected_errors (ts : list Task) :
  let w := run ts initial in
  Forall expected (uncaught w) /\
  (forall t,
     uncaught (step w t) = uncaught w \/
     exists e, cause t e /\ expected e /\ uncaught (step w t) = uncaught w ++ [e]) /\
  uncaught (step w EmptyMessage) = uncaught w ++ [TypeError "type"].
Proof.
  cbv zeta. split; [|split; [intros t; apply step_uncaught, sound_run|]].
  - induction ts as [|t ts IH] using rev_ind; [constructor|].
    rewrite run_app. cbn [run fold_left].
    destruct (step_uncaught (run ts initial) t) as [->|(e & _ & He & ->)];
      [apply sound_run|exact IH|].
    apply Forall_app. split; [exact IH|]. constructor; [exact He|constructor].
  - destruct (sound_run ts) as [_ Hm]. unfold step, perform. cbn [callback]. unfold throw.
    unfold drain. proj. rewrite Hm. reflexivity.
Qed.

(** ** [removeImage] by several handlers *)

Lemma increasing_from_filter (p : Image -> bool) l : forall lo hi,
  increasing_from lo l hi -> increasing_from lo (List.filter p l) hi.
Proof.
  induction l as [|x l IH]; intros lo hi; simpl; [auto|].
  intros (n & Hx & Hn & H). destruct (p x); simpl.
  - exists n. split; [exact Hx|]. split; [exact Hn|]. apply IH, H.
  - apply (increasing_from_weaken (n + 1) lo _ hi hi); [lia|lia|]. apply IH, H.
Qed.

Lemma filter_twice {A} (p : A -> bool) l : List.filter p (List.filter p l) = List.filter p l.
Proof.
  induction l as [|x l IH]; simpl; [reflexivity|].
  destruct (p x) eqn:E; simpl; rewrite ?E, IH; reflexivity.
Qed.

Lemma filter_delete {A} (p : A -> bool) (l : list A) : forall i x,
  l !! i = Some x -> p x = false ->
  (forall j y, j <> i -> l !! j = Some y -> p y = true) ->
  List.filter p l = delete i l.
Proof.
  induction l as [|z l IH]; intros [|i] x Hx Hp Hall; simpl in *; try discriminate.
  - injection Hx as ->. rewrite Hp. apply forallb_filter_id, forallb_forall.
    intros y Hy. apply list_elem_of_In, list_elem_of_lookup in Hy. destruct Hy as [j Hj].
    apply (Hall (S j)); [lia|exact Hj].
  - rewrite (Hall 0%nat z) by (auto; lia). f_equal.
    apply (IH i x Hx Hp). intros j y Hj Hy. apply (Hall (S j)); [lia|exact Hy].
Qed.

(** With distinct ids, [removeImage(id)] leaves the images whose id is not
    [id]. *)
Lemma removeImage_images n w lo hi :
  index_ok (slideshow w) -> increasing_from lo (images (slideshow w)) hi ->
  images (slideshow (snd (removeImage n w))) =
  List.filter (fun x => negb (id_equals x n)) (images (slideshow w)).
Proof.
  intros Hi Ha. rewrite (removeImage_eq n w Hi).
  destruct (List.find _ _) as [image|] eqn:Hfind; cbn [snd].
  - destruct (find_first_index _ _ _ Hfind) as (i & Hx & Hp & Hfirst).
    rewrite (indexOf_first _ _ i Hx).
    2:{ intros j y Hj Hy ->. rewrite (Hfirst j image Hj Hy) in Hp. discriminate. }
    assert (Hlt : (i < length (images (slideshow w)))%nat)
      by (apply lookup_lt_is_Some; eauto).
    destruct (removed_slideshow i w Hi Hlt) as [-> _].
    symmetry. apply (filter_delete _ _ i image Hx); [rewrite Hp; reflexivity|].
    intros j y Hj Hy. destruct (id_equals y n) eqn:Ey; [|reflexivity].
    destruct Hj. apply (increasing_from_unique _ _ _ _ _ _ _ _ Ha Hy Hx Ey Hp).
  - symmetry. apply forallb_filter_id, forallb_forall. intros x Hin.
    rewrite (List.find_none _ _ Hfind x Hin). reflexivity.
Qed.

(** X17.  [removeImage] by several handlers.  With at least one connection
    that has a handler, a [removeImage] message leaves in the slideshow
    exactly the images whose id is not the given one, in their order,
    however many handlers receive it: the first one removes the image and
    the others find nothing to remove. *)
Theorem every_handler_removes_once (ts : list Task) (e : WindowEvent) (n : Z) :
  message_type e = "APP_MESSAGE" ->
  message_data e = Json {| action := "removeImage"; data := n |} ->
  let w := run ts initial in
  let w' := step w (WindowMessage e) in
  listening w <> [] ->
  images (slideshow w') =
    List.filter (fun x => negb (id_equals x n)) (images (slideshow w)) /\
  (forall x, In x (images (slideshow w')) -> id_equals x n = false).
Proof.
  intros E Hd. cbv zeta. intros Hlis.
  destruct (sound_run ts) as [[[Hs (Ha & _)] _] Hm].
  set (w := run ts initial) in *. unfold ids_ok in Ha.
  set (p := fun x : Image => negb (id_equals x n)).
  set (P := fun (k : nat) (v : World) =>
              images (slideshow v) =
              match k with O => images (slideshow w) | S _ => List.filter p (images (slideshow w)) end).
  destruct (fan_out_json_with P e {| action := "removeImage"; data := n |})
    with (n := length (connections w)) (i := 0%nat) (k := 0%nat) (w := w)
    as (w' & Hloop & HP); auto.
  - intros k v [Hi _] Hk. unfold P in *.
    change (dispatch {| action := "removeImage"; data := n |} v)
      with ((let* _ := removeImage n in ret tt) v).
    unfold bind. rewrite (removeImage_eq n v Hi).
    assert (E1 : images (slideshow (snd (removeImage n v))) = List.filter p (images (slideshow w))).
    { destruct k as [|k].
      - rewrite (removeImage_images n v 0 (imageSequence w) Hi) by (rewrite Hk; exact Ha).
        rewrite Hk. reflexivity.
      - rewrite (removeImage_images n v 0 (imageSequence w) Hi)
          by (rewrite Hk; apply increasing_from_filter, Ha).
        rewrite Hk. apply filter_twice. }
    rewrite (removeImage_eq n v Hi) in E1.
    destruct (List.find _ _); exact E1.
  - reflexivity.
  - simpl in HP. fold (listening w) in HP. unfold P in HP.
    destruct (listening w) as [|j js] eqn:El; [contradiction|]. simpl in HP.
    assert (Him : images (slideshow (step w (WindowMessage e))) =
                  List.filter p (images (slideshow w))).
    { unfold step, perform. cbn [callback]. rewrite (listener_app_message e w E), Hloop.
      rewrite (keeps_drain (fun v => images (slideshow v))); try reflexivity;
        [exact HP|intros j'; apply keeps_run_job; reflexivity]. }
    split; [exact Him|]. rewrite Him. intros x Hx. apply List.filter_In in Hx.
    destruct Hx as [_ Hx]. unfold p in Hx. destruct (id_equals x n); [discriminate|reflexivity].
Qed.
(** * The state and the timer, on every page *)

Lemma switch_case_enum a : switch_case (enum_value a) = Some a.
Proof. destruct a; reflexivity. Qed.

Lemma handler_keeps_slideshow f d :
  selects d = None -> keeps slideshow (call_onmessage f (new_MessageEvent d)).
Proof.
  intros H w.
  assert (E : slideshow (snd (Receiver.onmessage (new_MessageEvent d) w)) = slideshow w).
  { destruct d as [| |m| |]; try discriminate; try reflexivity.
    - simpl in H. unfold Receiver.onmessage, JSON_parse, switch. js_unfold.
      rewrite (dispatch_other m w H). unfold broadcastMessage, then_, modify. simpl.
      destruct (settled w); reflexivity.
    - unfold Receiver.onmessage, JSON_parse, switch, broadcastMessage, then_. js_unfold.
      simpl. destruct (settled w); reflexivity. }
  destruct f; exact E.
Qed.

Lemma listener_keeps_slideshow e :
  selects (message_data e) = None -> keeps slideshow (Polyfill.listener e).
Proof.
  intros H.
  unfold Polyfill.listener, Polyfill.deliver, resolve, call_onconnectionavailable,
    Receiver.onconnectionavailable, ReceiverEdu.onconnectionavailable,
    Receiver.addConnection, ReceiverEdu.addConnection.
  keeps_tac;
    first [ apply keeps_sendMessage; reflexivity
          | apply keeps_assign; reflexivity
          | apply handler_keeps_slideshow; exact H
          | idtac ].
  all: try (destruct (settled _); reflexivity).
Qed.

Lemma drain_keeps_slideshow w : slideshow (drain w) = slideshow w.
Proof.
  apply keeps_drain; try reflexivity. intros j. apply keeps_run_job; reflexivity.
Qed.

Lemma other_task_keeps_slideshow t w :
  is_app_message t = false -> (forall h, t <> Timeout h) ->
  slideshow (step w t) = slideshow w.
Proof.
  intros E Ht. unfold step. rewrite drain_keeps_slideshow.
  apply keeps_perform; [reflexivity|].
  destruct t as [script|e|h| |]; cbn [callback].
  - keeps_tac; apply keeps_then_; reflexivity.
  - simpl in E. unfold Polyfill.listener, resolve, call_onconnectionavailable,
      Receiver.onconnectionavailable, ReceiverEdu.onconnectionavailable,
      Receiver.addConnection, ReceiverEdu.addConnection.
    rewrite E.
    keeps_tac;
      first [ apply keeps_sendMessage; reflexivity
            | apply keeps_assign; reflexivity
            | idtac ].
    all: try (destruct (settled _); reflexivity).
  - destruct (Ht h eq_refl).
  - unfold onAnimationEnd. keeps_tac.
  - keeps_tac.
Qed.

Lemma timeout_step h w :
  idle w ->
  step w (Timeout h) =
  if existsb (fun p => fst p =? h) (timeouts w)
  then shown (set_timeouts (List.filter (fun p => negb (fst p =? h)) (timeouts w)) w)
  else w.
Proof.
  intros [Hs Hm]. pose proof Hs as ((Hi & _) & _).
  unfold step, perform. rewrite callback_timeout_eq by lia.
  apply drain_idle. destruct (existsb _ _); [|exact Hm].
  pose proof (outside_shown
                (set_timeouts (List.filter (fun p => negb (fst p =? h)) (timeouts w)) w)) as Ho.
  apply outside_fields in Ho.
  destruct Ho as (_ & _ & _ & _ & _ & _ & Hmic & _). rewrite Hmic. exact Hm.
Qed.

Lemma slideshow_shown w :
  slideshow (shown w) =
  set_currentImageIndex (wrap (slideshow w) (currentImageIndex (slideshow w) + 1))
    (slideshow w).
Proof.
  unfold shown. destruct (len _ =? 0); [reflexivity|].
  destruct (at_index _ _); reflexivity.
Qed.

(** C2, as the code has it.  A message whose [action] is none of the four
    enum values selects no case of the [switch]: the handler of either
    script leaves the object [slideshow] as it was, on any page, and so
    does the whole task of an [APP_MESSAGE] with such data, however many
    connections receive it.  On every page reached from the initial one, a
    task that is not an [APP_MESSAGE] leaves [images], [delay] and
    [animation] as they were; it leaves [currentImageIndex] too, unless it
    is the slideshow timeout that expires: then [showNextImage] runs and
    moves the index to the next image, with no message at all. *)
Theorem other_action_keeps_slideshow (ts : list Task) (t : Task) :
  let w := run ts initial in
  let w' := step w t in
  (forall m, selects (Json m) = None <->
             forall a : SlideshowAction, action m <> enum_value a) /\
  (forall f d v,
     selects d = None ->
     slideshow (snd (call_onmessage f (new_MessageEvent d) v)) = slideshow v /\
     (throws d = false -> fst (call_onmessage f (new_MessageEvent d) v) = Normal tt)) /\
  (forall e, t = WindowMessage e -> selects (message_data e) = None ->
     slideshow w' = slideshow w) /\
  (is_app_message t = false ->
     images (slideshow w') = images (slideshow w) /\
     delay (slideshow w') = delay (slideshow w) /\
     animation (slideshow w') = animation (slideshow w)) /\
  (is_app_message t = false -> (forall h, t <> Timeout h) ->
     slideshow w' = slideshow w) /\
  (forall h, t = Timeout h ->
     currentImageIndex (slideshow w') =
       if existsb (fun p => fst p =? h) (timeouts w)
       then wrap (slideshow w) (currentImageIndex (slideshow w) + 1)
       else currentImageIndex (slideshow w)).
Proof.
  cbv zeta. pose proof (idle_run ts initial idle_initial) as Hi.
  set (w := run ts initial) in *.
  assert (Htime : forall h, slideshow (step w (Timeout h)) =
            if existsb (fun p => fst p =? h) (timeouts w)
            then set_currentImageIndex
                   (wrap (slideshow w) (currentImageIndex (slideshow w) + 1)) (slideshow w)
            else slideshow w).
  { intros h. rewrite (timeout_step h w Hi).
    destruct (existsb _ _); [|reflexivity]. rewrite slideshow_shown. reflexivity. }
  split; [|split; [|split; [|split; [|split]]]].
  - intros m. simpl. split.
    + intros H a E. rewrite E, switch_case_enum in H. discriminate.
    + apply switch_case_None.
  - intros f d v H. split; [apply handler_keeps_slideshow, H|].
    intros Hd. destruct d as [| |m| |]; try discriminate.
    + simpl in H.
      assert (E : fst (Receiver.onmessage (new_MessageEvent (Json m)) v) = Normal tt).
      { unfold Receiver.onmessage, JSON_parse, switch. js_unfold.
        rewrite (dispatch_other m v H). reflexivity. }
      destruct f; exact E.
    + destruct f; reflexivity.
  - intros e -> H. unfold step. rewrite drain_keeps_slideshow.
    apply keeps_perform; [reflexivity|]. apply listener_keeps_slideshow, H.
  - intros E. destruct t as [script|e|h| |];
      try (rewrite other_task_keeps_slideshow by (try exact E; discriminate);
           repeat split; reflexivity).
    rewrite Htime. destruct (existsb _ _); repeat split; reflexivity.
  - intros E Ht. apply other_task_keeps_slideshow; assumption.
  - intros h ->. rewrite Htime. destruct (existsb _ _); reflexivity.
Qed.

(** C2, as the claim has it, fails: on the page with three images the
    timeout expires; no message is received, no handler runs, and
    [currentImageIndex] goes from 1 to 2. *)
Lemma timeout_changes_currentImageIndex :
  let w := three_images in
  let w' := step w (Timeout 2) in
  timeouts w = [(2, 5000)] /\
  delivered w' = delivered w /\
  currentImageIndex (slideshow w) = 1 /\
  currentImageIndex (slideshow w') = 2 /\
  slideshow w' <> slideshow w.
Proof. vm_compute. repeat split; try reflexivity. discriminate. Qed.

(** C6.  Whatever the tasks the page runs from its initial state, at most
    one timeout is pending, and it is the one [nextImageTimeout] names; its
    handle is positive, so that the test of [showNextImage] never skips
    [clearTimeout].  A call of [showNextImage], on any page, returns
    normally, clears the timeout that [nextImageTimeout] names and then,
    when there is an image, schedules one with a fresh handle and the
    current delay: after the call on a page the tasks have reached, that new
    timeout is the only one pending, and none is pending when there is no
    image.  The timer repeats: one timeout is pending exactly when there is
    an image, and when it expires, the one [showNextImage] schedules has
    replaced it. *)
Theorem one_pending_timeout (ts : list Task) :
  let w := run ts initial in
  let w' := snd (showNextImage w) in
  ((length (timeouts w) <= 1)%nat /\
   (forall h d, In (h, d) (timeouts w) -> nextImageTimeout w = Some h) /\
   (forall h, nextImageTimeout w = Some h -> 0 < h < nextHandle w)) /\
  (forall v, -1 <= currentImageIndex (slideshow v) ->
     fst (showNextImage v) = Normal tt /\
     (forall h, nextImageTimeout v = Some h -> h <> 0 -> ~ In h (map fst (cleared v))) /\
     timeouts (snd (showNextImage v)) =
       cleared v ++
       (if len (images (slideshow v)) =? 0 then []
        else [(nextHandle v, delay (slideshow v))])) /\
  (cleared w = [] /\
   (images (slideshow w) <> [] ->
      timeouts w' = [(nextHandle w, delay (slideshow w))] /\
      nextImageTimeout w' = Some (nextHandle w) /\
      ~ In (nextHandle w) (map fst (timeouts w))) /\
   (images (slideshow w) = [] -> timeouts w' = [])) /\
  ((images (slideshow w) = [] -> timeouts w = []) /\
   (images (slideshow w) <> [] ->
      exists h, timeouts w = [(h, delay (slideshow w))] /\
                nextImageTimeout w = Some h /\
                timeouts (step w (Timeout h)) = [(nextHandle w, delay (slideshow w))])).
Proof.
  cbv zeta. destruct (sound_run ts) as [[[Hs (_ & _ & Hx & _)] _] Hm].
  set (w := run ts initial) in *.
  pose proof Hs as (Hi & Ht & _ & _). pose proof (cleared_nil w Ht) as Hc.
  assert (Hidx : -1 <= currentImageIndex (slideshow w)) by (destruct Hi; lia).
  destruct Hx as [Hx0 Hx1].
  split; [|split; [|split]].
  - destruct Ht as (Hn & Hh & Ht). split; [|split].
    + destruct Ht as [->|(h & d & -> & _)]; simpl; lia.
    + intros h d Hin. destruct Ht as [E|(h' & d' & E & Hnext)]; rewrite E in Hin.
      * destruct Hin.
      * destruct Hin as [[= -> ->]|[]]. exact Hnext.
    + exact Hh.
  - intros v Hv. rewrite showNextImage_eq by exact Hv. cbn [fst snd].
    split; [reflexivity|]. split.
    + intros h Hh Hz. unfold cleared. rewrite Hh. unfold truthy.
      destruct (h =? 0) eqn:E; zb; [contradiction|]. cbn [negb].
      rewrite in_map_iff. intros (p & Hp & Hin).
      apply filter_In in Hin. destruct Hin as [_ Hin]. rewrite Hp, Z.eqb_refl in Hin.
      discriminate.
    + unfold shown. destruct (len (images (slideshow v)) =? 0) eqn:E; zb.
      * proj. rewrite app_nil_r. reflexivity.
      * destruct (at_index_Some (images (slideshow v))
                    (wrap (slideshow v) (currentImageIndex (slideshow v) + 1)))
          as [x Hx]; [apply wrap_range; [lia|]; rewrite <- len_nil_iff; exact E|].
        proj. rewrite Hx. reflexivity.
  - split; [exact Hc|]. rewrite showNextImage_eq by exact Hidx. cbn [snd]. split.
    + intros Hne. destruct (timeouts_shown w Ht Hidx Hne) as [E1 E2].
      split; [exact E1|]. split; [exact E2|].
      destruct (Hx1 Hne) as (h & -> & Hh). simpl. intros [E|[]].
      destruct Ht as (_ & Hlt & _). specialize (Hlt h Hh). lia.
    + intros He. unfold shown. rewrite Hc.
      apply len_nil_iff in He. rewrite He. reflexivity.
  - split; [exact Hx0|]. intros Hne. destruct (Hx1 Hne) as (h & Eh & Hh).
    exists h. split; [exact Eh|]. split; [exact Hh|].
    rewrite (timeout_step h w (conj Hs Hm)). rewrite Eh. simpl. rewrite Z.eqb_refl. simpl.
    set (w1 := set_timeouts [] w).
    assert (Ht1 : timers_ok w1).
    { pose proof (timers_ok_expired h w Ht) as H1. rewrite Eh in H1. simpl in H1.
      rewrite Z.eqb_refl in H1. exact H1. }
    destruct (timeouts_shown w1 Ht1 Hidx Hne) as [E1 _]. exact E1.
Qed.


(** ** More theorems at work on concrete pages *)

Lemma three_images_sound : sound three_images.
Proof.
  exact (proj1 (sound_run [RunScript Photowall; new_connection 7;
                           app_message (Json (add_image "a.jpg"));
                           app_message (Json (add_image "b.jpg"));
                           app_message (Json (add_image "c.jpg"));
                           Timeout 1])).
Defined.

Lemma three_images_ids_ok : ids_ok three_images.
Proof. destruct three_images_sound as [[_ [Ha _]] _]. exact Ha. Defined.

Lemma three_images_timers_ok : timers_ok three_images.
Proof. destruct three_images_sound as [[[_ [Ht _]] _] _]. exact Ht. Defined.

Lemma posted_messages_are_states_witness :
  let ts := [RunScript Photowall; new_connection 7] in
  let p : Posted := (Some 7%nat, Some "https://sender.example", JSON_stringify (slideshow initial)) in
  In p (posted (run ts initial)) /\
  exists o,
    snd p = JSON_stringify o /\ index_ok o /\
    (forall (i j : nat) x y, (i < j)%nat -> images o !! i = Some x -> images o !! j = Some y ->
       exists a b, id x = Some a /\ id y = Some b /\ a < b).
Proof.
  cbv zeta.
  assert (H : In (Some 7%nat, Some "https://sender.example", JSON_stringify (slideshow initial))
                 (posted (run [RunScript Photowall; new_connection 7] initial)))
    by (vm_compute; left; reflexivity).
  exact (conj H (posted_messages_are_states _ _ H)).
Defined.

Lemma removeImage_twice_witness :
  let w' := snd (removeImage 1 three_images) in
  index_ok (slideshow three_images) /\ ids_ok three_images /\
  (forall x, In x (images (slideshow w')) -> id_equals x 1 = false) /\
  removeImage 1 w' = (Normal false, w').
Proof.
  cbv zeta.
  assert (H1 : index_ok (slideshow three_images)) by exact three_images_index_ok.
  assert (H2 : ids_ok three_images) by exact three_images_ids_ok.
  exact (conj H1 (conj H2 (removeImage_twice 1 three_images H1 H2))).
Defined.

Lemma addImage_removeImage_round_trip_witness :
  let w1 := snd (addImage (image "d.jpg") three_images) in
  let w2 := snd (removeImage (imageSequence three_images) w1) in
  index_ok (slideshow three_images) /\ ids_ok three_images /\
  fst (removeImage (imageSequence three_images) w1) = Normal true /\
  slideshow w2 = slideshow three_images /\
  imageSequence w2 = imageSequence three_images + 1.
Proof.
  cbv zeta.
  assert (H1 : index_ok (slideshow three_images)) by exact three_images_index_ok.
  assert (H2 : ids_ok three_images) by exact three_images_ids_ok.
  exact (conj H1 (conj H2 (addImage_removeImage_round_trip (image "d.jpg") three_images H1 H2))).
Defined.

Lemma changeDelay_restarts_current_witness :
  let s := slideshow three_images in
  let w' := snd (changeDelay 3000 three_images) in
  index_ok s /\ timers_ok three_images /\
  slideshow w' = set_delay 3000 s /\
  timeouts w' = [(nextHandle three_images, 3000)].
Proof.
  cbv zeta.
  assert (H1 : index_ok (slideshow three_images)) by exact three_images_index_ok.
  assert (H2 : timers_ok three_images) by exact three_images_timers_ok.
  split; [exact H1|]. split; [exact H2|].
  destruct (changeDelay_restarts_current 3000 three_images H1 H2) as (Hs & _ & Hne).
  split; [exact Hs|].
  destruct (Hne three_images_not_empty) as (current & _ & _ & Ht & _). exact Ht.
Defined.

Lemma changeAnimation_applies_to_next_image_witness :
  let w1 := snd (changeAnimation "zoomIn" three_images) in
  -1 <= currentImageIndex (slideshow three_images) /\
  images (slideshow three_images) <> [] /\
  childNodes w1 = childNodes three_images /\
  exists next,
    at_index (images (slideshow three_images))
      (currentImageIndex (slideshow (snd (showNextImage w1)))) = Some next /\
    childNodes (snd (showNextImage w1)) =
      childNodes three_images ++
      [{| src := url next; className := String.append "animated " "zoomIn" |}].
Proof.
  cbv zeta.
  assert (H1 : -1 <= currentImageIndex (slideshow three_images)) by (vm_compute; discriminate).
  assert (H2 : images (slideshow three_images) <> []) by exact three_images_not_empty.
  split; [exact H1|]. split; [exact H2|].
  destruct (changeAnimation_applies_to_next_image "zoomIn" three_images H1 H2)
    as (_ & Hc & _ & _ & Hn).
  exact (conj Hc Hn).
Defined.

Lemma bootstrap_registers_all_witness :
  let w := run [new_connection 7; new_connection 8] initial in
  let w' := snd (run_job (Bootstrap Photowall) w) in
  Forall (fun c => PresentationConnection.messageSource_ c <> None) (connections w) /\
  fst (run_job (Bootstrap Photowall) w) = Normal tt /\
  connections w' = map (registered Photowall) (connections w) /\
  listening w' = seq 0 (length (connections w)).
Proof.
  cbv zeta.
  assert (H : Forall (fun c => PresentationConnection.messageSource_ c <> None)
                (connections (run [new_connection 7; new_connection 8] initial))).
  { apply (sound_run [new_connection 7; new_connection 8]). }
  split; [exact H|].
  destruct (bootstrap_registers_all Photowall _ H) as (H1 & H2 & H3 & _).
  exact (conj H1 (conj H2 H3)).
Defined.

Lemma late_connections_get_no_handler_witness :
  let w := run [RunScript Photowall; new_connection 7] initial in
  let w' := run [new_connection 8; app_message (Json (add_image "a.jpg"))] w in
  onconnectionavailable w <> None /\
  listening w' = listening w /\
  uncaught (step w (new_connection 8)) = uncaught w ++ [TypeError "send"].
Proof.
  cbv zeta.
  assert (H : onconnectionavailable (run [RunScript Photowall; new_connection 7] initial) <> None)
    by (vm_compute; discriminate).
  split; [exact H|].
  destruct (late_connections_get_no_handler
              [RunScript Photowall; new_connection 7]
              [new_connection 8; app_message (Json (add_image "a.jpg"))] H)
    as (_ & _ & Hl & _ & He).
  split; [exact Hl|].
  destruct (He (new_connection_event 8) Photowall eq_refl eq_refl) as (_ & _ & Hu).
  exact Hu.
Defined.

Lemma early_messages_are_dropped_witness :
  let w := run [new_connection 7] initial in
  let e := app_event (Json (add_image "a.jpg")) in
  message_type e = "APP_MESSAGE" /\
  onconnectionavailable w = None /\
  listening w = [] /\ step w (WindowMessage e) = w.
Proof.
  cbv zeta.
  exact (conj eq_refl (conj eq_refl
           (early_messages_are_dropped [new_connection 7]
              (app_event (Json (add_image "a.jpg"))) eq_refl eq_refl))).
Defined.

Lemma every_handler_adds_the_image_witness :
  let ts := [new_connection 7; new_connection 8; RunScript Photowall] in
  let e := app_event (Json (add_image "a.jpg")) in
  let w := run ts initial in
  let w' := step w (WindowMessage e) in
  message_type e = "APP_MESSAGE" /\
  message_data e = Json {| action := "addImage"; data := image "a.jpg" |} /\
  images (slideshow w') =
    images (slideshow w) ++ copies (image "a.jpg") (imageSequence w) (length (listening w)) /\
  imageSequence w' = imageSequence w + Z.of_nat (length (listening w)).
Proof.
  cbv zeta.
  exact (conj eq_refl (conj eq_refl
           (every_handler_adds_the_image
              [new_connection 7; new_connection 8; RunScript Photowall]
              (app_event (Json (add_image "a.jpg"))) (image "a.jpg") eq_refl eq_refl))).
Defined.

Lemma close_runs_again_witness :
  let c := connection_of (new_connection_event 7) in
  let w1 := snd (close 0 one_connection) in
  connections one_connection !! 0%nat = Some c /\ state_known c /\
  fst (close 0 one_connection) = Normal (PresentationConnection.onclose c) /\
  connections w1 !! 0%nat = Some (set_state "closed" c) /\
  close 0 w1 = (Normal (PresentationConnection.onclose c), w1).
Proof.
  cbv zeta.
  assert (H1 : connections one_connection !! 0%nat = Some (connection_of (new_connection_event 7)))
    by reflexivity.
  assert (H2 : state_known (connection_of (new_connection_event 7))) by (left; reflexivity).
  split; [exact H1|]. split; [exact H2|].
  destruct (close_runs_again 0 _ one_connection H1 H2) as (Ha & _ & Hb & Hc).
  exact (conj Ha (conj Hb Hc)).
Defined.

Lemma every_handler_removes_once_witness :
  let ts := [new_connection 7; new_connection 8; RunScript Photowall;
             app_message (Json (add_image "a.jpg"))] in
  let e := app_event (Json (remove_image 0)) in
  let w := run ts initial in
  let w' := step w (WindowMessage e) in
  message_type e = "APP_MESSAGE" /\
  message_data e = Json {| action := "removeImage"; data := 0 |} /\
  listening w <> [] /\
  images (slideshow w') =
    List.filter (fun x => negb (id_equals x 0)) (images (slideshow w)).
Proof.
  cbv zeta.
  assert (H : listening (run [new_connection 7; new_connection 8; RunScript Photowall;
                              app_message (Json (add_image "a.jpg"))] initial) <> [])
    by (vm_compute; discriminate).
  split; [reflexivity|]. split; [reflexivity|]. split; [exact H|].
  destruct (every_handler_removes_once
              [new_connection 7; new_connection 8; RunScript Photowall;
               app_message (Json (add_image "a.jpg"))]
              (app_event (Json (remove_image 0))) 0 eq_refl eq_refl H) as [Hi _].
  exact Hi.
Defined.
